(** * Candidate screener: the scoring orchestration core

    A shallow embedding of [src/lib/ai-service.ts], [src/lib/prompts.ts],
    [src/lib/types.ts], [src/lib/schemas.ts] and [src/app/api/score/route.ts],
    followed by the properties the specification states about them.

    Conventions of the embedding:
    - a JavaScript number is a finite rational or an infinity ([Js.number]);
      NaN never reaches the modelled code (JSON.parse cannot produce it and
      zod's [z.number()] rejects it);
    - a promise-returning function is a computation in the monad
      [AiService.M]: it threads a [World] (clock, number of gateway calls
      made, trace of effects) and completes normally or abruptly (a rejected
      promise, a thrown value);
    - the LLM gateway is an oracle: its reply to the n-th call of a batch
      task is an arbitrary function of n;
    - console output has no effect on any result and is left out. *)

From Stdlib Require Import List ZArith QArith Qabs String Ascii Bool Lia Arith.
From Stdlib Require Import Permutation Sorted.
Import ListNotations.

Local Open Scope string_scope.
Local Open Scope list_scope.
Local Open Scope Z_scope.

(** String concatenation, as in a template literal. *)
Notation "a +++ b" := (String.append a b) (at level 60, right associativity).

(* ================================================================== *)
(** ** JavaScript values used by the code *)
(* ================================================================== *)

Module Js.

#[local] Set Warnings "-register-all".


(** Numbers: finite values and the two infinities. *)
Inductive number : Type :=
| Finite (q : Q)
| PosInfinity
| NegInfinity.

(** [a < b] on JavaScript numbers. *)
Definition num_ltb (a b : number) : bool :=
  match a, b with
  | Finite p, Finite q => negb (Qle_bool q p)
  | Finite _, PosInfinity => true
  | Finite _, NegInfinity => false
  | PosInfinity, _ => false
  | NegInfinity, NegInfinity => false
  | NegInfinity, _ => true
  end.

(** [a <= b]; without NaN it is the negation of [b < a]. *)
Definition num_leb (a b : number) : bool := negb (num_ltb b a).

Definition of_Z (z : Z) : number := Finite (inject_Z z).

(** The sign of [a - b], as a sort comparator's caller reads it: the
    difference of two equal infinities is NaN, which counts as zero. *)
Definition signOfDifference (a b : number) : comparison :=
  match a, b with
  | Finite p, Finite q => (p ?= q)%Q
  | PosInfinity, PosInfinity => Eq
  | NegInfinity, NegInfinity => Eq
  | PosInfinity, _ => Gt
  | _, PosInfinity => Lt
  | NegInfinity, _ => Lt
  | _, NegInfinity => Gt
  end.

(** Truthiness of a number: every number but zero. *)
Definition num_truthy (a : number) : bool :=
  match a with
  | Finite q => negb (Qeq_bool q 0)
  | _ => true
  end.

(** Truthiness of a string: every string but the empty one. *)
Definition str_truthy (s : string) : bool :=
  match s with
  | EmptyString => false
  | String _ _ => true
  end.

(** [s.includes(needle)]. *)
Fixpoint includes (needle s : string) : bool :=
  match s with
  | EmptyString => String.prefix needle EmptyString
  | String _ rest => String.prefix needle s || includes needle rest
  end.

(** A value as [JSON.parse] builds it.  [undefined] is not a JSON value: a
    property read that finds nothing yields [None]. *)
Inductive value : Type :=
| Null
| Bool (b : bool)
| Number (n : number)
| Str (s : string)
| Array (items : list value)
| Object (props : list (string * value)).

Definition truthy (v : value) : bool :=
  match v with
  | Null => false
  | Bool b => b
  | Number n => num_truthy n
  | Str s => str_truthy s
  | Array _ => true
  | Object _ => true
  end.

(** Truthiness of the result of a property read. *)
Definition truthy_opt (v : option value) : bool :=
  match v with
  | None => false
  | Some v => truthy v
  end.

Definition isArray (v : option value) : bool :=
  match v with
  | Some (Array _) => true
  | _ => false
  end.

Definition isString (v : option value) : bool :=
  match v with
  | Some (Str _) => true
  | _ => false
  end.

Definition isNumber (v : option value) : bool :=
  match v with
  | Some (Number _) => true
  | _ => false
  end.

Fixpoint lookup (key : string) (props : list (string * value)) : option value :=
  match props with
  | [] => None
  | (k, v) :: rest => if String.eqb k key then Some v else lookup key rest
  end.

(** What the code can observe of a thrown object: the optional fields of
    the [APIError] interface of ai-service.ts. *)
Record APIError : Type := mkAPIError {
  status : option Z;
  retryAfter : option Z;
  message : option string;
  code : option string;
  name : option string;
  issues : option (list string);
  rawResponse : option string
}.

(** Anything can be thrown; the primitives matter only through their
    truthiness and their rendering by [String(...)]. *)
Inductive thrown : Type :=
| ThrownUndefined
| ThrownNull
| ThrownBool (b : bool)
| ThrownString (s : string)
| ThrownObject (e : APIError).

(** [new Error(msg)] and its subclasses: a name and a message, nothing else. *)
Definition mkError (nm msg : string) : thrown :=
  ThrownObject (mkAPIError None None (Some msg) None (Some nm) None None).

Definition Error (msg : string) : thrown := mkError "Error" msg.
Definition TypeError (msg : string) : thrown := mkError "TypeError" msg.
Definition RangeError (msg : string) : thrown := mkError "RangeError" msg.

(** The outcome of evaluating something that may throw, and of a settled
    promise: fulfilled with a value or rejected with a reason. *)
Inductive completion (A : Type) : Type :=
| Normal (a : A)
| Abrupt (reason : thrown).
Arguments Normal {A} a.
Arguments Abrupt {A} reason.

Definition bind {A B : Type} (c : completion A) (k : A -> completion B)
  : completion B :=
  match c with
  | Normal a => k a
  | Abrupt reason => Abrupt reason
  end.

(** [Error.prototype.toString]. *)
Definition error_toString (e : APIError) : string :=
  let nm := match name e with Some n => n | None => "Error" end in
  let msg := match message e with Some m => m | None => EmptyString end in
  if negb (str_truthy nm) then msg
  else if negb (str_truthy msg) then nm
  else nm +++ ": " +++ msg.

(** [String(v)] and template-literal interpolation of a thrown value. *)
Definition toString (t : thrown) : string :=
  match t with
  | ThrownUndefined => "undefined"
  | ThrownNull => "null"
  | ThrownBool true => "true"
  | ThrownBool false => "false"
  | ThrownString s => s
  | ThrownObject e => error_toString e
  end.

Definition thrown_truthy (t : thrown) : bool :=
  match t with
  | ThrownUndefined => false
  | ThrownNull => false
  | ThrownBool b => b
  | ThrownString s => str_truthy s
  | ThrownObject _ => true
  end.

(** Interpolation of an optional string: [undefined] prints as such. *)
Definition interp (s : option string) : string :=
  match s with
  | Some s => s
  | None => "undefined"
  end.

(** [v.key] on a parsed JSON value.  Reading a property of [null] throws;
    primitives and arrays have none of the keys the code asks for
    ([candidates], [id], [score], [highlights], [reasoning],
    [matchedSkills]). *)
Definition get (v : value) (key : string) : completion (option value) :=
  match v with
  | Null =>
      Abrupt (TypeError ("Cannot read properties of null (reading '" +++ key +++ "')"))
  | Object props => Normal (lookup key props)
  | _ => Normal None
  end.

(** [Array.prototype.slice(start, end)]: a negative index counts from the
    end, and both are clamped to the array. *)
Definition relativeIndex (len k : Z) : Z :=
  if k <? 0 then Z.max (len + k) 0 else Z.min k len.

Definition slice {A : Type} (l : list A) (start end_ : Z) : list A :=
  let len := Z.of_nat (List.length l) in
  let from := relativeIndex len start in
  let to := relativeIndex len end_ in
  firstn (Z.to_nat (to - from)) (skipn (Z.to_nat from) l).

(** [Array.prototype.sort(compareFn)] is stable (ES2019).  With a
    consistent comparator its result is determined; the reference
    implementation here inserts each element in front of the first later
    element it does not have to follow.  [compareFn a b] is the sign of the
    number the JavaScript comparator returns. *)
Section Sort.
Context {A : Type} (compareFn : A -> A -> comparison).

Fixpoint insert (x : A) (l : list A) : list A :=
  match l with
  | [] => [x]
  | y :: rest =>
      match compareFn x y with
      | Gt => y :: insert x rest
      | _ => x :: y :: rest
      end
  end.

Definition sort (l : list A) : list A := fold_right insert [] l.
End Sort.

End Js.

Export Js (completion, Normal, Abrupt).

(* ================================================================== *)
(** ** src/lib/types.ts *)
(* ================================================================== *)

Module Types.

Definition JobDescription := string.
Definition CandidateScore := Js.number.
Definition CandidateId := string.

Record QuestionAnswer : Type := mkQuestionAnswer {
  question : string;
  answer : string
}.

Inductive Availability : Type :=
| Immediate
| TwoWeeks
| OneMonth
| NotAvailable.

(** The [Candidate] interface.  Its further optional descriptive strings
    ([jobTitle], [headline], [stage], [tags], ...) are read by no function
    of the scoring core and are not listed. *)
Record Candidate : Type := mkCandidate {
  id : CandidateId;
  name : string;
  email : string;
  experience : Z;
  location : string;
  bio : string;
  skills : option (list string);
  education : option (list string);
  workHistory : option (list string);
  questions : option (list QuestionAnswer);
  availability : option Availability
}.

(** [ScoredCandidate extends Candidate]: the candidate's own fields and the
    five added by scoring.  The two arrays hold whatever the model's
    response held: only the structured path guarantees strings. *)
Record ScoredCandidate : Type := mkScoredCandidate {
  candidate : Candidate;
  score : CandidateScore;
  highlights : list Js.value;
  reasoning : string;
  matchedSkills : list Js.value;
  scoringTimestamp : Z
}.

(** [ScoringWeights]: five fractions. *)
Module ScoringWeights.
Record t : Type := mk {
  skillsMatch : Js.number;
  experienceLevel : Js.number;
  education : Js.number;
  portfolio : Js.number;
  availability : Js.number
}.
End ScoringWeights.

(** [Partial<ScoringWeights>]: any of the five may be left out. *)
Module PartialScoringWeights.
Record t : Type := mk {
  skillsMatch : option Js.number;
  experienceLevel : option Js.number;
  education : option Js.number;
  portfolio : option Js.number;
  availability : option Js.number
}.

(** A complete set used where a partial one is expected. *)
Definition ofComplete (w : ScoringWeights.t) : t :=
  mk (Some (ScoringWeights.skillsMatch w))
     (Some (ScoringWeights.experienceLevel w))
     (Some (ScoringWeights.education w))
     (Some (ScoringWeights.portfolio w))
     (Some (ScoringWeights.availability w)).
End PartialScoringWeights.

Inductive ErrorType : Type :=
| T_RATE_LIMIT
| T_PARSE_ERROR
| T_NETWORK_ERROR
| T_VALIDATION_ERROR
| T_QUOTA_EXCEEDED
| T_UNKNOWN_ERROR.

(** The discriminated union [ScoringError]: one constructor per tag, each
    with the fields of that tag. *)
Inductive ScoringError : Type :=
| RATE_LIMIT (retryAfter : Z) (message : string)
| PARSE_ERROR (details : string) (rawResponse : option string)
| NETWORK_ERROR (message : string) (code : option string)
| VALIDATION_ERROR (field : string) (message : string)
| QUOTA_EXCEEDED (resetTime : Z) (message : string)
| UNKNOWN_ERROR (message : string).

(** [error.type]. *)
Definition type (e : ScoringError) : ErrorType :=
  match e with
  | RATE_LIMIT _ _ => T_RATE_LIMIT
  | PARSE_ERROR _ _ => T_PARSE_ERROR
  | NETWORK_ERROR _ _ => T_NETWORK_ERROR
  | VALIDATION_ERROR _ _ => T_VALIDATION_ERROR
  | QUOTA_EXCEEDED _ _ => T_QUOTA_EXCEEDED
  | UNKNOWN_ERROR _ => T_UNKNOWN_ERROR
  end.

Definition ErrorType_eqb (a b : ErrorType) : bool :=
  match a, b with
  | T_RATE_LIMIT, T_RATE_LIMIT
  | T_PARSE_ERROR, T_PARSE_ERROR
  | T_NETWORK_ERROR, T_NETWORK_ERROR
  | T_VALIDATION_ERROR, T_VALIDATION_ERROR
  | T_QUOTA_EXCEEDED, T_QUOTA_EXCEEDED
  | T_UNKNOWN_ERROR, T_UNKNOWN_ERROR => true
  | _, _ => false
  end.

(** [Result<T, E>]. *)
Inductive Result (T E : Type) : Type :=
| Success (data : T)
| Failure (error : E).
Arguments Success {T E} data.
Arguments Failure {T E} error.

Definition ScoringResult := Result (list ScoredCandidate) ScoringError.

Module LLMProvider.
Record t : Type := mk {
  name : string;
  model : string;
  maxTokens : Z;
  temperature : Q
}.
End LLMProvider.

(** [createCandidateScore]: the number itself, or an Error outside 0..100. *)
Definition createCandidateScore (score : Js.number) : completion CandidateScore :=
  if Js.num_ltb score (Js.of_Z 0) || Js.num_ltb (Js.of_Z 100) score
  then Abrupt (Js.Error "Score must be between 0 and 100")
  else Normal score.

Definition createJobDescription (description : string) : JobDescription := description.

End Types.

(* ================================================================== *)
(** ** src/lib/prompts.ts *)
(* ================================================================== *)

Module Prompts.
Import Types.

(** The text of a prompt is a function of the arguments of its builder, and
    no property below depends on the wording: a prompt is represented by
    the builder call that produces it. *)
Inductive Prompt : Type :=
| createScoringPrompt (jobDescription : JobDescription)
    (candidates : list Candidate) (weights : option PartialScoringWeights.t)
| createConstrainedPrompt (jobDescription : JobDescription)
    (candidates : list Candidate).

Record ValidationResult : Type := mkValidationResult {
  isValid : bool;
  error : option string;
  parsed : option Js.value
}.

Definition invalid (msg : string) : ValidationResult :=
  mkValidationResult false (Some msg) None.

Local Notation "x <- c ;; k" := (Js.bind c (fun x => k))
  (at level 61, c at next level, right associativity).

(** The body of the [for ... of] loop for one item: [Some r] stands for
    [return r], [None] for reaching the end of the body. *)
Definition checkCandidate (candidate : Js.value)
  : completion (option ValidationResult) :=
  id <- Js.get candidate "id" ;;
  if negb (Js.truthy_opt id) || negb (Js.isString id) then
    Normal (Some (invalid "Each candidate must have valid 'id' string"))
  else
  score <- Js.get candidate "score" ;;
  if match score with
     | Some (Js.Number n) =>
         Js.num_ltb n (Js.of_Z 0) || Js.num_ltb (Js.of_Z 100) n
     | _ => true
     end
  then
    Normal (Some (invalid "Each candidate must have 'score' number between 0-100"))
  else
  highlights <- Js.get candidate "highlights" ;;
  if negb (Js.isArray highlights) then
    Normal (Some (invalid "Each candidate must have 'highlights' array"))
  else
  reasoning <- Js.get candidate "reasoning" ;;
  if negb (Js.truthy_opt reasoning) || negb (Js.isString reasoning) then
    Normal (Some (invalid "Each candidate must have 'reasoning' string"))
  else
  matchedSkills <- Js.get candidate "matchedSkills" ;;
  if negb (Js.isArray matchedSkills) then
    Normal (Some (invalid "Each candidate must have 'matchedSkills' array"))
  else
    Normal None.

(** The loop over [parsed.candidates]; falling out of it returns the valid
    result. *)
Fixpoint checkCandidates (items : list Js.value) (parsed : Js.value)
  : completion ValidationResult :=
  match items with
  | [] => Normal (mkValidationResult true None (Some parsed))
  | candidate :: rest =>
      r <- checkCandidate candidate ;;
      match r with
      | Some result => Normal result
      | None => checkCandidates rest parsed
      end
  end.

(** The [try] block of [validatePromptResponse] after [JSON.parse]. *)
Definition validateParsed (parsed : Js.value) : completion ValidationResult :=
  candidates <- Js.get parsed "candidates" ;;
  if negb (Js.truthy_opt candidates) || negb (Js.isArray candidates) then
    Normal (invalid "Response must have 'candidates' array")
  else
    match candidates with
    | Some (Js.Array items) => checkCandidates items parsed
    | _ => Normal (invalid "Response must have 'candidates' array")
    end.

(** [validatePromptResponse].  [JSON.parse] belongs to the platform: it is a
    parameter, mapping a text to the value it denotes or to the SyntaxError
    it raises. *)
Definition validatePromptResponse
    (JSON_parse : string -> completion Js.value) (response : string)
  : ValidationResult :=
  match (parsed <- JSON_parse response ;; validateParsed parsed) with
  | Normal result => result
  | Abrupt error => invalid ("Invalid JSON: " +++ Js.toString error)
  end.

End Prompts.

(* ================================================================== *)
(** ** src/lib/ai-service.ts *)
(* ================================================================== *)

Module AiService.
Import Types Prompts.

Record Config : Type := mkConfig {
  maxRetries : nat;
  baseDelay : Z;
  maxDelay : Z;
  batchSize : Z;
  timeout : Z;
  maxConcurrentBatches : Z
}.

Definition DEFAULT_CONFIG : Config := mkConfig 3 1000 10000 10 30000 3.

(** *** The LLM gateway and the world of a task *)

(** The model handle built by the provider SDKs. *)
Inductive AIModel : Type :=
| openai (model : string)
| anthropic (model : string).

(** An item of the model's response ([AICandidateResponse]).  The arrays
    hold whatever the response held. *)
Module AICandidateResponse.
Record t : Type := mk {
  id : string;
  score : Js.number;
  highlights : list Js.value;
  reasoning : string;
  matchedSkills : list Js.value
}.
End AICandidateResponse.

(** What [generateObject] resolves to under [AIScoreResponseSchema]. *)
Record AIScoreResponse : Type := mkAIScoreResponse {
  candidates : list AICandidateResponse.t
}.

(** The two operations of the gateway, with what they are asked. *)
Inductive GatewayOp : Type :=
| GenerateObject (model : AIModel) (prompt : Prompt)
| GenerateText (model : AIModel) (prompt : Prompt).

(** The effects a task performs, in the order it performs them. *)
Inductive Event : Type :=
| Call (op : GatewayOp)
| SetTimeout (ms : Z).

(** The replies one batch task receives: the n-th gateway call of the task
    settles as the oracle says and takes [latency n] milliseconds. *)
Record Gateway : Type := mkGateway {
  generateObject_reply : nat -> completion AIScoreResponse;
  generateText_reply : nat -> completion string;
  latency : nat -> Z
}.

(** The process environment, the platform's JSON parser and, for every
    batch index, the gateway replies that batch's task receives. *)
Record Env : Type := mkEnv {
  LLM_PROVIDER : option string;
  LLM_MODEL : option string;
  JSON_parse : string -> completion Js.value;
  gateway : Z -> Gateway
}.

Record World : Type := mkWorld {
  now : Z;
  calls : nat;
  trace : list Event
}.

(** An asynchronous computation: from a world to a settlement and the world
    it leaves. *)
Definition M (A : Type) : Type := World -> completion A * World.

Definition ret {A : Type} (a : A) : M A := fun w => (Normal a, w).

Definition throw {A : Type} (reason : Js.thrown) : M A :=
  fun w => (Abrupt reason, w).

Definition bind {A B : Type} (m : M A) (k : A -> M B) : M B :=
  fun w =>
    match m w with
    | (Normal a, w') => k a w'
    | (Abrupt reason, w') => (Abrupt reason, w')
    end.

(** [try { m } catch (error) { handler error }]. *)
Definition tryCatch {A : Type} (m : M A) (handler : Js.thrown -> M A) : M A :=
  fun w =>
    match m w with
    | (Normal a, w') => (Normal a, w')
    | (Abrupt reason, w') => handler reason w'
    end.

(** A synchronous evaluation inside an asynchronous function. *)
Definition lift {A : Type} (c : completion A) : M A := fun w => (c, w).

Local Notation "x <- m ;; k" := (bind m (fun x => k))
  (at level 61, m at next level, right associativity).
Local Notation "m ;;; k" := (bind m (fun _ => k))
  (at level 61, right associativity).

Fixpoint mapM {A B : Type} (f : A -> M B) (l : list A) : M (list B) :=
  match l with
  | [] => ret []
  | x :: rest =>
      y <- f x ;;
      ys <- mapM f rest ;;
      ret (y :: ys)
  end.

Definition Date_now : M Z := fun w => (Normal (now w), w).

(** [await new Promise(resolve => setTimeout(resolve, ms))]. *)
Definition delay (ms : Z) : M unit :=
  fun w => (Normal tt, mkWorld (now w + ms) (calls w) (trace w ++ [SetTimeout ms])).

(** A call through the gateway: it is recorded, takes its latency, and
    settles as the oracle says for the call number of the task. *)
Definition gatewayCall {T : Type} (op : GatewayOp) (reply : nat -> completion T)
    (latency : nat -> Z) : M T :=
  fun w =>
    (reply (calls w),
     mkWorld (now w + latency (calls w)) (S (calls w)) (trace w ++ [Call op])).

Definition generateObject (gw : Gateway) (model : AIModel) (prompt : Prompt)
  : M AIScoreResponse :=
  gatewayCall (GenerateObject model prompt) (generateObject_reply gw)
              (latency gw).

Definition generateText (gw : Gateway) (model : AIModel) (prompt : Prompt)
  : M string :=
  gatewayCall (GenerateText model prompt) (generateText_reply gw)
              (latency gw).

(** *** Provider selection *)

Definition orDefault (v : option string) (dflt : string) : string :=
  match v with
  | Some s => if Js.str_truthy s then s else dflt
  | None => dflt
  end.

Definition getLLMProvider (env : Env) : LLMProvider.t :=
  let provider := orDefault (LLM_PROVIDER env) "openai" in
  let model := orDefault (LLM_MODEL env) "gpt-4.1-mini" in
  LLMProvider.mk provider model 4000 (3 # 10).

Definition getAIModel (provider : LLMProvider.t) : completion AIModel :=
  if String.eqb (LLMProvider.name provider) "openai" then
    Normal (openai (LLMProvider.model provider))
  else if String.eqb (LLMProvider.name provider) "anthropic" then
    Normal (anthropic (LLMProvider.model provider))
  else
    Abrupt (Js.Error ("Unsupported LLM provider: " +++ LLMProvider.name provider)).

(** *** Retry with backoff *)

Definition calculateDelay (attempt : nat) : Z :=
  let delay := baseDelay DEFAULT_CONFIG * 2 ^ Z.of_nat attempt in
  Z.min delay (maxDelay DEFAULT_CONFIG).

(** The type guard [isAPIError]: objects pass, narrowed to their fields. *)
Definition isAPIError (error : Js.thrown) : option Js.APIError :=
  match error with
  | Js.ThrownObject e => Some e
  | _ => None
  end.

Definition statusIs (e : Js.APIError) (n : Z) : bool :=
  match Js.status e with
  | Some s => s =? n
  | None => false
  end.

Definition optIs (v : option string) (s : string) : bool :=
  match v with
  | Some x => String.eqb x s
  | None => false
  end.

(** The body of the [catch] clause of [retryWithBackoff], after
    [lastError = error]: what is awaited before the next iteration. *)
Definition backoff (error : Js.thrown) (attempt maxRetries : nat) : M unit :=
  let pause :=
    if (attempt <? maxRetries)%nat then delay (calculateDelay attempt)
    else ret tt in
  match isAPIError error with
  | Some e =>
      if statusIs e 429 then
        if (attempt <? maxRetries)%nat
        then delay (calculateDelay attempt)   (* continue *)
        else pause
      else pause
  | None => pause
  end.

(** The [for] loop of [retryWithBackoff], entered with [remaining]
    iterations to go, at iteration [attempt]. *)
Fixpoint retryLoop {T : Type} (operation : M T) (maxRetries : nat)
    (remaining attempt : nat) (lastError : Js.thrown) : M T :=
  match remaining with
  | O => throw lastError
  | S remaining' =>
      tryCatch operation (fun error =>
        backoff error attempt maxRetries ;;;
        retryLoop operation maxRetries remaining' (S attempt) error)
  end.

Definition retryWithBackoff {T : Type} (operation : M T) (maxRetries : nat)
  : M T :=
  retryLoop operation maxRetries (S maxRetries) 0 Js.ThrownUndefined.

(** *** Error classification *)

(** [mapErrorToScoringError]; [now] is the value of [Date.now()], read only
    by the quota branch. *)
Definition mapErrorToScoringError (now : Z) (error : Js.thrown) : ScoringError :=
  match isAPIError error with
  | None =>
      UNKNOWN_ERROR
        (if Js.thrown_truthy error then Js.toString error
         else "Unknown error occurred")
  | Some e =>
      if statusIs e 429 then
        RATE_LIMIT
          (match Js.retryAfter e with
           | Some r => if r =? 0 then 60 else r
           | None => 60
           end)
          "API rate limit exceeded"
      else if statusIs e 402 || optIs (Js.code e) "insufficient_quota" then
        QUOTA_EXCEEDED (now + 24 * 60 * 60 * 1000) "API quota exceeded"
      else if optIs (Js.code e) "ECONNREFUSED"
              || optIs (Js.code e) "ENOTFOUND"
              || optIs (Js.code e) "TIMEOUT" then
        NETWORK_ERROR ("Network error: " +++ Js.interp (Js.message e)) (Js.code e)
      else if optIs (Js.name e) "ZodError"
              || match Js.issues e with Some _ => true | None => false end then
        VALIDATION_ERROR "response" "Invalid response format from AI model"
      else if optIs (Js.name e) "SyntaxError"
              && match Js.message e with
                 | Some m => Js.includes "JSON" m
                 | None => false
                 end then
        PARSE_ERROR
          (match Js.message e with Some m => m | None => EmptyString end)
          (match Js.rawResponse e with
           | Some raw => if Js.str_truthy raw then Some raw else None
           | None => None
           end)
      else
        UNKNOWN_ERROR
          (match Js.message e with
           | Some m => if Js.str_truthy m then m else "Unknown error occurred"
           | None => "Unknown error occurred"
           end)
  end.

(** *** Batching *)

Inductive BatchResult : Type :=
| BatchSuccess (data : list ScoredCandidate)
| BatchFailure (error : ScoringError) (batchIndex : Z).

Inductive ScoringStrategy : Type :=
| structured
| fallback.

(** [Math.ceil(n / d)] for integers [n] and [d <> 0]. *)
Definition ceilDiv (n d : Z) : Z := - ((- n) / d).

(** [Array.from({ length }, (_, i) => f i)]; a negative length counts as 0. *)
Definition Array_from {A : Type} (length : Z) (f : Z -> A) : list A :=
  map (fun i => f (Z.of_nat i)) (seq 0 (Z.to_nat length)).

(** [createBatches], for an integral [batchSize].  Division by zero gives
    an infinite length, which [Array.from] refuses with a RangeError (and
    NaN, taken as length 0, when there are no items). *)
Definition createBatches {T : Type} (items : list T) (batchSize : Z)
  : completion (list (list T)) :=
  let n := Z.of_nat (List.length items) in
  if batchSize =? 0 then
    if n =? 0 then Normal [] else Abrupt (Js.RangeError "Invalid array length")
  else
    Normal (Array_from (ceilDiv n batchSize) (fun i =>
      Js.slice items (i * batchSize) ((i + 1) * batchSize))).

(** [originalCandidates.find((c) => c.id === candidate.id)]. *)
Definition findById (id : string) (originalCandidates : list Candidate)
  : option Candidate :=
  List.find (fun c => String.eqb (Types.id c) id) originalCandidates.

Definition createScoredCandidate (candidate : AICandidateResponse.t)
    (originalCandidates : list Candidate) : M ScoredCandidate :=
  match findById (AICandidateResponse.id candidate) originalCandidates with
  | None =>
      throw (Js.Error
          ("Candidate with ID " +++ AICandidateResponse.id candidate
           +++ " not found"))
  | Some originalCandidate =>
      score <- lift (createCandidateScore (AICandidateResponse.score candidate)) ;;
      scoringTimestamp <- Date_now ;;
      ret (mkScoredCandidate
             originalCandidate
             score
             (AICandidateResponse.highlights candidate)
             (if Js.str_truthy (AICandidateResponse.reasoning candidate)
              then AICandidateResponse.reasoning candidate else "No reasoning provided")
             (AICandidateResponse.matchedSkills candidate)
             scoringTimestamp)
  end.

(** The static type of [validation.parsed] asserts that every item is an
    [AICandidateResponse.t]; at run time the item is the parsed object itself.
    This is the typed view of such an object.  [validatePromptResponse]
    accepts only texts whose items all have the view (lemma
    [validated_items_typed] below). *)
Definition asAICandidateResponse (item : Js.value) : option AICandidateResponse.t :=
  match item with
  | Js.Object props =>
      match Js.lookup "id" props, Js.lookup "score" props,
            Js.lookup "highlights" props, Js.lookup "reasoning" props,
            Js.lookup "matchedSkills" props with
      | Some (Js.Str id), Some (Js.Number score), Some (Js.Array highlights),
        Some (Js.Str reasoning), Some (Js.Array matchedSkills) =>
          Some (AICandidateResponse.mk id score highlights reasoning matchedSkills)
      | _, _, _, _, _ => None
      end
  | _ => None
  end.

(** [validation.parsed!.candidates]. *)
Definition parsedCandidates (validation : ValidationResult) : list Js.value :=
  match parsed validation with
  | Some (Js.Object props) =>
      match Js.lookup "candidates" props with
      | Some (Js.Array items) => items
      | _ => []
      end
  | _ => []
  end.

Definition scoreBatchWithStrategy (env : Env) (gw : Gateway)
    (jobDescription : JobDescription) (candidates : list Candidate)
    (strategy : ScoringStrategy) (weights : option PartialScoringWeights.t)
  : M ScoringResult :=
  let provider := getLLMProvider env in
  model <- lift (getAIModel provider) ;;
  tryCatch
    (match strategy with
     | structured =>
         let prompt := createScoringPrompt jobDescription candidates weights in
         object <- retryWithBackoff (generateObject gw model prompt)
                     (maxRetries DEFAULT_CONFIG) ;;
         scoredCandidates <-
           mapM (fun candidate => createScoredCandidate candidate candidates)
                (AiService.candidates object) ;;
         ret (Success scoredCandidates)
     | fallback =>
         let prompt := createConstrainedPrompt jobDescription candidates in
         text <- retryWithBackoff (generateText gw model prompt)
                   (maxRetries DEFAULT_CONFIG) ;;
         let validation := validatePromptResponse (JSON_parse env) text in
         if negb (isValid validation) then
           ret (Failure
                  (PARSE_ERROR
                     (orDefault (Prompts.error validation)
                                "Failed to parse AI response")
                     (Some text)))
         else
           scoredCandidates <-
             mapM (fun item =>
                     match asAICandidateResponse item with
                     | Some candidate => createScoredCandidate candidate candidates
                     | None => throw (Js.TypeError "response item is not an object")
                     end)
                  (parsedCandidates validation) ;;
           ret (Success scoredCandidates)
     end)
    (fun error =>
       now <- Date_now ;;
       ret (Failure (mapErrorToScoringError now error))).

Definition isParseFailure (result : ScoringResult) : bool :=
  match result with
  | Success _ => false
  | Failure error => ErrorType_eqb (type error) T_PARSE_ERROR
  end.

Definition processBatch (env : Env) (gw : Gateway) (batch : list Candidate)
    (batchIndex : Z) (jobDescription : JobDescription)
    (weights : option PartialScoringWeights.t) : M BatchResult :=
  result <- scoreBatchWithStrategy env gw jobDescription batch structured weights ;;
  result <-
    (if isParseFailure result then
       scoreBatchWithStrategy env gw jobDescription batch fallback weights
     else ret result) ;;
  match result with
  | Success data => ret (BatchSuccess data)
  | Failure error => ret (BatchFailure error batchIndex)
  end.

(** [array.map((x, index) => f x index)]. *)
Definition mapi {A B : Type} (f : A -> Z -> B) (l : list A) : list B :=
  map (fun p => f (snd p) (Z.of_nat (fst p)))
      (combine (seq 0 (List.length l)) l).

(** [Promise.allSettled]: every task of the wave starts at the same instant
    in a world of its own, none is cancelled, and the join completes when
    the slowest has settled.  The tasks share no state; their traces are
    recorded one after the other in index order. *)
Definition allSettled {A : Type} (tasks : list (M A)) : M (list (completion A)) :=
  fun w =>
    let runs := map (fun task => task (mkWorld (now w) 0 [])) tasks in
    (Normal (map fst runs),
     mkWorld (fold_right Z.max (now w) (map (fun r => now (snd r)) runs))
             (calls w)
             (trace w ++ List.concat (map (fun r => trace (snd r)) runs))).

Definition isSuccessful (result : BatchResult) : bool :=
  match result with
  | BatchSuccess _ => true
  | BatchFailure _ _ => false
  end.

(** The [for] loop of [processParallelBatches], at index [i] with the
    results collected so far; [fuel] bounds the number of waves. *)
Fixpoint waves (fuel : nat) (env : Env) (batches : list (list Candidate))
    (jobDescription : JobDescription) (weights : option PartialScoringWeights.t)
    (i : Z) (results : list BatchResult) : M (list BatchResult) :=
  match fuel with
  | O => ret results
  | S fuel' =>
      if i <? Z.of_nat (List.length batches) then
        let maxConcurrentBatches := maxConcurrentBatches DEFAULT_CONFIG in
        let batchGroup := Js.slice batches i (i + maxConcurrentBatches) in
        let batchPromises :=
          mapi (fun batch groupIndex =>
                  processBatch env (gateway env (i + groupIndex)) batch
                               (i + groupIndex) jobDescription weights)
               batchGroup in
        groupResults <- allSettled batchPromises ;;
        now <- Date_now ;;
        let processedResults :=
          mapi (fun result groupIndex =>
                  match result with
                  | Normal value => value
                  | Abrupt reason =>
                      BatchFailure (mapErrorToScoringError now reason)
                                   (i + groupIndex)
                  end)
               groupResults in
        let results := results ++ processedResults in
        (if i + maxConcurrentBatches <? Z.of_nat (List.length batches)
         then delay 1000 else ret tt) ;;;
        waves fuel' env batches jobDescription weights
              (i + maxConcurrentBatches) results
      else ret results
  end.

Definition scoredOf (results : list BatchResult) : list ScoredCandidate :=
  flat_map (fun result =>
              match result with
              | BatchSuccess data => data
              | BatchFailure _ _ => []
              end)
           (filter isSuccessful results).

Definition errorsOf (results : list BatchResult) : list ScoringError :=
  flat_map (fun result =>
              match result with
              | BatchSuccess _ => []
              | BatchFailure error _ => [error]
              end)
           (filter (fun result => negb (isSuccessful result)) results).

(** The results of all batches, in batch order. *)
Definition collectBatchResults (env : Env) (batches : list (list Candidate))
    (jobDescription : JobDescription) (weights : option PartialScoringWeights.t)
  : M (list BatchResult) :=
  waves (List.length batches) env batches jobDescription weights 0 [].

Definition processParallelBatches (env : Env) (batches : list (list Candidate))
    (jobDescription : JobDescription) (weights : option PartialScoringWeights.t)
  : M (list ScoredCandidate * list ScoringError) :=
  results <- collectBatchResults env batches jobDescription weights ;;
  ret (scoredOf results, errorsOf results).

(** *** Ranking and the entry point *)

(** The comparator [(a, b) => b.score - a.score]. *)
Definition byScoreDescending (a b : ScoredCandidate) : comparison :=
  Js.signOfDifference (score b) (score a).

Definition sortAndLimitCandidates (candidates : list ScoredCandidate)
    (maxResults : Z) : list ScoredCandidate :=
  Js.slice (Js.sort byScoreDescending candidates) 0 maxResults.

(** The [options] argument of [scoreCandidates]. *)
Module Options.
Record t : Type := mk {
  weights : option PartialScoringWeights.t;
  batchSize : option Z;
  maxResults : option Z
}.
End Options.

Definition noOptions : Options.t := Options.mk None None None.

Definition scoreCandidates (env : Env) (jobDescription : JobDescription)
    (candidates : list Candidate) (options : Options.t) : M ScoringResult :=
  let weights := Options.weights options in
  let batchSize :=
    match Options.batchSize options with
    | Some b => b
    | None => batchSize DEFAULT_CONFIG
    end in
  let maxResults :=
    match Options.maxResults options with
    | Some m => m
    | None => 30
    end in
  if (List.length candidates =? 0)%nat then ret (Success [])
  else
    tryCatch
      (batches <- lift (createBatches candidates batchSize) ;;
       r <- processParallelBatches env batches jobDescription weights ;;
       let scoredCandidates := fst r in
       let errors := snd r in
       if (List.length scoredCandidates =? 0)%nat then
         ret (Failure
                match errors with
                | error :: _ => error
                | [] => UNKNOWN_ERROR "No candidates could be scored"
                end)
       else
         let sortedCandidates := sortAndLimitCandidates scoredCandidates maxResults in
         ret (Success sortedCandidates))
      (fun error =>
         now <- Date_now ;;
         ret (Failure (mapErrorToScoringError now error))).

End AiService.

(* ================================================================== *)
(** ** src/lib/schemas.ts: the weight schemas *)
(* ================================================================== *)

Module Schemas.
Import Types.

(** The outcome of [schema.parse(input)]: the parsed data, or the path of
    the first issue of the ZodError (the wording of zod's messages is not
    modelled). *)
Inductive Parsed (A : Type) : Type :=
| Valid (data : A)
| Invalid (path : list string).
Arguments Valid {A} data.
Arguments Invalid {A} path.

(** [z.number().min(0).max(1)] on the value found under a key. *)
Definition fraction (path : list string) (v : option Js.value) : Parsed Js.number :=
  match v with
  | Some (Js.Number n) =>
      if Js.num_leb (Js.of_Z 0) n && Js.num_leb n (Js.of_Z 1)
      then Valid n else Invalid path
  | _ => Invalid path
  end.

(** [z.number().min(0).max(1).optional()]: a missing key is accepted. *)
Definition optionalFraction (path : list string) (v : option Js.value)
  : Parsed (option Js.number) :=
  match v with
  | None => Valid None
  | Some _ =>
      match fraction path v with
      | Valid n => Valid (Some n)
      | Invalid p => Invalid p
      end
  end.

Definition andThen {A B : Type} (p : Parsed A) (k : A -> Parsed B) : Parsed B :=
  match p with
  | Valid a => k a
  | Invalid path => Invalid path
  end.

Local Notation "x <- p ;; k" := (andThen p (fun x => k))
  (at level 61, p at next level, right associativity).





End Schemas.

(* ================================================================== *)
(** ** src/app/api/score/route.ts *)
(* ================================================================== *)

Module Route.
Import Types Schemas.

Record ScoreRequestBody : Type := mkScoreRequestBody {
  jobDescription : string;
  maxResults : Z;
  weights : option PartialScoringWeights.t
}.

(** [z.string().min(10).max(200)]; the length is counted in characters of
    the embedded string. *)
Definition jobDescriptionField (v : option Js.value) : Parsed string :=
  match v with
  | Some (Js.Str s) =>
      if (String.length s <? 10)%nat then Invalid ["jobDescription"]
      else if (200 <? String.length s)%nat then Invalid ["jobDescription"]
      else Valid s
  | _ => Invalid ["jobDescription"]
  end.

(** [Number.isInteger]: the integer a finite number is, if it is one. *)
Definition asInteger (n : Js.number) : option Z :=
  match n with
  | Js.Finite q =>
      let r := Qred q in
      if Pos.eqb (Qden r) 1 then Some (Qnum r) else None
  | _ => None
  end.

(** [z.number().int().min(1).max(100).optional().default(30)]. *)
Definition maxResultsField (v : option Js.value) : Parsed Z :=
  match v with
  | None => Valid 30
  | Some (Js.Number n) =>
      match asInteger n with
      | Some z => if (1 <=? z) && (z <=? 100) then Valid z else Invalid ["maxResults"]
      | None => Invalid ["maxResults"]
      end
  | Some _ => Invalid ["maxResults"]
  end.

Local Notation "x <- p ;; k" := (andThen p (fun x => k))
  (at level 61, p at next level, right associativity).

(** The [weights] member of the request schema: an optional object whose
    five fractions are each optional.  No refinement on their sum. *)
Definition weightsField (v : option Js.value)
  : Parsed (option PartialScoringWeights.t) :=
  match v with
  | None => Valid None
  | Some (Js.Object props) =>
      a <- optionalFraction ["weights"; "skillsMatch"]
             (Js.lookup "skillsMatch" props) ;;
      b <- optionalFraction ["weights"; "experienceLevel"]
             (Js.lookup "experienceLevel" props) ;;
      c <- optionalFraction ["weights"; "education"]
             (Js.lookup "education" props) ;;
      d <- optionalFraction ["weights"; "portfolio"]
             (Js.lookup "portfolio" props) ;;
      e <- optionalFraction ["weights"; "availability"]
             (Js.lookup "availability" props) ;;
      Valid (Some (PartialScoringWeights.mk a b c d e))
  | Some _ => Invalid ["weights"]
  end.

Definition ScoreRequestBodySchema (body : Js.value) : Parsed ScoreRequestBody :=
  match body with
  | Js.Object props =>
      jobDescription <- jobDescriptionField (Js.lookup "jobDescription" props) ;;
      maxResults <- maxResultsField (Js.lookup "maxResults" props) ;;
      weights <- weightsField (Js.lookup "weights" props) ;;
      Valid (mkScoreRequestBody jobDescription maxResults weights)
  | _ => Invalid []
  end.

Inductive ValidationResult : Type :=
| RequestValid (data : ScoreRequestBody)
| RequestInvalid (error : string).

(** [path.join(".")]. *)
Fixpoint joinPath (path : list string) : string :=
  match path with
  | [] => EmptyString
  | [p] => p
  | p :: rest => p +++ "." +++ joinPath rest
  end.

(** [validateRequestBody]; of the error text only the path part
    ([path.join(".") || "field"]) is modelled. *)
Definition validateRequestBody (body : Js.value) : ValidationResult :=
  match ScoreRequestBodySchema body with
  | Valid data => RequestValid data
  | Invalid path =>
      RequestInvalid
        (if Js.str_truthy (joinPath path) then joinPath path else "field")
  end.

Inductive Response : Type :=
| ErrorResponse (error : ScoringError) (status : Z)
| ScoreResponse (candidates : list ScoredCandidate) (totalProcessed : Z)
    (processingTime : Z) (modelUsed : string).

Definition statusMap (t : ErrorType) : Z :=
  match t with
  | T_VALIDATION_ERROR => 400
  | T_RATE_LIMIT => 429
  | T_PARSE_ERROR => 502
  | T_NETWORK_ERROR => 503
  | T_QUOTA_EXCEEDED => 402
  | T_UNKNOWN_ERROR => 500
  end.

(** [createErrorResponse] called with a message and a status. *)
Definition createErrorResponseOfString (error : string) (status : Z) : Response :=
  ErrorResponse (UNKNOWN_ERROR error) status.

(** [createErrorResponse] called with a [ScoringError]. *)
Definition createErrorResponse (error : ScoringError) : Response :=
  ErrorResponse error (statusMap (type error)).

(** The [??] defaults applied to a supplied weight object. *)
Definition fullWeights (weights : PartialScoringWeights.t) : ScoringWeights.t :=
  let dflt (v : option Js.number) (d : Q) :=
    match v with Some n => n | None => Js.Finite d end in
  ScoringWeights.mk
    (dflt (PartialScoringWeights.skillsMatch weights) (4 # 10))
    (dflt (PartialScoringWeights.experienceLevel weights) (25 # 100))
    (dflt (PartialScoringWeights.education weights) (15 # 100))
    (dflt (PartialScoringWeights.portfolio weights) (1 # 10))
    (dflt (PartialScoringWeights.availability weights) (1 # 10)).

Definition scoringOptions (data : ScoreRequestBody) : AiService.Options.t :=
  AiService.Options.mk
    (match weights data with
     | Some weights => Some (PartialScoringWeights.ofComplete (fullWeights weights))
     | None => None
     end)
    None
    (Some (maxResults data)).

Local Notation "x <-- m ;; k" := (AiService.bind m (fun x => k))
  (at level 61, m at next level, right associativity).

(** [POST].  [request_json] is the outcome of [request.json()] and
    [getCandidates] that of loading the candidate store. *)
Definition POST (env : AiService.Env) (request_json : completion Js.value)
    (getCandidates : completion (list Candidate)) : AiService.M Response :=
  startTime <-- AiService.Date_now ;;
  AiService.tryCatch
    (match request_json with
     | Abrupt _ =>
         AiService.ret (createErrorResponseOfString "Invalid JSON in request body" 400)
     | Normal body =>
         match validateRequestBody body with
         | RequestInvalid error =>
             AiService.ret (createErrorResponse (VALIDATION_ERROR "body" error))
         | RequestValid data =>
             let typedJobDescription := createJobDescription (jobDescription data) in
             match getCandidates with
             | Abrupt _ =>
                 AiService.ret
                   (createErrorResponseOfString "Failed to load candidate database" 500)
             | Normal candidates =>
                 if (List.length candidates =? 0)%nat then
                   finish <-- AiService.Date_now ;;
                   AiService.ret
                     (ScoreResponse [] 0 (finish - startTime)
                        (AiService.orDefault (AiService.LLM_MODEL env) "unknown"))
                 else
                   result <-- AiService.scoreCandidates env typedJobDescription
                               candidates (scoringOptions data) ;;
                   match result with
                   | Failure error => AiService.ret (createErrorResponse error)
                   | Success data =>
                       finish <-- AiService.Date_now ;;
                       AiService.ret
                         (ScoreResponse data (Z.of_nat (List.length candidates))
                            (finish - startTime)
                            (AiService.orDefault (AiService.LLM_MODEL env) "unknown"))
                   end
             end
         end
     end)
    (fun _ => AiService.ret (createErrorResponseOfString "Internal server error" 500)).

End Route.

(* ================================================================== *)
(** ** src/lib/data-processor.ts *)
(* ================================================================== *)

Module DataProcessor.
Import Types.

(** The module state: [candidatesCache] and [lastLoadTime]. *)
Record Store : Type := mkStore {
  candidatesCache : option (list Candidate);
  lastLoadTime : Z
}.

Definition initialStore : Store := mkStore None 0.

Definition CACHE_DURATION : Z := 5 * 60 * 1000.

(** The function [getCandidates] wraps: [now] is the value of [Date.now()]
    and [loadCandidatesFromFile] the outcome a call of the loader would
    have at that instant.  An array, even an empty one, is truthy. *)
Definition getCandidates (loadCandidatesFromFile : completion (list Candidate))
    (now : Z) (store : Store) : completion (list Candidate) * Store :=
  let reload :=
    match loadCandidatesFromFile with
    | Normal loaded => (Normal loaded, mkStore (Some loaded) now)
    | Abrupt reason => (Abrupt reason, store)
    end in
  match candidatesCache store with
  | Some cached =>
      if now - lastLoadTime store <? CACHE_DURATION then (Normal cached, store)
      else reload
  | None => reload
  end.

Definition invalidateCandidatesCache (store : Store) : Store := mkStore None 0.

(** The loop of [getCandidateBatches] over the loaded candidates, at index
    [i] with the batches pushed so far; [None] when [fuel] iterations did
    not reach the end of the loop. *)
Fixpoint batchLoop (fuel : nat) (candidates : list Candidate) (batchSize : Z)
    (i : Z) (batches : list (list Candidate)) : option (list (list Candidate)) :=
  match fuel with
  | O => None
  | S fuel' =>
      if i <? Z.of_nat (List.length candidates) then
        batchLoop fuel' candidates batchSize (i + batchSize)
                  (batches ++ [Js.slice candidates i (i + batchSize)])
      else Some batches
  end.

(** [getCandidateBatches], for an integral [batchSize]. *)
Definition getCandidateBatches (fuel : nat) (candidates : list Candidate)
    (batchSize : Z) : option (list (list Candidate)) :=
  batchLoop fuel candidates batchSize 0 [].

(** [str.split(sep)] for a one-character separator. *)
Fixpoint split (sep : ascii) (s : string) : list string :=
  match s with
  | EmptyString => [EmptyString]
  | String c rest =>
      if Ascii.eqb c sep then EmptyString :: split sep rest
      else match split sep rest with
           | head :: tail => String c head :: tail
           | [] => [String c EmptyString]
           end
  end.

(** [parts.join(sep)]. *)
Fixpoint join (sep : string) (parts : list string) : string :=
  match parts with
  | [] => EmptyString
  | [p] => p
  | p :: rest => p +++ sep +++ join sep rest
  end.

(** The [skills] member of the raw data: [string | string[]]. *)
Inductive SkillsField : Type :=
| SkillsString (s : string)
| SkillsArray (items : list string).

(** The members of [RawCandidateData] that [createBioFromData] reads. *)
Record RawCandidateData : Type := mkRawCandidateData {
  headline : option string;
  summary : option string;
  jobTitle : option string;
  skills : option SkillsField
}.

Definition truthyString (v : option string) : option string :=
  match v with
  | Some s => if Js.str_truthy s then Some s else None
  | None => None
  end.

(** [createBioFromData]; the length of the bio is counted in characters of
    the embedded string. *)
Definition createBioFromData (candidateData : RawCandidateData) : string :=
  let parts := [] in
  let parts :=
    match truthyString (headline candidateData) with
    | Some headline => parts ++ [headline]
    | None => parts
    end in
  let parts :=
    match truthyString (summary candidateData) with
    | Some summary => parts ++ [summary]
    | None => parts
    end in
  let parts :=
    match truthyString (jobTitle candidateData) with
    | Some jobTitle => parts ++ ["Currently working as " +++ jobTitle]
    | None => parts
    end in
  let parts :=
    match skills candidateData with
    | Some (SkillsString s) =>
        if Js.str_truthy s then
          let skills := join ", " (Js.slice (split "|" s) 0 5) in
          if Js.str_truthy skills then parts ++ ["Skills include: " +++ skills]
          else parts
        else parts
    | Some (SkillsArray _) => parts
    | None => parts
    end in
  let bio := join ". " parts in
  if (20 <=? String.length bio)%nat then bio
  else
    "Professional with experience in "
    +++ match truthyString (jobTitle candidateData) with
        | Some jobTitle => jobTitle
        | None => "software development"
        end
    +++ ". Skilled in various technologies and committed to delivering quality work.".

(** A [Map<string, number>] (and an object used as one), in insertion
    order. *)
Definition Counts : Type := list (string * Z).

Fixpoint getCount (key : string) (m : Counts) : option Z :=
  match m with
  | [] => None
  | (k, n) :: rest => if String.eqb k key then Some n else getCount key rest
  end.

(** [m.set(key, value)]: an existing key keeps its place. *)
Fixpoint setCount (key : string) (value : Z) (m : Counts) : Counts :=
  match m with
  | [] => [(key, value)]
  | (k, n) :: rest =>
      if String.eqb k key then (k, value) :: rest
      else (k, n) :: setCount key value rest
  end.

(** [m.set(key, (m.get(key) || 0) + 1)]. *)
Definition increment (key : string) (m : Counts) : Counts :=
  setCount key
    ((match getCount key m with
      | Some n => if n =? 0 then 0 else n
      | None => 0
      end) + 1)
    m.

(** [set.add(item)] on a [Set<string>], in insertion order. *)
Definition addToSet (item : string) (set : list string) : list string :=
  if existsb (String.eqb item) set then set else set ++ [item].

Definition availabilityName (a : Availability) : string :=
  match a with
  | Immediate => "immediate"
  | TwoWeeks => "2-weeks"
  | OneMonth => "1-month"
  | NotAvailable => "not-available"
  end.

(** The quotient of two integers as a number; [0 / 0] is [NaN], a non-zero
    integer over zero an infinity. *)
Inductive Quotient : Type :=
| NaN
| Num (n : Js.number).

Definition divide (a b : Z) : Quotient :=
  if b =? 0 then
    if a =? 0 then NaN
    else if 0 <? a then Num Js.PosInfinity else Num Js.NegInfinity
  else Num (Js.Finite (inject_Z a / inject_Z b)%Q).

Record Stats : Type := mkStats {
  totalCandidates : Z;
  uniqueSkills : Z;
  topSkills : list string;
  locations : Counts;
  averageExperience : Quotient;
  availabilityDistribution : Counts
}.

(** The state of the [forEach] of [getCandidateStats]: [skills],
    [locations] and [totalExperience]. *)
Definition visit (state : list string * Counts * Z) (candidate : Candidate)
  : list string * Counts * Z :=
  let '(skills, locations, totalExperience) := state in
  let skills :=
    match Types.skills candidate with
    | Some items => fold_left (fun set skill => addToSet skill set) items skills
    | None => skills
    end in
  (skills, increment (location candidate) locations,
   totalExperience + experience candidate).

(** [getCandidateStats] on the loaded candidates. *)
Definition getCandidateStats (candidates : list Candidate) : Stats :=
  let '(skills, locations, totalExperience) :=
    fold_left visit candidates ([], [], 0) in
  mkStats
    (Z.of_nat (List.length candidates))
    (Z.of_nat (List.length skills))
    (Js.slice skills 0 20)
    locations
    (divide totalExperience (Z.of_nat (List.length candidates)))
    (fold_left
       (fun acc candidate =>
          let availability :=
            match Types.availability candidate with
            | Some a => availabilityName a
            | None => "not-available"
            end in
          increment availability acc)
       candidates []).


(** The text functions below use [normalizeText] only as a function from
    strings to strings; its regular expressions are not modelled. *)
Section Text.
Variable normalizeText : string -> string.

(** The key under which [deduplicateCandidates] remembers a candidate. *)
Definition keyOf (candidate : Candidate) : string :=
  normalizeText (email candidate) +++ "_" +++ normalizeText (name candidate).

(** The loop of [deduplicateCandidates]: [seen] holds the keys added so
    far, [deduplicated] the candidates pushed so far. *)
Fixpoint deduplicateLoop (candidates : list Candidate) (seen : list string)
    (deduplicated : list Candidate) : list Candidate :=
  match candidates with
  | [] => deduplicated
  | candidate :: rest =>
      let key := keyOf candidate in
      if negb (existsb (String.eqb key) seen) then
        deduplicateLoop rest (seen ++ [key]) (deduplicated ++ [candidate])
      else deduplicateLoop rest seen deduplicated
  end.

Definition deduplicateCandidates (candidates : list Candidate) : list Candidate :=
  deduplicateLoop candidates [] [].

(** [preprocessCandidates]: the spread copies every member, then [bio],
    [skills], [location], [workHistory] and [education] are replaced. *)
Definition preprocessCandidates (candidates : list Candidate) : list Candidate :=
  map (fun candidate =>
         mkCandidate
           (id candidate) (name candidate) (email candidate)
           (experience candidate)
           (normalizeText (location candidate))
           (normalizeText (bio candidate))
           (Some match Types.skills candidate with
                 | Some items => map (fun skill => normalizeText skill) items
                 | None => []
                 end)
           (Some match education candidate with
                 | Some items => items
                 | None => []
                 end)
           (Some match workHistory candidate with
                 | Some items => items
                 | None => []
                 end)
           (questions candidate) (availability candidate))
      candidates.

End Text.

End DataProcessor.

(* ================================================================== *)
(** * Observations on runs, and sample data *)
(* ================================================================== *)

Import Types Prompts AiService.

(** The effects of [n] consecutive attempts starting at iteration
    [attempt]: the calls, separated by the pauses of the iterations that
    failed. *)
Fixpoint retrySchedule (op : GatewayOp) (attempt n : nat) : list Event :=
  match n with
  | O => []
  | S n' =>
      Call op :: match n' with
                 | O => []
                 | S _ => SetTimeout (calculateDelay attempt)
                            :: retrySchedule op (S attempt) n'
                 end
  end.

(** The pause that immediately precedes the [k]-th call of a trace, if
    there is one; [pending] is the pause seen since the previous call. *)
Fixpoint delayBeforeFrom (pending : option Z) (k : nat) (t : list Event)
  : option Z :=
  match t with
  | [] => None
  | SetTimeout ms :: rest => delayBeforeFrom (Some ms) k rest
  | Call _ :: rest =>
      match k with
      | O => pending
      | S k' => delayBeforeFrom None k' rest
      end
  end.

Definition delayBefore (k : nat) (t : list Event) : option Z :=
  delayBeforeFrom None k t.

(** The mapping of a response item to a scored candidate reads the clock
    and nothing else: this is its outcome at a given instant. *)
Definition scoredAt (now : Z) (originalCandidates : list Candidate)
    (candidate : AICandidateResponse.t) : completion ScoredCandidate :=
  match findById (AICandidateResponse.id candidate) originalCandidates with
  | None =>
      Abrupt (Js.Error
          ("Candidate with ID " +++ AICandidateResponse.id candidate
           +++ " not found"))
  | Some originalCandidate =>
      Js.bind (createCandidateScore (AICandidateResponse.score candidate)) (fun score =>
        Normal (mkScoredCandidate
                  originalCandidate
                  score
                  (AICandidateResponse.highlights candidate)
                  (if Js.str_truthy (AICandidateResponse.reasoning candidate)
                   then AICandidateResponse.reasoning candidate
                   else "No reasoning provided")
                  (AICandidateResponse.matchedSkills candidate)
                  now))
  end.

(** [array.map(f)] for an [f] that may throw: the first throw ends it. *)
Fixpoint mapC {A B : Type} (f : A -> completion B) (l : list A)
  : completion (list B) :=
  match l with
  | [] => Normal []
  | x :: rest =>
      Js.bind (f x) (fun y => Js.bind (mapC f rest) (fun ys => Normal (y :: ys)))
  end.

Definition isTextCall (ev : Event) : bool :=
  match ev with
  | Call (GenerateText _ _) => true
  | _ => false
  end.

Definition isCall (ev : Event) : bool :=
  match ev with
  | Call _ => true
  | SetTimeout _ => false
  end.

(** The constrained-text strategy shows in a trace as a [generateText] call. *)
Definition fallbackAttempted (t : list Event) : bool := existsb isTextCall t.

(** The number of gateway calls in a trace. *)
Definition llmCalls (t : list Event) : nat := List.length (filter isCall t).

(** A candidate with the given id. *)
Definition sampleCandidate (id : string) : Candidate :=
  mkCandidate id "Ada" "ada@example.org" 5 "Lima"
    "Builds compilers and proof assistants." None None None None None.

(** A gateway whose first call fails and whose later calls succeed. *)
Definition failsOnce : nat -> completion string :=
  fun n => match n with
           | O => Abrupt (Js.Error "overloaded")
           | S _ => Normal "ok"
           end.

Definition somePrompt : Prompt := createConstrainedPrompt "Senior engineer" [].

(** A response that scores a candidate nobody asked about, a gateway that
    always resolves to it, and an environment with the default provider. *)
Definition strangerItem : AICandidateResponse.t :=
  AICandidateResponse.mk "zz" (Js.of_Z 70) [Js.Str "strong portfolio"]
    "Matches the stack of the role." [Js.Str "Rocq"].

Definition strangerGateway : Gateway :=
  mkGateway (fun _ => Normal (mkAIScoreResponse [strangerItem]))
            (fun _ => Normal "{}")
            (fun _ => 300).

Definition noJSON (text : string) : completion Js.value :=
  Abrupt (Js.mkError "SyntaxError" "Unexpected end of JSON input").

Definition strangerEnv : Env := mkEnv None None noJSON (fun _ => strangerGateway).

Definition twoCandidates : list Candidate := map sampleCandidate ["a"; "b"].

Definition start : World := mkWorld 0 0 [].

(** A gateway that scores the two sample candidates, and its environment. *)
Definition scoresItem (id : string) (score : Z) : AICandidateResponse.t :=
  AICandidateResponse.mk id (Js.of_Z score) [Js.Str "relevant experience"]
    "Solid match for the role." [Js.Str "TypeScript"].

Definition scoringGateway : Gateway :=
  mkGateway (fun _ => Normal (mkAIScoreResponse [scoresItem "a" 80; scoresItem "b" 90]))
            (fun _ => Normal "{}")
            (fun _ => 300).

Definition scoringEnv : Env := mkEnv None None noJSON (fun _ => scoringGateway).

(** *** The shape of a response *)

Definition inRange (v : option Js.value) : bool :=
  match v with
  | Some (Js.Number n) => Js.num_leb (Js.of_Z 0) n && Js.num_leb n (Js.of_Z 100)
  | _ => false
  end.

Definition nonEmptyString (v : option Js.value) : bool :=
  match v with
  | Some (Js.Str s) => Js.str_truthy s
  | _ => false
  end.

(** The shape the validator of prompts.ts accepts for an item: an object
    with a non-empty string [id], a number [score] in 0..100, an array
    [highlights], a non-empty string [reasoning] and an array
    [matchedSkills]. *)
Definition wellShapedItem (item : Js.value) : bool :=
  match item with
  | Js.Object props =>
      nonEmptyString (Js.lookup "id" props)
      && inRange (Js.lookup "score" props)
      && Js.isArray (Js.lookup "highlights" props)
      && nonEmptyString (Js.lookup "reasoning" props)
      && Js.isArray (Js.lookup "matchedSkills" props)
  | _ => false
  end.

Definition wellShaped (parsed : Js.value) : bool :=
  match parsed with
  | Js.Object props =>
      match Js.lookup "candidates" props with
      | Some (Js.Array items) => forallb wellShapedItem items
      | _ => false
      end
  | _ => false
  end.

(** The shape as the specification words it: an item must have a string
    [id], a number [score] in 0..100, an array [highlights], a string
    [reasoning] and an array [matchedSkills]. *)
Definition specShapedItem (item : Js.value) : bool :=
  match item with
  | Js.Object props =>
      Js.isString (Js.lookup "id" props)
      && inRange (Js.lookup "score" props)
      && Js.isArray (Js.lookup "highlights" props)
      && Js.isString (Js.lookup "reasoning" props)
      && Js.isArray (Js.lookup "matchedSkills" props)
  | _ => false
  end.

Definition specShaped (parsed : Js.value) : bool :=
  match parsed with
  | Js.Object props =>
      match Js.lookup "candidates" props with
      | Some (Js.Array items) => forallb specShapedItem items
      | _ => false
      end
  | _ => false
  end.

(** A response whose only item has everything the specification lists,
    with an empty [id]; and a parser that reads it from the text "r". *)
Definition anonymousResponse : Js.value :=
  Js.Object
    [("candidates",
      Js.Array
        [Js.Object
           [("id", Js.Str EmptyString);
            ("score", Js.Number (Js.of_Z 50));
            ("highlights", Js.Array []);
            ("reasoning", Js.Str "Adequate.");
            ("matchedSkills", Js.Array [])]])].

Definition readsAnonymous (text : string) : completion Js.value :=
  if String.eqb text "r" then Normal anonymousResponse
  else Abrupt (Js.mkError "SyntaxError" "Unexpected end of JSON input").

(** *** Requests *)

(** A number lies in the unit interval. *)
Definition inUnit (n : Js.number) : bool :=
  Js.num_leb (Js.of_Z 0) n && Js.num_leb n (Js.of_Z 1).

(** A weight object [{ skillsMatch: a, ..., availability: e }]. *)
Definition weightsObject (a b c d e : Js.number) : Js.value :=
  Js.Object
    [("skillsMatch", Js.Number a); ("experienceLevel", Js.Number b);
     ("education", Js.Number c); ("portfolio", Js.Number d);
     ("availability", Js.Number e)].


Definition lightWeightsObject : Js.value :=
  weightsObject (Js.Finite (4 # 10)) (Js.Finite (1 # 10))
    (Js.Finite (1 # 10)) (Js.Finite (1 # 10)) (Js.Finite (1 # 10)).

(** A request for a TypeScript engineer with those weights. *)
Definition lightRequest : Js.value :=
  Js.Object
    [("jobDescription", Js.Str "Senior TypeScript engineer, remote");
     ("weights", lightWeightsObject)].

(** *** A gateway whose structured output cannot be parsed *)

Definition itemValue (id : string) (score : Z) : Js.value :=
  Js.Object
    [("id", Js.Str id); ("score", Js.Number (Js.of_Z score));
     ("highlights", Js.Array [Js.Str "relevant experience"]);
     ("reasoning", Js.Str "Solid match for the role.");
     ("matchedSkills", Js.Array [Js.Str "TypeScript"])].

Definition unparsable : Js.thrown :=
  Js.mkError "SyntaxError" "Unexpected token < in JSON at position 0".

Definition garbledGateway : Gateway :=
  mkGateway (fun _ => Abrupt unparsable)
            (fun _ => Normal "scores")
            (fun _ => 300).

Definition readsScores (text : string) : completion Js.value :=
  if String.eqb text "scores" then
    Normal (Js.Object [("candidates", Js.Array [itemValue "a" 80; itemValue "b" 90])])
  else Abrupt unparsable.

Definition garbledEnv : Env := mkEnv None None readsScores (fun _ => garbledGateway).

(** *** Three batches, the middle one unreachable *)

Definition fiveCandidates : list Candidate :=
  map sampleCandidate ["a"; "b"; "c"; "d"; "e"].

Definition refused : Js.thrown :=
  Js.ThrownObject
    (Js.mkAPIError None None (Some "connect ECONNREFUSED") (Some "ECONNREFUSED")
                   (Some "Error") None None).

(** Batch 0 scores a: 70 and b: 90, batch 1 never connects, batch 2
    scores e: 90. *)
Definition patchyGateway (batchIndex : Z) : Gateway :=
  if batchIndex =? 0 then
    mkGateway
      (fun _ => Normal (mkAIScoreResponse [scoresItem "a" 70; scoresItem "b" 90]))
      (fun _ => Normal "{}") (fun _ => 300)
  else if batchIndex =? 1 then
    mkGateway (fun _ => Abrupt refused) (fun _ => Abrupt refused) (fun _ => 20)
  else
    mkGateway (fun _ => Normal (mkAIScoreResponse [scoresItem "e" 90]))
              (fun _ => Normal "{}") (fun _ => 450).

Definition patchyEnv : Env := mkEnv None None noJSON patchyGateway.

Definition batchesOfTwo : Options.t := Options.mk None (Some 2) None.

(** *** Outcomes of strategies, batches and runs *)

(** What a strategy replies once its gateway call has settled as [r] at
    instant [t]: a result, never an exception. *)
Definition structuredOutcome (t : Z) (batch : list Candidate)
    (r : completion AIScoreResponse) : ScoringResult :=
  match r with
  | Normal object =>
      match mapC (scoredAt t batch) (candidates object) with
      | Normal data => Success data
      | Abrupt e => Failure (mapErrorToScoringError t e)
      end
  | Abrupt e => Failure (mapErrorToScoringError t e)
  end.

Definition scoredItemAt (t : Z) (batch : list Candidate) (item : Js.value)
  : completion ScoredCandidate :=
  match asAICandidateResponse item with
  | Some candidate => scoredAt t batch candidate
  | None => Abrupt (Js.TypeError "response item is not an object")
  end.

Definition fallbackOutcome (parse : string -> completion Js.value) (t : Z)
    (batch : list Candidate) (r : completion string) : ScoringResult :=
  match r with
  | Normal text =>
      let validation := validatePromptResponse parse text in
      if negb (isValid validation) then
        Failure (PARSE_ERROR
                   (orDefault (Prompts.error validation)
                              "Failed to parse AI response")
                   (Some text))
      else
        match mapC (scoredItemAt t batch) (parsedCandidates validation) with
        | Normal data => Success data
        | Abrupt e => Failure (mapErrorToScoringError t e)
        end
  | Abrupt e => Failure (mapErrorToScoringError t e)
  end.

Definition toBatchResult (result : ScoringResult) (batchIndex : Z) : BatchResult :=
  match result with
  | Success data => BatchSuccess data
  | Failure error => BatchFailure error batchIndex
  end.

(** A scored candidate is the original with that id, carrying the item's
    own score, highlights, reasoning and matched skills. *)
Definition mappedFrom (batch : list Candidate) (item : AICandidateResponse.t)
    (sc : ScoredCandidate) : Prop :=
  In (candidate sc) batch
  /\ id (candidate sc) = AICandidateResponse.id item
  /\ score sc = AICandidateResponse.score item
  /\ highlights sc = AICandidateResponse.highlights item
  /\ reasoning sc = (if Js.str_truthy (AICandidateResponse.reasoning item)
                     then AICandidateResponse.reasoning item
                     else "No reasoning provided")
  /\ matchedSkills sc = AICandidateResponse.matchedSkills item.


(** How a settled task enters the results: its value, or the failure made
    of the reason it was rejected with. *)
Definition settled (t : Z) (batchIndex : Z) (c : completion BatchResult)
  : BatchResult :=
  match c with
  | Normal value => value
  | Abrupt reason => BatchFailure (mapErrorToScoringError t reason) batchIndex
  end.

(** [r] is the outcome of the task of batch [k]: [processBatch] on that
    batch, with that index and the gateway replies of that batch, started
    in a fresh task world at some instant. *)
Definition outcomeOf (env : Env) (job : JobDescription)
    (weights : option PartialScoringWeights.t) (k : nat)
    (batch : list Candidate) (r : BatchResult) : Prop :=
  exists t0 t1 : Z,
    r = settled t1 (Z.of_nat k)
          (fst (processBatch env (gateway env (Z.of_nat k)) batch (Z.of_nat k)
                             job weights (mkWorld t0 0 []))).

Definition batchSizeOf (options : Options.t) : Z :=
  match Options.batchSize options with
  | Some b => b
  | None => batchSize DEFAULT_CONFIG
  end.

Definition maxResultsOf (options : Options.t) : Z :=
  match Options.maxResults options with
  | Some m => m
  | None => 30
  end.

(** *** Clocks and budgets *)

(** The pauses awaited between [n] consecutive attempts starting at
    iteration [attempt], and the latencies of [n] consecutive calls. *)
Fixpoint pauses (attempt n : nat) : Z :=
  match n with
  | O => 0
  | S n' =>
      match n' with
      | O => 0
      | S _ => calculateDelay attempt + pauses (S attempt) n'
      end
  end.

Fixpoint latencies (lat : nat -> Z) (call n : nat) : Z :=
  match n with
  | O => 0
  | S n' => lat call + latencies lat (S call) n'
  end.

(** The provider named by the environment is one [getAIModel] knows. *)
Definition providerSupported (env : Env) : bool :=
  match getAIModel (getLLMProvider env) with
  | Normal _ => true
  | Abrupt _ => false
  end.

(** What every scored candidate of a successful result satisfies: it
    extends a candidate of the pool, with a score within 0..100 and a
    non-empty reasoning. *)
Definition wellScored (pool : list Candidate) (sc : ScoredCandidate) : Prop :=
  In (candidate sc) pool
  /\ Js.num_leb (Js.of_Z 0) (score sc) = true
  /\ Js.num_leb (score sc) (Js.of_Z 100) = true
  /\ Js.str_truthy (reasoning sc) = true.

(** A scored candidate made by hand. *)
Definition scoredSample (ident : string) (points : Z) : ScoredCandidate :=
  mkScoredCandidate (sampleCandidate ident) (Js.of_Z points) []
    "Solid match for the role." [] 0.

(** An optional fraction lies in the unit interval when it is there. *)
Definition optInUnit (v : option Js.number) : bool :=
  match v with
  | Some n => inUnit n
  | None => true
  end.

Definition fractionsInUnit (weights : PartialScoringWeights.t) : bool :=
  optInUnit (PartialScoringWeights.skillsMatch weights)
  && optInUnit (PartialScoringWeights.experienceLevel weights)
  && optInUnit (PartialScoringWeights.education weights)
  && optInUnit (PartialScoringWeights.portfolio weights)
  && optInUnit (PartialScoringWeights.availability weights).

(** An item of a response names a candidate of the batch. *)
Definition namesCandidateOf (batch : list Candidate) (raw : Js.value) : Prop :=
  exists item c,
    asAICandidateResponse raw = Some item
    /\ In c batch /\ id c = AICandidateResponse.id item.

(** *** Tallies of [getCandidateStats] *)

(** The count a tally holds for a key, 0 when the key is absent. *)
Definition countOf (m : DataProcessor.Counts) (key : string) : Z :=
  match DataProcessor.getCount key m with
  | Some n => n
  | None => 0
  end.

Definition totalOf (m : DataProcessor.Counts) : Z :=
  fold_right (fun entry sum => snd entry + sum) 0 m.

(** The number of candidates a key function sends to [key]. *)
Definition occurrences (keyOf : Candidate -> string) (key : string)
    (candidates : list Candidate) : Z :=
  Z.of_nat (List.length (filter (fun c => String.eqb (keyOf c) key) candidates)).

Definition availabilityKey (candidate : Candidate) : string :=
  match availability candidate with
  | Some a => DataProcessor.availabilityName a
  | None => "not-available"
  end.

(** An environment that names a provider the service does not know. *)
Definition localEnv : Env :=
  mkEnv (Some "local") None noJSON (fun _ => scoringGateway).

(* ================================================================== *)
(** * Properties *)
(* ================================================================== *)

(** ** Lists and slices *)

Lemma firstn_plus_skipn {A : Type} (a b : nat) (l : list A) :
  firstn (a + b) l = firstn a l ++ firstn b (skipn a l).
Proof.
  revert l; induction a as [|a IH]; intros l; simpl.
  - reflexivity.
  - destruct l as [|x l]; simpl.
    + now rewrite firstn_nil.
    + now rewrite IH.
Qed.

Lemma firstn_beyond {A : Type} (n : nat) (l : list A) :
  (List.length l <= n)%nat -> firstn n l = l.
Proof. intros H. now apply firstn_all2. Qed.

(** A slice between two non-negative indices in order is the part of the
    list from the first to the second. *)
Lemma slice_nonneg {A : Type} (l : list A) (s e : Z) :
  0 <= s <= e ->
  Js.slice l s e = firstn (Z.to_nat e - Z.to_nat s) (skipn (Z.to_nat s) l).
Proof.
  intros [Hs He]. unfold Js.slice, Js.relativeIndex.
  assert (Hs' : (s <? 0) = false) by (apply Z.ltb_ge; lia).
  assert (He' : (e <? 0) = false) by (apply Z.ltb_ge; lia).
  rewrite Hs', He'.
  set (len := List.length l).
  destruct (Z_lt_le_dec s (Z.of_nat len)) as [Hlt|Hge].
  - rewrite (Z.min_l s) by lia.
    destruct (Z_lt_le_dec e (Z.of_nat len)) as [Helt|Hege].
    + rewrite (Z.min_l e) by lia. f_equal. lia.
    + rewrite (Z.min_r e) by lia.
      rewrite !firstn_beyond; try reflexivity;
        rewrite length_skipn; fold len; lia.
  - rewrite (Z.min_r s) by lia. rewrite (Z.min_r e) by lia.
    rewrite !(skipn_all2 l) by (fold len; lia).
    now rewrite !firstn_nil.
Qed.


(** The first [k] chunks of width [b] make up the first [k * b] items. *)
Lemma concat_chunks {A : Type} (l : list A) (b k : nat) :
  List.concat (map (fun i => firstn b (skipn (i * b) l)) (seq 0 k))
  = firstn (k * b) l.
Proof.
  induction k as [|k IH].
  - reflexivity.
  - rewrite seq_S, map_app, concat_app, IH. simpl.
    rewrite app_nil_r.
    replace (b + k * b)%nat with (k * b + b)%nat by lia.
    now rewrite firstn_plus_skipn.
Qed.

Lemma ceilDiv_spec (n d : Z) :
  0 < d -> d * (ceilDiv n d - 1) < n <= d * ceilDiv n d.
Proof.
  intros Hd. unfold ceilDiv.
  pose proof (Z.div_mod (- n) d ltac:(lia)) as Hdm.
  pose proof (Z.mod_pos_bound (- n) d Hd) as Hb.
  nia.
Qed.

(** The batches [createBatches] builds for a positive batch size, as chunks. *)
Lemma createBatches_chunks {T : Type} (items : list T) (batchSize : Z) :
  0 < batchSize ->
  createBatches items batchSize
  = Normal (map (fun i => firstn (Z.to_nat batchSize)
                            (skipn (i * Z.to_nat batchSize) items))
                (seq 0 (Z.to_nat (ceilDiv (Z.of_nat (List.length items)) batchSize)))).
Proof.
  intros HB. unfold createBatches.
  assert (E : (batchSize =? 0) = false) by (apply Z.eqb_neq; lia).
  rewrite E. f_equal. unfold Array_from.
  apply map_ext. intros i.
  rewrite slice_nonneg by nia.
  f_equal; [nia | f_equal; nia].
Qed.

Lemma NoDup_app_disjoint {A : Type} (l1 l2 : list A) (x : A) :
  NoDup (l1 ++ l2) -> In x l1 -> In x l2 -> False.
Proof.
  induction l1 as [|y l1 IH]; simpl; intros Hnd H1 H2.
  - exact H1.
  - inversion Hnd as [|? ? Hnotin Hnd']; subst.
    destruct H1 as [->|H1].
    + apply Hnotin. apply in_or_app. now right.
    + now apply IH.
Qed.

(** In a duplicate-free concatenation an element lies in one segment only. *)
Lemma NoDup_concat_unique {A : Type} (ls : list (list A)) :
  NoDup (List.concat ls) ->
  forall i j li lj c,
    nth_error ls i = Some li -> nth_error ls j = Some lj ->
    In c li -> In c lj -> i = j.
Proof.
  induction ls as [|l ls IH]; intros Hnd i j li lj c Hi Hj Hci Hcj.
  - destruct i; discriminate.
  - simpl in Hnd.
    assert (Htail : forall k lk, nth_error ls k = Some lk -> In c lk ->
                                 In c (List.concat ls)).
    { intros k lk Hk Hc. apply in_concat. exists lk. split; [|exact Hc].
      eapply nth_error_In; eauto. }
    destruct i as [|i], j as [|j]; simpl in Hi, Hj.
    + reflexivity.
    + inversion Hi; subst. exfalso.
      eapply NoDup_app_disjoint; eauto.
    + inversion Hj; subst. exfalso.
      eapply NoDup_app_disjoint; eauto.
    + f_equal. eapply IH; eauto.
      now apply NoDup_app_remove_l in Hnd.
Qed.

(** C3.  For a pool of [N] candidates and a batch size [B > 0],
    [createBatches] returns [k] batches where [k] is the ceiling of [N / B]
    (the integer with [B * (k - 1) < N <= B * k]); every batch has at most
    [B] items and every batch but the last exactly [B]; the concatenation of
    the batches in order is the pool itself, so a candidate is in some batch
    exactly when it is in the pool, and in a pool without duplicates no
    candidate is in two batches. *)
Theorem createBatches_partitions_pool :
  forall (items : list Candidate) (B : Z),
    0 < B ->
    exists batches : list (list Candidate),
      createBatches items B = Normal batches
      /\ (let k := Z.of_nat (List.length batches) in
          let N := Z.of_nat (List.length items) in
          B * (k - 1) < N <= B * k)
      /\ (forall b, In b batches -> Z.of_nat (List.length b) <= B)
      /\ (forall i b, nth_error batches i = Some b ->
                      (S i < List.length batches)%nat ->
                      Z.of_nat (List.length b) = B)
      /\ List.concat batches = items
      /\ (forall c, In c items <-> exists b, In b batches /\ In c b)
      /\ (NoDup (map id items) ->
          forall i j bi bj c,
            nth_error batches i = Some bi -> nth_error batches j = Some bj ->
            In c bi -> In c bj -> i = j).
Proof.
  intros items B HB.
  pose proof (ceilDiv_spec (Z.of_nat (List.length items)) B HB) as Hceil.
  set (N := List.length items) in *.
  set (k := Z.to_nat (ceilDiv (Z.of_nat N) B)) in *.
  set (b := Z.to_nat B).
  assert (Hk : Z.of_nat k = ceilDiv (Z.of_nat N) B).
  { unfold k. apply Z2Nat.id.
    destruct (Z_lt_le_dec (ceilDiv (Z.of_nat N) B) 0) as [Hneg|Hpos];
      [|assumption].
    pose proof (Z.mul_le_mono_nonneg_l (ceilDiv (Z.of_nat N) B) (-1) B
                  ltac:(lia) ltac:(lia)).
    lia. }
  assert (Hb : Z.of_nat b = B) by (unfold b; lia).
  rewrite <- Hk in Hceil.
  set (batches := map (fun i => firstn b (skipn (i * b) items)) (seq 0 k)).
  assert (Hlen : List.length batches = k)
    by (unfold batches; now rewrite length_map, length_seq).
  assert (Hconcat : List.concat batches = items).
  { unfold batches. rewrite concat_chunks. apply firstn_beyond. fold N. nia. }
  assert (Hnth : forall i c, nth_error batches i = Some c ->
                             (i < k)%nat /\ c = firstn b (skipn (i * b) items)).
  { intros i c Hi.
    assert (Hik : (i < k)%nat)
      by (rewrite <- Hlen; apply nth_error_Some; congruence).
    split; [exact Hik|].
    unfold batches in Hi. rewrite nth_error_map in Hi.
    rewrite (nth_error_nth' _ 0%nat) in Hi by (rewrite length_seq; exact Hik).
    rewrite seq_nth in Hi by exact Hik. simpl in Hi. congruence. }
  exists batches. repeat split.
  - rewrite createBatches_chunks by exact HB. reflexivity.
  - rewrite Hlen. lia.
  - rewrite Hlen. lia.
  - intros c Hin. apply In_nth_error in Hin. destruct Hin as [i Hi].
    apply Hnth in Hi. destruct Hi as [_ ->].
    rewrite length_firstn. lia.
  - intros i c Hi Hlast. apply Hnth in Hi. destruct Hi as [_ ->].
    rewrite length_firstn, length_skipn. fold N. rewrite Hlen in Hlast. nia.
  - exact Hconcat.
  - intros Hin. rewrite <- Hconcat in Hin. apply in_concat in Hin.
    destruct Hin as [bb [H1 H2]]. now exists bb.
  - intros [bb [H1 H2]]. rewrite <- Hconcat. apply in_concat. now exists bb.
  - intros Hnd i j bi bj c Hi Hj Hci Hcj.
    apply NoDup_map_inv in Hnd. rewrite <- Hconcat in Hnd.
    eapply NoDup_concat_unique; eauto.
Qed.

(** The theorem at a pool of five candidates and batches of two. *)
Lemma createBatches_partitions_pool_witness :
  exists batches : list (list Candidate),
    createBatches (map sampleCandidate ["a"; "b"; "c"; "d"; "e"]) 2 = Normal batches
    /\ List.length batches = 3%nat
    /\ List.concat batches = map sampleCandidate ["a"; "b"; "c"; "d"; "e"].
Proof.
  destruct (createBatches_partitions_pool
              (map sampleCandidate ["a"; "b"; "c"; "d"; "e"]) 2 ltac:(lia))
    as [batches [Hrun [Hceil [_ [_ [Hconcat _]]]]]].
  exists batches. repeat split; try assumption.
  cbv zeta in Hceil. rewrite length_map in Hceil.
  change (List.length ["a"; "b"; "c"; "d"; "e"]) with 5%nat in Hceil. lia.
Defined.

(** ** The retry controller *)

(** What is awaited after a failed attempt does not depend on the error:
    the 429 branch and the general branch pause alike. *)
Lemma backoff_uniform (error : Js.thrown) (attempt maxRetries : nat) :
  backoff error attempt maxRetries
  = if (attempt <? maxRetries)%nat then delay (calculateDelay attempt) else ret tt.
Proof.
  unfold backoff.
  destruct (isAPIError error) as [e|]; [|reflexivity].
  destruct (statusIs e 429); [|reflexivity].
  destruct (attempt <? maxRetries)%nat; reflexivity.
Qed.


Section RetryLoop.
Context {T : Type} (op : GatewayOp) (reply : nat -> completion T) (lat : nat -> Z).
Context (maxRetries : nat).

Let operation : M T := gatewayCall op reply lat.

(** One iteration of the loop. *)
Lemma retryLoop_step (r attempt : nat) (lastError : Js.thrown) (w : World) :
  retryLoop operation maxRetries (S r) attempt lastError w
  = let w1 := mkWorld (now w + lat (calls w)) (S (calls w)) (trace w ++ [Call op]) in
    match reply (calls w) with
    | Normal v => (Normal v, w1)
    | Abrupt e =>
        retryLoop operation maxRetries r (S attempt) e
          (if (attempt <? maxRetries)%nat
           then mkWorld (now w1 + calculateDelay attempt) (calls w1)
                        (trace w1 ++ [SetTimeout (calculateDelay attempt)])
           else w1)
    end.
Proof.
  simpl. unfold tryCatch, operation, gatewayCall.
  destruct (reply (calls w)) as [v|e]; [reflexivity|].
  rewrite backoff_uniform. unfold bind.
  destruct (attempt <? maxRetries)%nat; reflexivity.
Qed.

(** The loop entered at iteration [attempt] with [remaining] iterations to
    go makes [n] calls, [1 <= n <= remaining]: the first [n - 1] fail, each
    followed by its pause, and the outcome of the loop is the outcome of the
    last call; fewer than [remaining] calls are made only when the last one
    succeeds. *)
Lemma retryLoop_run :
  forall (remaining attempt : nat) (lastError : Js.thrown) (w : World),
    (attempt + remaining = S maxRetries)%nat ->
    (0 < remaining)%nat ->
    exists n : nat,
      (1 <= n <= remaining)%nat
      /\ fst (retryLoop operation maxRetries remaining attempt lastError w)
         = reply (calls w + n - 1)%nat
      /\ trace (snd (retryLoop operation maxRetries remaining attempt lastError w))
         = trace w ++ retrySchedule op attempt n
      /\ calls (snd (retryLoop operation maxRetries remaining attempt lastError w))
         = (calls w + n)%nat
      /\ (forall k, (k < n - 1)%nat -> exists e, reply (calls w + k)%nat = Abrupt e)
      /\ ((n < remaining)%nat -> exists v, reply (calls w + n - 1)%nat = Normal v).
Proof.
  induction remaining as [|r IH]; intros attempt lastError w Hsum Hpos; [lia|].
  rewrite retryLoop_step. cbv zeta.
  destruct (reply (calls w)) as [v|e] eqn:Hreply.
  - (* the call succeeds: no further iteration *)
    exists 1%nat. simpl.
    replace (calls w + 1 - 1)%nat with (calls w) by lia.
    repeat split; try lia; try (symmetry; assumption).
    intros _. now exists v.
  - (* the call fails *)
    destruct r as [|r'].
    + (* it was the last iteration: the error is thrown again *)
      assert (Hlt : (attempt <? maxRetries)%nat = false)
        by (apply Nat.ltb_ge; lia).
      rewrite Hlt. exists 1%nat. simpl.
      replace (calls w + 1 - 1)%nat with (calls w) by lia.
      repeat split; try lia; try (symmetry; assumption).
    + assert (Hlt : (attempt <? maxRetries)%nat = true)
        by (apply Nat.ltb_lt; lia).
      rewrite Hlt.
      set (w2 := mkWorld _ _ _).
      destruct (IH (S attempt) e w2 ltac:(lia) ltac:(lia))
        as [n [Hn [Hres [Htr [Hcalls [Hfail Hstop]]]]]].
      exists (S n). rewrite Hres, Htr, Hcalls. subst w2. simpl.
      repeat split; try lia.
      * f_equal. lia.
      * rewrite <- !app_assoc. simpl.
        destruct n as [|n']; [lia|reflexivity].
      * intros k Hk. destruct k as [|k'].
        -- exists e. now rewrite Nat.add_0_r.
        -- destruct (Hfail k' ltac:(lia)) as [e' He']. exists e'.
           rewrite <- He'. simpl. f_equal. lia.
      * intros Hlt'. destruct (Hstop ltac:(lia)) as [v Hv]. exists v.
        rewrite <- Hv. simpl. f_equal. lia.
Qed.

End RetryLoop.

(** C2 (amended).  Around any gateway operation and whatever its calls
    return, [retryWithBackoff] with the default [maxRetries = 3] makes [n]
    calls with [1 <= n <= 4]; its effects are exactly those calls,
    separated by the pauses: after failed attempt [k] (0-indexed, [k < 3]),
    that is before attempt [k + 1], it waits
    [calculateDelay k = min(1000 * 2^k, 10000)] ms, 1000, 2000 and 4000;
    nothing is awaited before attempt 0 or after the last attempt.  Every
    call before the last one failed; the outcome is the outcome of the last
    call, so a value is returned as soon as a call succeeds (no call follows
    a success) and, when all four calls fail, the error of the fourth is
    thrown unchanged. *)
Theorem retryWithBackoff_bounded_schedule :
  forall (T : Type) (op : GatewayOp) (reply : nat -> completion T)
         (lat : nat -> Z) (w : World),
    let run := retryWithBackoff (gatewayCall op reply lat)
                                (maxRetries DEFAULT_CONFIG) w in
    exists n : nat,
      (1 <= n <= 4)%nat
      /\ trace (snd run) = trace w ++ retrySchedule op 0 n
      /\ calls (snd run) = (calls w + n)%nat
      /\ fst run = reply (calls w + n - 1)%nat
      /\ (forall k, (k < n - 1)%nat -> exists e, reply (calls w + k)%nat = Abrupt e)
      /\ ((n < 4)%nat -> exists v, fst run = Normal v)
      /\ (forall e, fst run = Abrupt e ->
                    n = 4%nat /\ reply (calls w + 3)%nat = Abrupt e)
      /\ (forall k, k < n - 1 ->
                    delayBefore (S k) (retrySchedule op 0 n)
                    = Some (Z.min (1000 * 2 ^ Z.of_nat k) 10000))%nat
      /\ delayBefore 0 (retrySchedule op 0 n) = None
      /\ (forall k, calculateDelay k = Z.min (1000 * 2 ^ Z.of_nat k) 10000).
Proof.
  intros T op reply lat w run.
  destruct (retryLoop_run op reply lat 3 4 0 Js.ThrownUndefined w
              ltac:(lia) ltac:(lia))
    as [n [Hn [Hres [Htr [Hcalls [Hfail Hstop]]]]]].
  exists n. subst run. unfold retryWithBackoff. simpl maxRetries.
  rewrite Hres, Htr, Hcalls.
  split; [lia|]. split; [reflexivity|]. split; [reflexivity|].
  split; [reflexivity|]. split; [exact Hfail|].
  split; [intros Hlt; destruct (Hstop Hlt) as [v Hv]; now exists v|].
  split; [|split; [|split]].
  - intros e He.
    destruct (Nat.eq_dec n 4) as [E|NE].
    + subst n. split; [reflexivity|].
      rewrite <- He. f_equal. lia.
    + destruct (Hstop ltac:(lia)) as [v Hv]. congruence.
  - intros k Hk.
    assert (Hcases : (n = 2 \/ n = 3 \/ n = 4)%nat) by lia.
    destruct Hcases as [-> | [-> | ->]];
      destruct k as [|[|[|k]]]; try lia; reflexivity.
  - destruct n as [|[|n']]; [lia| |]; reflexivity.
  - intros k. reflexivity.
Qed.


(** C2 as stated fails: the delay before attempt 1 is 1000 ms, not
    [min(1000 * 2^1, 10000) = 2000] ms (and there is none before
    attempt 0). *)
Lemma retry_delay_before_attempt_counterexample :
  let run := retryWithBackoff
               (gatewayCall (GenerateText (openai "gpt-4.1-mini") somePrompt)
                            failsOnce (fun _ => 250))
               (maxRetries DEFAULT_CONFIG) (mkWorld 0 0 []) in
  fst run = Normal "ok"
  /\ delayBefore 0 (trace (snd run)) = None
  /\ delayBefore 1 (trace (snd run)) = Some 1000
  /\ Some 1000 <> Some (Z.min (1000 * 2 ^ 1) 10000).
Proof.
  cbv zeta. repeat split.
  discriminate.
Qed.

(** ** The two strategies of a batch *)

Lemma createScoredCandidate_pure (item : AICandidateResponse.t)
    (batch : list Candidate) (w : World) :
  createScoredCandidate item batch w = (scoredAt (now w) batch item, w).
Proof.
  unfold createScoredCandidate, scoredAt.
  destruct (findById (AICandidateResponse.id item) batch) as [c|]; [|reflexivity].
  unfold bind, lift, Date_now, ret.
  destruct (createCandidateScore (AICandidateResponse.score item)); reflexivity.
Qed.

Lemma mapM_pure {A B : Type} (f : A -> M B) (g : Z -> A -> completion B) :
  (forall x w, f x w = (g (now w) x, w)) ->
  forall l w, mapM f l w = (mapC (g (now w)) l, w).
Proof.
  intros Hf l w. induction l as [|x l IH]; simpl.
  - reflexivity.
  - unfold bind. rewrite Hf.
    destruct (g (now w) x) as [y|e]; simpl; [|reflexivity].
    rewrite IH. destruct (mapC (g (now w)) l); reflexivity.
Qed.

Lemma structured_run (env : Env) (gw : Gateway) (job : JobDescription)
    (batch : list Candidate) (weights : option PartialScoringWeights.t)
    (model : AIModel) (w : World) :
  getAIModel (getLLMProvider env) = Normal model ->
  scoreBatchWithStrategy env gw job batch structured weights w
  = let run := retryWithBackoff
                 (generateObject gw model (createScoringPrompt job batch weights))
                 (maxRetries DEFAULT_CONFIG) w in
    (Normal (structuredOutcome (now (snd run)) batch (fst run)), snd run).
Proof.
  intros Hmodel. unfold scoreBatchWithStrategy. rewrite Hmodel.
  unfold bind at 1, lift at 1. unfold tryCatch, bind at 1.
  cbv zeta.
  destruct (retryWithBackoff _ _ w) as [[object|e] w1]; simpl.
  - unfold bind.
    rewrite (mapM_pure _ (fun t => scoredAt t batch))
      by (intros; apply createScoredCandidate_pure).
    destruct (mapC _ _); reflexivity.
  - reflexivity.
Qed.

(** A strategy fails to start, without any effect, exactly when the
    configured provider is not supported. *)
Lemma strategy_unsupported_provider (env : Env) (gw : Gateway)
    (job : JobDescription) (batch : list Candidate) (strategy : ScoringStrategy)
    (weights : option PartialScoringWeights.t) (e : Js.thrown) (w : World) :
  getAIModel (getLLMProvider env) = Abrupt e ->
  scoreBatchWithStrategy env gw job batch strategy weights w = (Abrupt e, w).
Proof.
  intros Hmodel. unfold scoreBatchWithStrategy. rewrite Hmodel. reflexivity.
Qed.

Lemma fallback_run (env : Env) (gw : Gateway) (job : JobDescription)
    (batch : list Candidate) (weights : option PartialScoringWeights.t)
    (model : AIModel) (w : World) :
  getAIModel (getLLMProvider env) = Normal model ->
  scoreBatchWithStrategy env gw job batch fallback weights w
  = let run := retryWithBackoff
                 (generateText gw model (createConstrainedPrompt job batch))
                 (maxRetries DEFAULT_CONFIG) w in
    (Normal (fallbackOutcome (JSON_parse env) (now (snd run)) batch (fst run)),
     snd run).
Proof.
  intros Hmodel. unfold scoreBatchWithStrategy. rewrite Hmodel.
  unfold bind at 1, lift at 1. unfold tryCatch, bind at 1.
  cbv zeta.
  destruct (retryWithBackoff _ _ w) as [[text|e] w1]; simpl.
  - destruct (negb (isValid (validatePromptResponse (JSON_parse env) text))).
    + reflexivity.
    + unfold bind.
      rewrite (mapM_pure _ (fun t => scoredItemAt t batch)).
      * destruct (mapC _ _); reflexivity.
      * intros item w'. unfold scoredItemAt.
        destruct (asAICandidateResponse item).
        -- apply createScoredCandidate_pure.
        -- reflexivity.
  - reflexivity.
Qed.

(** [processBatch] in terms of its one or two strategy runs. *)
Lemma processBatch_run (env : Env) (gw : Gateway) (batch : list Candidate)
    (batchIndex : Z) (job : JobDescription)
    (weights : option PartialScoringWeights.t) (w : World) :
  processBatch env gw batch batchIndex job weights w
  = match scoreBatchWithStrategy env gw job batch structured weights w with
    | (Abrupt e, w1) => (Abrupt e, w1)
    | (Normal result, w1) =>
        if isParseFailure result then
          match scoreBatchWithStrategy env gw job batch fallback weights w1 with
          | (Abrupt e, w2) => (Abrupt e, w2)
          | (Normal result2, w2) => (Normal (toBatchResult result2 batchIndex), w2)
          end
        else (Normal (toBatchResult result batchIndex), w1)
    end.
Proof.
  unfold processBatch, bind.
  destruct (scoreBatchWithStrategy env gw job batch structured weights w)
    as [[result|e] w1]; [|reflexivity].
  destruct (isParseFailure result).
  - destruct (scoreBatchWithStrategy env gw job batch fallback weights w1)
      as [[result2|e] w2]; [|reflexivity].
    destruct result2; reflexivity.
  - unfold ret. destruct result; reflexivity.
Qed.

(** The trace of a retried gateway call. *)
Lemma retry_trace {T : Type} (op : GatewayOp) (reply : nat -> completion T)
    (lat : nat -> Z) (w : World) :
  exists n : nat,
    (1 <= n <= 4)%nat
    /\ trace (snd (retryWithBackoff (gatewayCall op reply lat)
                                    (maxRetries DEFAULT_CONFIG) w))
       = trace w ++ retrySchedule op 0 n.
Proof.
  destruct (retryLoop_run op reply lat 3 4 0 Js.ThrownUndefined w
              ltac:(lia) ltac:(lia)) as [n [Hn [_ [Htr _]]]].
  exists n. split; [lia|exact Htr].
Qed.

Lemma retrySchedule_text (model : AIModel) (prompt : Prompt) (attempt n : nat) :
  (1 <= n)%nat ->
  fallbackAttempted (retrySchedule (GenerateText model prompt) attempt n) = true.
Proof. intros Hn. destruct n as [|n]; [lia|reflexivity]. Qed.

Lemma retrySchedule_object (model : AIModel) (prompt : Prompt) (attempt n : nat) :
  fallbackAttempted (retrySchedule (GenerateObject model prompt) attempt n) = false.
Proof.
  revert attempt. induction n as [|n IH]; intros attempt; [reflexivity|].
  simpl. destruct n as [|n']; [reflexivity|].
  unfold fallbackAttempted in IH. simpl. apply (IH (S attempt)).
Qed.

Lemma isParseFailure_spec (result : ScoringResult) :
  isParseFailure result = true
  <-> exists e, result = Failure e /\ type e = T_PARSE_ERROR.
Proof.
  destruct result as [d|e]; simpl.
  - split; [discriminate|]. intros [e [H _]]. discriminate.
  - split.
    + intros H. exists e. split; [reflexivity|]. now destruct e.
    + intros [e' [H1 H2]]. inversion H1; subst. now rewrite H2.
Qed.

(** C1.  In every run of [processBatch], with [s] the structured attempt
    it starts with: the trace of the batch contains a [generateText] call
    (the constrained-text strategy was run) if and only if [s] returned a
    failure whose type is PARSE_ERROR.  After such a failure the fallback
    strategy is run from the world [s] left, makes at least one call with
    the constrained prompt of the batch, and its result is the batch's
    result.  After a failure of any of the five other types no further
    call is made and that error, with the batch index, is the batch's
    outcome; after a success the data is the batch's outcome. *)
Theorem fallback_iff_structured_parse_error :
  forall (env : Env) (gw : Gateway) (batch : list Candidate) (batchIndex : Z)
         (job : JobDescription) (weights : option PartialScoringWeights.t)
         (w : World),
    let s := scoreBatchWithStrategy env gw job batch structured weights w in
    let p := processBatch env gw batch batchIndex job weights w in
    exists t : list Event,
      trace (snd p) = trace w ++ t
      /\ (fallbackAttempted t = true
          <-> exists e, fst s = Normal (Failure e) /\ type e = T_PARSE_ERROR)
      /\ (forall e,
            fst s = Normal (Failure e) -> type e = T_PARSE_ERROR ->
            let f := scoreBatchWithStrategy env gw job batch fallback weights (snd s) in
            exists (t1 : list Event) (n : nat) (model : AIModel) (r : ScoringResult),
              (1 <= n)%nat
              /\ trace (snd s) = trace w ++ t1
              /\ t = t1 ++ retrySchedule
                            (GenerateText model (createConstrainedPrompt job batch)) 0 n
              /\ f = (Normal r, snd p)
              /\ fst p = Normal (toBatchResult r batchIndex))
      /\ (forall e,
            fst s = Normal (Failure e) ->
            In (type e) [T_RATE_LIMIT; T_NETWORK_ERROR; T_QUOTA_EXCEEDED;
                         T_VALIDATION_ERROR; T_UNKNOWN_ERROR] ->
            p = (Normal (BatchFailure e batchIndex), snd s))
      /\ (forall d,
            fst s = Normal (Success d) ->
            p = (Normal (BatchSuccess d), snd s)).
Proof.
  intros env gw batch batchIndex job weights w s p.
  subst p. rewrite processBatch_run. fold s.
  destruct (getAIModel (getLLMProvider env)) as [model|err] eqn:Hmodel.
  - (* the provider is supported *)
    pose proof (structured_run env gw job batch weights model w Hmodel) as Hs.
    fold s in Hs. cbv zeta in Hs.
    destruct (retry_trace (GenerateObject model (createScoringPrompt job batch weights))
                (generateObject_reply gw) (latency gw) w) as [n1 [Hn1 Ht1]].
    fold (generateObject gw model (createScoringPrompt job batch weights)) in Ht1.
    set (run1 := retryWithBackoff _ _ w) in *.
    set (r1 := structuredOutcome (now (snd run1)) batch (fst run1)) in *.
    rewrite Hs. simpl fst. simpl snd.
    destruct (isParseFailure r1) eqn:Hparse.
    + (* PARSE_ERROR: the fallback runs *)
      pose proof (fallback_run env gw job batch weights model (snd run1) Hmodel) as Hf.
      cbv zeta in Hf.
      destruct (retry_trace (GenerateText model (createConstrainedPrompt job batch))
                  (generateText_reply gw) (latency gw) (snd run1)) as [n2 [Hn2 Ht2]].
      fold (generateText gw model (createConstrainedPrompt job batch)) in Ht2.
      set (run2 := retryWithBackoff _ _ (snd run1)) in *.
      rewrite Hf. simpl.
      exists (retrySchedule
                (GenerateObject model (createScoringPrompt job batch weights)) 0 n1
              ++ retrySchedule (GenerateText model (createConstrainedPrompt job batch)) 0 n2).
      split; [rewrite Ht2, Ht1; now rewrite app_assoc|].
      split.
      { split.
        - intros _. apply isParseFailure_spec in Hparse.
          destruct Hparse as [e [He Hty]]. exists e. split; [now rewrite He|exact Hty].
        - intros _. unfold fallbackAttempted. rewrite existsb_app.
          apply orb_true_iff. right. apply retrySchedule_text. lia. }
      split.
      { intros e He Hty.
        exists (retrySchedule
                  (GenerateObject model (createScoringPrompt job batch weights)) 0 n1),
               n2, model,
               (fallbackOutcome (JSON_parse env) (now (snd run2)) batch (fst run2)).
        repeat split; try lia; assumption. }
      split.
      { intros e He Hin. exfalso.
        apply isParseFailure_spec in Hparse. destruct Hparse as [e' [He' Hty]].
        assert (e = e') by congruence. subst e'.
        rewrite Hty in Hin. simpl in Hin.
        repeat (destruct Hin as [Hin|Hin]; [discriminate|]). exact Hin. }
      { intros d Hd. exfalso.
        apply isParseFailure_spec in Hparse. destruct Hparse as [e' [He' _]].
        congruence. }
    + (* anything else: the structured result stands *)
      exists (retrySchedule
                (GenerateObject model (createScoringPrompt job batch weights)) 0 n1).
      split; [exact Ht1|].
      split.
      { rewrite retrySchedule_object. split; [discriminate|].
        intros [e [He Hty]].
        assert (isParseFailure r1 = true)
          by (apply isParseFailure_spec; exists e; split; congruence).
        congruence. }
      split.
      { intros e He Hty. exfalso.
        assert (isParseFailure r1 = true)
          by (apply isParseFailure_spec; exists e; split; congruence).
        congruence. }
      split.
      { intros e He _. injection He as He'. rewrite He'. reflexivity. }
      { intros d Hd. injection Hd as Hd'. rewrite Hd'. reflexivity. }
  - (* unsupported provider: the structured attempt throws before any call *)
    pose proof (strategy_unsupported_provider env gw job batch structured
                  weights err w Hmodel) as Hs.
    fold s in Hs. rewrite Hs. simpl.
    exists []. split; [now rewrite app_nil_r|].
    split.
    { split; [discriminate|]. intros [e [He _]]. discriminate. }
    repeat split; intros; discriminate.
Qed.

(** The theorem at a batch whose four structured calls all fail with a
    JSON SyntaxError: the fallback runs and its result is the batch's. *)
Lemma fallback_iff_structured_parse_error_witness :
  exists (t : list Event) (r : ScoringResult) (w' : World),
    trace (snd (processBatch garbledEnv garbledGateway twoCandidates 0
                  "Senior engineer" None start)) = t
    /\ fallbackAttempted t = true
    /\ scoreBatchWithStrategy garbledEnv garbledGateway "Senior engineer"
         twoCandidates fallback None
         (snd (scoreBatchWithStrategy garbledEnv garbledGateway "Senior engineer"
                 twoCandidates structured None start))
       = (Normal r, w')
    /\ fst (processBatch garbledEnv garbledGateway twoCandidates 0
              "Senior engineer" None start)
       = Normal (toBatchResult r 0).
Proof.
  destruct (fallback_iff_structured_parse_error garbledEnv garbledGateway
              twoCandidates 0 "Senior engineer" None start)
    as [t [Ht [Hiff [Hparse _]]]].
  destruct (Hparse (PARSE_ERROR "Unexpected token < in JSON at position 0" None)
              eq_refl eq_refl)
    as [t1 [n [model [r [Hn [Ht1 [Htt [Hf Hp]]]]]]]].
  exists t, r. eexists. simpl in Ht.
  split; [exact Ht|]. split; [|split; [exact Hf|exact Hp]].
  apply Hiff. eexists. split; reflexivity.
Defined.

(** ** Mapping response items to candidates *)

Lemma findById_None (ident : string) (batch : list Candidate) :
  findById ident batch = None <-> (forall c, In c batch -> id c <> ident).
Proof.
  unfold findById. split.
  - intros H c Hin Heq.
    pose proof (find_none _ _ H c Hin) as Hc. simpl in Hc.
    apply String.eqb_neq in Hc. contradiction.
  - intros H. induction batch as [|c batch IH]; [reflexivity|]. simpl.
    destruct (String.eqb (id c) ident) eqn:E.
    + apply String.eqb_eq in E. exfalso. apply (H c); [now left|exact E].
    + apply IH. intros c' Hin. apply H. now right.
Qed.

Lemma findById_Some (ident : string) (batch : list Candidate) (c : Candidate) :
  findById ident batch = Some c -> In c batch /\ id c = ident.
Proof.
  unfold findById. intros H. apply find_some in H. destruct H as [Hin Heq].
  split; [exact Hin|]. now apply String.eqb_eq.
Qed.

Lemma scoredAt_Normal (t : Z) (batch : list Candidate)
    (item : AICandidateResponse.t) (sc : ScoredCandidate) :
  scoredAt t batch item = Normal sc -> mappedFrom batch item sc.
Proof.
  unfold scoredAt, mappedFrom, createCandidateScore.
  destruct (findById (AICandidateResponse.id item) batch) as [c|] eqn:Hfind;
    [|discriminate].
  apply findById_Some in Hfind. destruct Hfind as [Hin Hid].
  destruct (_ || _); simpl; [discriminate|].
  intros H. inversion H; subst; simpl. repeat split; assumption.
Qed.

(** Whatever makes the mapping of an item fail is a plain [Error] with a
    non-empty message. *)
Lemma scoredAt_Abrupt (t : Z) (batch : list Candidate)
    (item : AICandidateResponse.t) (e : Js.thrown) :
  scoredAt t batch item = Abrupt e ->
  exists msg, e = Js.Error msg /\ Js.str_truthy msg = true.
Proof.
  unfold scoredAt, createCandidateScore.
  destruct (findById (AICandidateResponse.id item) batch) as [c|].
  - destruct (_ || _); simpl; [|discriminate].
    intros H. inversion H. eexists. split; reflexivity.
  - intros H. inversion H. eexists. split; reflexivity.
Qed.

Lemma mapC_In_Abrupt {A B : Type} (f : A -> completion B) (l : list A)
    (x : A) (e0 : Js.thrown) :
  In x l -> f x = Abrupt e0 -> exists e, mapC f l = Abrupt e.
Proof.
  induction l as [|y l IH]; intros Hin Hx; [contradiction|].
  simpl. destruct Hin as [->|Hin].
  - rewrite Hx. now exists e0.
  - destruct (f y) as [b|e]; simpl; [|now exists e].
    destruct (IH Hin Hx) as [e He]. rewrite He. now exists e.
Qed.

Lemma mapC_Normal {A B : Type} (f : A -> completion B) (l : list A)
    (ys : list B) :
  mapC f l = Normal ys -> Forall2 (fun x y => f x = Normal y) l ys.
Proof.
  revert ys. induction l as [|x l IH]; intros ys H; simpl in H.
  - inversion H. constructor.
  - destruct (f x) as [y|e] eqn:Hx; simpl in H; [|discriminate].
    destruct (mapC f l) as [ys'|e]; simpl in H; [|discriminate].
    inversion H; subst. constructor; [exact Hx|]. now apply IH.
Qed.

Lemma mapC_Abrupt_from {A B : Type} (f : A -> completion B) (l : list A)
    (e : Js.thrown) :
  mapC f l = Abrupt e -> exists x, In x l /\ f x = Abrupt e.
Proof.
  induction l as [|y l IH]; intros H; simpl in H; [discriminate|].
  destruct (f y) as [b|e'] eqn:Hy; simpl in H.
  - destruct (mapC f l) as [ys|e''] eqn:Hl; simpl in H; [discriminate|].
    inversion H; subst. destruct (IH eq_refl) as [x [Hin Hx]].
    exists x. split; [now right|exact Hx].
  - inversion H; subst. exists y. split; [now left|exact Hy].
Qed.

(** A plain [Error] is classified as UNKNOWN_ERROR and keeps its message. *)
Lemma mapError_plain_Error (t : Z) (msg : string) :
  Js.str_truthy msg = true ->
  mapErrorToScoringError t (Js.Error msg) = UNKNOWN_ERROR msg.
Proof.
  intros H. unfold mapErrorToScoringError. simpl. now rewrite H.
Qed.

(** The six classes, each at an error that falls in it. *)
Example classification_examples :
  let thrownWith status code name message issues :=
    Js.ThrownObject (Js.mkAPIError status None message code name issues None) in
  type (mapErrorToScoringError 0 (thrownWith (Some 429) None None None None))
  = T_RATE_LIMIT
  /\ type (mapErrorToScoringError 0 (thrownWith (Some 402) None None None None))
     = T_QUOTA_EXCEEDED
  /\ type (mapErrorToScoringError 0 (thrownWith None (Some "ENOTFOUND") None None None))
     = T_NETWORK_ERROR
  /\ type (mapErrorToScoringError 0 (thrownWith None None (Some "ZodError") None None))
     = T_VALIDATION_ERROR
  /\ type (mapErrorToScoringError 0 (thrownWith None None None None (Some [])))
     = T_VALIDATION_ERROR
  /\ type (mapErrorToScoringError 0 unparsable) = T_PARSE_ERROR
  /\ type (mapErrorToScoringError 0
             (Js.mkError "SyntaxError" "Unexpected identifier")) = T_UNKNOWN_ERROR
  /\ type (mapErrorToScoringError 0 (Js.ThrownString "boom")) = T_UNKNOWN_ERROR
  /\ mapErrorToScoringError 0 Js.ThrownUndefined
     = UNKNOWN_ERROR "Unknown error occurred".
Proof. repeat split. Qed.

Lemma Forall2_impl {A B : Type} (P Q : A -> B -> Prop) (l : list A) (l' : list B) :
  (forall x y, P x y -> Q x y) -> Forall2 P l l' -> Forall2 Q l l'.
Proof. intros H F. induction F; constructor; auto. Qed.

(** C9.  With a supported provider, and for either strategy of a batch:
    mapping an item whose id matches no candidate of the batch throws
    [Error("Candidate with ID ... not found")], and a mapping that returns
    yields the original candidate with that id.  When the response the
    gateway resolved to holds such an item, the strategy returns a failure;
    when a strategy returns success, its data corresponds item by item, in
    order, to the items of the response, each scored candidate being the
    batch's candidate with the item's id: none is added, none is dropped. *)
Theorem unknown_id_fails_the_strategy :
  forall (env : Env) (gw : Gateway) (job : JobDescription)
         (batch : list Candidate) (weights : option PartialScoringWeights.t)
         (model : AIModel) (w : World),
    getAIModel (getLLMProvider env) = Normal model ->
    let unknown (item : AICandidateResponse.t) :=
      forall c, In c batch -> id c <> AICandidateResponse.id item in
    let s := retryWithBackoff
               (generateObject gw model (createScoringPrompt job batch weights))
               (maxRetries DEFAULT_CONFIG) w in
    let f := retryWithBackoff
               (generateText gw model (createConstrainedPrompt job batch))
               (maxRetries DEFAULT_CONFIG) w in
    let items (text : string) :=
      parsedCandidates (validatePromptResponse (JSON_parse env) text) in
    (forall item w', unknown item ->
       createScoredCandidate item batch w'
       = (Abrupt (Js.Error
           ("Candidate with ID " +++ AICandidateResponse.id item
            +++ " not found")), w'))
    /\ (forall item w' sc,
          fst (createScoredCandidate item batch w') = Normal sc ->
          mappedFrom batch item sc)
    /\ (forall object item,
          fst s = Normal object -> In item (candidates object) -> unknown item ->
          exists e,
            scoreBatchWithStrategy env gw job batch structured weights w
            = (Normal (Failure e), snd s))
    /\ (forall data,
          fst (scoreBatchWithStrategy env gw job batch structured weights w)
          = Normal (Success data) ->
          exists object,
            fst s = Normal object
            /\ Forall2 (mappedFrom batch) (candidates object) data)
    /\ (forall text raw item,
          fst f = Normal text -> In raw (items text) ->
          asAICandidateResponse raw = Some item -> unknown item ->
          exists e,
            scoreBatchWithStrategy env gw job batch fallback weights w
            = (Normal (Failure e), snd f))
    /\ (forall data,
          fst (scoreBatchWithStrategy env gw job batch fallback weights w)
          = Normal (Success data) ->
          exists text,
            fst f = Normal text
            /\ Forall2 (fun raw sc =>
                          exists item, asAICandidateResponse raw = Some item
                                       /\ mappedFrom batch item sc)
                       (items text) data).
Proof.
  intros env gw job batch weights model w Hmodel unknown s f items.
  assert (Hunknown : forall t item, unknown item ->
            scoredAt t batch item
            = Abrupt (Js.Error
                ("Candidate with ID " +++ AICandidateResponse.id item
                 +++ " not found"))).
  { intros t item Hu. unfold scoredAt.
    now rewrite (proj2 (findById_None (AICandidateResponse.id item) batch) Hu). }
  split; [|split; [|split; [|split; [|split]]]].
  - intros item w' Hu. rewrite createScoredCandidate_pure. now rewrite Hunknown.
  - intros item w' sc H. rewrite createScoredCandidate_pure in H.
    simpl in H. eapply scoredAt_Normal; eauto.
  - intros object item Hobj Hin Hu.
    rewrite (structured_run env gw job batch weights model w Hmodel).
    cbv zeta. fold s. rewrite Hobj. unfold structuredOutcome.
    destruct (mapC_In_Abrupt (scoredAt (now (snd s)) batch) _ item _ Hin
                (Hunknown _ item Hu)) as [e He].
    rewrite He. eexists. reflexivity.
  - intros data H.
    rewrite (structured_run env gw job batch weights model w Hmodel) in H.
    cbv zeta in H. fold s in H. simpl in H. unfold structuredOutcome in H.
    destruct (fst s) as [object|e]; [|discriminate].
    exists object. split; [reflexivity|].
    destruct (mapC _ _) as [data'|e] eqn:Hmap; [|discriminate].
    inversion H; subst data'.
    apply mapC_Normal in Hmap.
    eapply Forall2_impl; [|exact Hmap].
    intros x y Hxy. exact (scoredAt_Normal _ _ _ _ Hxy).
  - intros text raw item Htext Hin Hview Hu.
    rewrite (fallback_run env gw job batch weights model w Hmodel).
    cbv zeta. fold f. rewrite Htext. unfold fallbackOutcome. cbv zeta.
    destruct (negb _); [eexists; reflexivity|].
    assert (Hraw : scoredItemAt (now (snd f)) batch raw
                   = Abrupt (Js.Error
                       ("Candidate with ID " +++ AICandidateResponse.id item
                        +++ " not found")))
      by (unfold scoredItemAt; rewrite Hview; now apply Hunknown).
    destruct (mapC_In_Abrupt _ _ raw _ Hin Hraw) as [e He].
    fold (items text) in He |- *. rewrite He. eexists. reflexivity.
  - intros data H.
    rewrite (fallback_run env gw job batch weights model w Hmodel) in H.
    cbv zeta in H. fold f in H. simpl in H. unfold fallbackOutcome in H.
    destruct (fst f) as [text|e]; [|discriminate].
    exists text. split; [reflexivity|]. cbv zeta in H.
    destruct (negb _); [discriminate|].
    fold (items text) in H.
    destruct (mapC _ _) as [data'|e] eqn:Hmap; [|discriminate].
    inversion H; subst data'.
    apply mapC_Normal in Hmap.
    eapply Forall2_impl; [|exact Hmap].
    intros x y Hxy. unfold scoredItemAt in Hxy.
    destruct (asAICandidateResponse x) as [item|]; [|discriminate].
    exists item. split; [reflexivity|]. exact (scoredAt_Normal _ _ _ _ Hxy).
Qed.

(** The theorem at a structured response that scores the unknown id "zz". *)
Lemma unknown_id_fails_the_strategy_witness :
  exists e w1,
    scoreBatchWithStrategy strangerEnv strangerGateway "Senior engineer"
      twoCandidates structured None start
    = (Normal (Failure e), w1).
Proof.
  destruct (unknown_id_fails_the_strategy strangerEnv strangerGateway
              "Senior engineer" twoCandidates None (openai "gpt-4.1-mini")
              start eq_refl) as [_ [_ [H _]]].
  destruct (H (mkAIScoreResponse [strangerItem]) strangerItem) as [e He].
  - reflexivity.
  - now left.
  - intros c [<-|[<-|[]]]; discriminate.
  - exists e. eexists. exact He.
Defined.

(** C10.  When the structured call of a batch resolves to a response that
    holds an item with an unknown id, the mapping throws a plain [Error]
    (no status, code, issues or ZodError name), which
    [mapErrorToScoringError] classifies as UNKNOWN_ERROR: the structured
    strategy returns that failure, [processBatch] returns it with the batch
    index as the batch's outcome, and the trace of the batch holds no
    [generateText] call - the fallback is not attempted. *)
Theorem unknown_id_is_unknown_error_without_fallback :
  forall (env : Env) (gw : Gateway) (batch : list Candidate) (batchIndex : Z)
         (job : JobDescription) (weights : option PartialScoringWeights.t)
         (model : AIModel) (w : World) (object : AIScoreResponse)
         (item : AICandidateResponse.t),
    getAIModel (getLLMProvider env) = Normal model ->
    let s := retryWithBackoff
               (generateObject gw model (createScoringPrompt job batch weights))
               (maxRetries DEFAULT_CONFIG) w in
    fst s = Normal object ->
    In item (candidates object) ->
    (forall c, In c batch -> id c <> AICandidateResponse.id item) ->
    exists (msg : string) (t : list Event),
      mapC (scoredAt (now (snd s)) batch) (candidates object) = Abrupt (Js.Error msg)
      /\ mapErrorToScoringError (now (snd s)) (Js.Error msg) = UNKNOWN_ERROR msg
      /\ scoreBatchWithStrategy env gw job batch structured weights w
         = (Normal (Failure (UNKNOWN_ERROR msg)), snd s)
      /\ processBatch env gw batch batchIndex job weights w
         = (Normal (BatchFailure (UNKNOWN_ERROR msg) batchIndex), snd s)
      /\ trace (snd s) = trace w ++ t
      /\ fallbackAttempted t = false
      /\ (candidates object = [item] ->
          msg = "Candidate with ID " +++ AICandidateResponse.id item +++ " not found").
Proof.
  intros env gw batch batchIndex job weights model w object item Hmodel s
         Hobj Hin Hunknown.
  assert (Hitem : scoredAt (now (snd s)) batch item
            = Abrupt (Js.Error
                ("Candidate with ID " +++ AICandidateResponse.id item
                 +++ " not found"))).
  { unfold scoredAt.
    now rewrite (proj2 (findById_None (AICandidateResponse.id item) batch) Hunknown). }
  destruct (mapC_In_Abrupt _ _ item _ Hin Hitem) as [e He].
  destruct (mapC_Abrupt_from _ _ _ He) as [x [_ Hx]].
  destruct (scoredAt_Abrupt _ _ _ _ Hx) as [msg [-> Hmsg]].
  destruct (retry_trace (GenerateObject model (createScoringPrompt job batch weights))
              (generateObject_reply gw) (latency gw) w) as [n [Hn Ht]].
  fold (generateObject gw model (createScoringPrompt job batch weights)) in Ht.
  fold s in Ht.
  assert (Hs : scoreBatchWithStrategy env gw job batch structured weights w
               = (Normal (Failure (UNKNOWN_ERROR msg)), snd s)).
  { rewrite (structured_run env gw job batch weights model w Hmodel).
    cbv zeta. fold s. rewrite Hobj. unfold structuredOutcome.
    rewrite He. now rewrite mapError_plain_Error. }
  exists msg, (retrySchedule
            (GenerateObject model (createScoringPrompt job batch weights)) 0 n).
  split; [exact He|].
  split; [now apply mapError_plain_Error|].
  split; [exact Hs|].
  split; [rewrite processBatch_run, Hs; reflexivity|].
  split; [exact Ht|].
  split; [apply retrySchedule_object|].
  intros Hsingle. rewrite Hsingle in He. simpl in He. rewrite Hitem in He.
  simpl in He. inversion He. reflexivity.
Qed.

(** The theorem at the same response: the batch fails with UNKNOWN_ERROR
    and no fallback call is made. *)
Lemma unknown_id_is_unknown_error_without_fallback_witness :
  exists w1,
    processBatch strangerEnv strangerGateway twoCandidates 0 "Senior engineer"
      None start
    = (Normal (BatchFailure (UNKNOWN_ERROR "Candidate with ID zz not found") 0), w1)
    /\ fallbackAttempted (trace w1) = false.
Proof.
  destruct (unknown_id_is_unknown_error_without_fallback strangerEnv
              strangerGateway twoCandidates 0 "Senior engineer" None
              (openai "gpt-4.1-mini") start (mkAIScoreResponse [strangerItem])
              strangerItem eq_refl eq_refl (or_introl eq_refl))
    as [msg [t [_ [_ [_ [Hp [Ht [Hf Hmsg]]]]]]]].
  - intros c [<-|[<-|[]]]; discriminate.
  - eexists. split.
    + rewrite Hp. rewrite (Hmsg eq_refl). reflexivity.
    + rewrite Ht. exact Hf.
Defined.

(** ** The stable sort *)

Section StableSort.
Context {A : Type} (cmp : A -> A -> comparison).

(** [a] may stand before [b] in the sorted order. *)
Let mayPrecede (a b : A) : Prop := cmp a b <> Gt.

Hypothesis cmp_trans :
  forall a b c, cmp a b <> Gt -> cmp b c <> Gt -> cmp a c <> Gt.
Hypothesis cmp_flip : forall a b, cmp a b = Gt -> cmp b a <> Gt.

Lemma insert_Permutation (x : A) (l : list A) :
  Permutation (Js.insert cmp x l) (x :: l).
Proof.
  induction l as [|y l IH]; simpl.
  - apply Permutation_refl.
  - destruct (cmp x y); try apply Permutation_refl.
    eapply Permutation_trans; [apply perm_skip, IH|apply perm_swap].
Qed.

Lemma sort_Permutation (l : list A) : Permutation (Js.sort cmp l) l.
Proof.
  induction l as [|x l IH]; simpl.
  - apply Permutation_refl.
  - eapply Permutation_trans; [apply insert_Permutation|].
    now apply perm_skip.
Qed.

Lemma insert_sorted (x : A) (l : list A) :
  StronglySorted mayPrecede l -> StronglySorted mayPrecede (Js.insert cmp x l).
Proof.
  induction l as [|y l IH]; intros Hs; simpl.
  - constructor; constructor.
  - inversion Hs as [|? ? Hl Hy]; subst.
    assert (Hkeep : cmp x y <> Gt -> StronglySorted mayPrecede (x :: y :: l)).
    { intros Hxy. constructor; [exact Hs|].
      constructor; [exact Hxy|].
      eapply Forall_impl; [|exact Hy].
      intros z Hyz. unfold mayPrecede in *. eapply cmp_trans; eauto. }
    destruct (cmp x y) eqn:Hxy.
    + apply Hkeep. discriminate.
    + apply Hkeep. discriminate.
    + constructor; [now apply IH|].
      eapply Permutation_Forall.
      * apply Permutation_sym, insert_Permutation.
      * constructor; [now apply cmp_flip|exact Hy].
Qed.

Lemma sort_sorted (l : list A) : StronglySorted mayPrecede (Js.sort cmp l).
Proof.
  induction l as [|x l IH]; simpl.
  - constructor.
  - now apply insert_sorted.
Qed.



End StableSort.


(** *** The order of JavaScript numbers *)

Lemma signOfDifference_le (a b : Js.number) :
  Js.signOfDifference a b <> Gt <-> Js.num_leb a b = true.
Proof.
  destruct a as [p| |], b as [q| |]; simpl;
    try (split; [reflexivity|discriminate]);
    try (split; [intros H; now elim H|discriminate]).
  unfold Js.num_leb, Js.num_ltb. rewrite negb_involutive.
  rewrite Qle_bool_iff. symmetry. apply Qle_alt.
Qed.

Lemma num_leb_trans (a b c : Js.number) :
  Js.num_leb a b = true -> Js.num_leb b c = true -> Js.num_leb a c = true.
Proof.
  destruct a as [p| |], b as [q| |], c as [r| |];
    unfold Js.num_leb, Js.num_ltb; simpl;
    try reflexivity; try discriminate.
  rewrite !negb_involutive, !Qle_bool_iff. apply Qle_trans.
Qed.

Lemma signOfDifference_flip (a b : Js.number) :
  Js.signOfDifference a b = Gt -> Js.signOfDifference b a <> Gt.
Proof.
  destruct a as [p| |], b as [q| |]; simpl; try discriminate.
  intros H. rewrite <- Qcompare_antisym, H. discriminate.
Qed.


(** *** Ranking by score *)

Lemma byScoreDescending_le (a b : ScoredCandidate) :
  byScoreDescending a b <> Gt <-> Js.num_leb (score b) (score a) = true.
Proof. unfold byScoreDescending. apply signOfDifference_le. Qed.

Lemma byScoreDescending_trans (a b c : ScoredCandidate) :
  byScoreDescending a b <> Gt -> byScoreDescending b c <> Gt ->
  byScoreDescending a c <> Gt.
Proof.
  rewrite !byScoreDescending_le. intros H1 H2.
  eapply num_leb_trans; eauto.
Qed.

Lemma byScoreDescending_flip (a b : ScoredCandidate) :
  byScoreDescending a b = Gt -> byScoreDescending b a <> Gt.
Proof. unfold byScoreDescending. apply signOfDifference_flip. Qed.


(** ** The waves of batches *)

Lemma nth_error_indexed {A : Type} (l : list A) (a g : nat) :
  nth_error (combine (seq a (List.length l)) l) g
  = option_map (fun x => ((a + g)%nat, x)) (nth_error l g).
Proof.
  revert a g. induction l as [|x l IH]; intros a g; simpl.
  - destruct g; reflexivity.
  - destruct g as [|g]; simpl.
    + now rewrite Nat.add_0_r.
    + rewrite IH. destruct (nth_error l g); simpl; [|reflexivity].
      do 2 f_equal. lia.
Qed.

Lemma nth_error_mapi {A B : Type} (f : A -> Z -> B) (l : list A) (g : nat) :
  nth_error (mapi f l) g = option_map (fun x => f x (Z.of_nat g)) (nth_error l g).
Proof.
  unfold mapi. rewrite nth_error_map, nth_error_indexed.
  destruct (nth_error l g); reflexivity.
Qed.

Lemma length_mapi {A B : Type} (f : A -> Z -> B) (l : list A) :
  List.length (mapi f l) = List.length l.
Proof.
  unfold mapi. rewrite length_map, length_combine, length_seq. lia.
Qed.

Section Waves.
Context (env : Env) (batches : list (list Candidate)) (job : JobDescription)
        (weights : option PartialScoringWeights.t).

(** One wave: the results grow by the outcomes of the next (at most three)
    batches, in index order. *)
Lemma waves_step (fuel i : nat) (results : list BatchResult) (w : World) :
  (i < List.length batches)%nat ->
  exists (processed : list BatchResult) (w1 : World),
    waves (S fuel) env batches job weights (Z.of_nat i) results w
    = waves fuel env batches job weights (Z.of_nat (i + 3)) (results ++ processed) w1
    /\ List.length processed = Nat.min 3 (List.length batches - i)
    /\ (forall g r, nth_error processed g = Some r ->
          exists b, nth_error batches (i + g) = Some b
                    /\ outcomeOf env job weights (i + g) b r).
Proof.
  intros Hi. simpl waves.
  assert (E : (Z.of_nat i <? Z.of_nat (List.length batches)) = true)
    by (apply Z.ltb_lt; lia).
  rewrite E.
  assert (Hgroup : Js.slice batches (Z.of_nat i) (Z.of_nat i + 3)
                   = firstn 3 (skipn i batches)).
  { rewrite slice_nonneg by lia. rewrite Nat2Z.id. f_equal. lia. }
  rewrite Hgroup.
  set (group := firstn 3 (skipn i batches)).
  set (tasks := mapi _ group).
  unfold bind at 1. unfold allSettled at 1.
  set (runs := map (fun task => task (mkWorld (now w) 0 [])) tasks).
  set (w1 := mkWorld _ _ _).
  unfold bind at 1, Date_now at 1.
  set (processed := mapi _ (map fst runs)).
  replace (Z.of_nat i + 3) with (Z.of_nat (i + 3)) by lia.
  assert (Hlen : List.length processed = Nat.min 3 (List.length batches - i)).
  { unfold processed, runs, tasks, group.
    now rewrite length_mapi, !length_map, length_mapi, length_firstn, length_skipn. }
  assert (Hnth : forall g r, nth_error processed g = Some r ->
            exists b, nth_error batches (i + g) = Some b
                      /\ outcomeOf env job weights (i + g) b r).
  { intros g r Hg. unfold processed in Hg.
    rewrite nth_error_mapi in Hg. unfold runs in Hg.
    rewrite !nth_error_map in Hg. unfold tasks in Hg.
    rewrite nth_error_mapi in Hg.
    destruct (nth_error group g) as [b|] eqn:Hb; [|discriminate].
    simpl in Hg. inversion Hg as [Hr]. clear Hg.
    exists b. split.
    - unfold group in Hb.
      assert (Hg3 : (g < 3)%nat).
      { destruct (Nat.lt_ge_cases g 3) as [Hlt|Hge]; [exact Hlt|].
        assert (Hnone : nth_error (firstn 3 (skipn i batches)) g = None).
        { apply nth_error_None. rewrite length_firstn. lia. }
        congruence. }
      rewrite nth_error_firstn in Hb.
      assert (Hlt3 : (g <? 3)%nat = true) by (apply Nat.ltb_lt; exact Hg3).
      rewrite Hlt3 in Hb. now rewrite nth_error_skipn in Hb.
    - exists (now w), (now w1). unfold settled.
      replace (Z.of_nat (i + g)) with (Z.of_nat i + Z.of_nat g) by lia.
      reflexivity. }
  destruct (Z.of_nat (i + 3) <? Z.of_nat (List.length batches)).
  - unfold bind, delay. eexists processed, _. split; [reflexivity|].
    split; assumption.
  - unfold bind, ret. eexists processed, _. split; [reflexivity|].
    split; assumption.
Qed.

(** Results in batch order: the [k]-th result is the outcome of batch [k]. *)
Let inBatchOrder (results : list BatchResult) : Prop :=
  forall k r, nth_error results k = Some r ->
    exists b, nth_error batches k = Some b /\ outcomeOf env job weights k b r.

(** The loop returns, with one result per batch, in batch order, provided
    the fuel covers the waves still to run. *)
Lemma waves_run :
  forall (fuel i : nat) (results : list BatchResult) (w : World),
    List.length results = Nat.min i (List.length batches) ->
    (List.length batches <= 3 * fuel + i)%nat ->
    inBatchOrder results ->
    exists (rs : list BatchResult) (w' : World),
      waves fuel env batches job weights (Z.of_nat i) results w = (Normal rs, w')
      /\ List.length rs = List.length batches
      /\ inBatchOrder rs.
Proof.
  induction fuel as [|fuel IH]; intros i results w Hlen Hfuel Hord.
  - exists results, w. split; [reflexivity|]. split; [lia|exact Hord].
  - destruct (Nat.lt_ge_cases i (List.length batches)) as [Hi|Hi].
    + destruct (waves_step fuel i results w Hi)
        as [processed [w1 [Hstep [Hplen Hpnth]]]].
      rewrite Hstep. apply IH.
      * rewrite length_app, Hlen, Hplen. lia.
      * lia.
      * intros k r Hk.
        destruct (Nat.lt_ge_cases k (List.length results)) as [Hkl|Hkl].
        -- rewrite nth_error_app1 in Hk by exact Hkl. now apply Hord.
        -- rewrite nth_error_app2 in Hk by exact Hkl.
           destruct (Hpnth _ _ Hk) as [b [Hb Hout]].
           replace (i + (k - List.length results))%nat with k in * by lia.
           now exists b.
    + exists results, w. split.
      * simpl.
        assert (E : (Z.of_nat i <? Z.of_nat (List.length batches)) = false)
          by (apply Z.ltb_ge; lia).
        now rewrite E.
      * split; [lia|exact Hord].
Qed.

(** [collectBatchResults] returns one result per batch, in batch order. *)
Lemma collectBatchResults_run (w : World) :
  exists (results : list BatchResult) (w' : World),
    collectBatchResults env batches job weights w = (Normal results, w')
    /\ List.length results = List.length batches
    /\ inBatchOrder results.
Proof.
  unfold collectBatchResults.
  apply (waves_run (List.length batches) 0 [] w).
  - reflexivity.
  - lia.
  - intros k r Hk. destruct k; discriminate.
Qed.

End Waves.

(** A failure produced for a batch carries the index of that batch. *)
Lemma outcomeOf_failure_index (env : Env) (job : JobDescription)
    (weights : option PartialScoringWeights.t) (k : nat)
    (batch : list Candidate) (e : ScoringError) (idx : Z) :
  outcomeOf env job weights k batch (BatchFailure e idx) -> idx = Z.of_nat k.
Proof.
  intros [t0 [t1 H]]. rewrite processBatch_run in H.
  destruct (scoreBatchWithStrategy _ _ _ _ structured _ _) as [[r1|e1] w1];
    [|simpl in H; now inversion H].
  destruct (isParseFailure r1).
  - destruct (scoreBatchWithStrategy _ _ _ _ fallback _ _) as [[r2|e2] w2];
      [|simpl in H; now inversion H].
    destruct r2; simpl in H; now inversion H.
  - destruct r1; simpl in H; now inversion H.
Qed.

(** ** The entry point *)

(** [scoreCandidates] on a non-empty pool, once the batches have been made
    and their results collected. *)
Lemma scoreCandidates_run (env : Env) (job : JobDescription)
    (pool : list Candidate) (options : Options.t) (w w' : World)
    (batches : list (list Candidate)) (results : list BatchResult) :
  pool <> [] ->
  createBatches pool (batchSizeOf options) = Normal batches ->
  collectBatchResults env batches job (Options.weights options) w
  = (Normal results, w') ->
  scoreCandidates env job pool options w
  = (Normal
       (match scoredOf results with
        | [] => Failure
                  match errorsOf results with
                  | error :: _ => error
                  | [] => UNKNOWN_ERROR "No candidates could be scored"
                  end
        | _ :: _ => Success (sortAndLimitCandidates (scoredOf results)
                                                  (maxResultsOf options))
        end),
     w').
Proof.
  intros Hpool Hbatches Hcollect.
  unfold scoreCandidates.
  destruct pool as [|c pool]; [congruence|].
  simpl (List.length (c :: pool) =? 0)%nat. cbv iota.
  unfold batchSizeOf in Hbatches.
  unfold tryCatch, bind at 1, lift. rewrite Hbatches.
  unfold processParallelBatches, bind. rewrite Hcollect.
  unfold ret. simpl fst. simpl snd.
  destruct (scoredOf results); reflexivity.
Qed.

(** C7.  For the empty pool [scoreCandidates] returns success with the
    empty list and leaves the world as it found it: no batch is made, and
    no [generateObject] or [generateText] call (indeed no effect at all) is
    added to the trace. *)
Theorem empty_pool_succeeds_without_calls :
  forall (env : Env) (job : JobDescription) (options : Options.t) (w : World),
    scoreCandidates env job [] options w = (Normal (Success []), w)
    /\ llmCalls (trace (snd (scoreCandidates env job [] options w)))
       = llmCalls (trace w)
    /\ llmCalls (trace (snd (scoreCandidates env job [] options start))) = 0%nat.
Proof.
  intros env job options w. repeat split.
Qed.



(** The scenario of the specification: of three batches the middle one
    fails with NETWORK_ERROR after its retries; the result is the success
    of the two others, by descending score, b (batch 0) before e (batch 2)
    at equal score. *)
Example partial_success_scenario :
  exists w',
    scoreCandidates patchyEnv "Senior engineer" fiveCandidates batchesOfTwo start
    = (Normal (Success
         [mkScoredCandidate (sampleCandidate "b") (Js.of_Z 90)
            [Js.Str "relevant experience"] "Solid match for the role."
            [Js.Str "TypeScript"] 300;
          mkScoredCandidate (sampleCandidate "e") (Js.of_Z 90)
            [Js.Str "relevant experience"] "Solid match for the role."
            [Js.Str "TypeScript"] 450;
          mkScoredCandidate (sampleCandidate "a") (Js.of_Z 70)
            [Js.Str "relevant experience"] "Solid match for the role."
            [Js.Str "TypeScript"] 300]), w')
    /\ llmCalls (trace w') = 6%nat
    /\ now w' = 7080.
Proof. eexists. vm_compute. repeat split. Qed.

(** The first failure of the results heads the collected errors. *)
Lemma errorsOf_first_failure (results : list BatchResult) :
  forall (k : nat) (e : ScoringError) (idx : Z),
    nth_error results k = Some (BatchFailure e idx) ->
    (forall j, (j < k)%nat -> exists d, nth_error results j = Some (BatchSuccess d)) ->
    exists rest, errorsOf results = e :: rest.
Proof.
  induction results as [|r results IH]; intros k e idx Hk Hbefore.
  - destruct k; discriminate.
  - destruct k as [|k]; simpl in Hk.
    + inversion Hk; subst r. eexists. reflexivity.
    + destruct (Hbefore 0%nat ltac:(lia)) as [d Hd]. simpl in Hd.
      inversion Hd; subst r.
      destruct (IH k e idx Hk) as [rest Hrest].
      * intros j Hj. apply (Hbefore (S j)). lia.
      * exists rest. exact Hrest.
Qed.

Lemma errorsOf_nil (results : list BatchResult) :
  errorsOf results = [] <-> (forall r, In r results -> isSuccessful r = true).
Proof.
  induction results as [|r results IH].
  - split; [intros _ r []|reflexivity].
  - destruct r as [d|e idx].
    + change (errorsOf (BatchSuccess d :: results)) with (errorsOf results).
      rewrite IH. split.
      * intros H r [<-|Hin]; [reflexivity|now apply H].
      * intros H r Hin. apply H. now right.
    + change (errorsOf (BatchFailure e idx :: results))
        with (e :: errorsOf results).
      split; [discriminate|].
      intros H. specialize (H (BatchFailure e idx) (or_introl eq_refl)).
      discriminate.
Qed.

(** C6.  On a non-empty pool, the batch results are collected one per
    batch in batch order, a failure carrying the index of its batch.  When
    no candidate was scored ([scoredOf results] is empty), [scoreCandidates]
    returns failure with the first collected error, which is the error of
    the lowest-indexed failed batch, or with UNKNOWN_ERROR "No candidates
    could be scored" when no error was collected (every batch returned an
    empty success, or a negative batch size made no batch).  With a batch
    size of zero no batch can be made and the failure is an UNKNOWN_ERROR
    as well. *)
Theorem total_failure_surfaces_first_error :
  forall (env : Env) (job : JobDescription) (pool : list Candidate)
         (options : Options.t) (w : World),
    pool <> [] ->
    (batchSizeOf options = 0 ->
     scoreCandidates env job pool options w
     = (Normal (Failure (UNKNOWN_ERROR "Invalid array length")), w))
    /\ (batchSizeOf options <> 0 ->
        exists (batches : list (list Candidate)) (results : list BatchResult)
               (w' : World),
          createBatches pool (batchSizeOf options) = Normal batches
          /\ collectBatchResults env batches job (Options.weights options) w
             = (Normal results, w')
          /\ List.length results = List.length batches
          /\ (forall k r, nth_error results k = Some r ->
                exists b, nth_error batches k = Some b
                          /\ outcomeOf env job (Options.weights options) k b r)
          /\ (forall k e idx, nth_error results k = Some (BatchFailure e idx) ->
                              idx = Z.of_nat k)
          /\ (scoredOf results = [] ->
              scoreCandidates env job pool options w
              = (Normal (Failure match errorsOf results with
                                 | error :: _ => error
                                 | [] => UNKNOWN_ERROR "No candidates could be scored"
                                 end), w')
              /\ (forall k e idx,
                    nth_error results k = Some (BatchFailure e idx) ->
                    (forall j, (j < k)%nat ->
                               exists d, nth_error results j = Some (BatchSuccess d)) ->
                    scoreCandidates env job pool options w
                    = (Normal (Failure e), w'))
              /\ ((forall r, In r results -> isSuccessful r = true) ->
                  scoreCandidates env job pool options w
                  = (Normal (Failure (UNKNOWN_ERROR "No candidates could be scored")),
                     w')))).
Proof.
  intros env job pool options w Hpool. split.
  - intros Hzero. unfold scoreCandidates.
    destruct pool as [|c pool]; [congruence|].
    simpl (List.length (c :: pool) =? 0)%nat. cbv iota.
    unfold batchSizeOf in Hzero.
    unfold tryCatch, bind at 1, lift. rewrite Hzero. reflexivity.
  - intros Hnonzero.
    assert (Hbatches : exists batches,
              createBatches pool (batchSizeOf options) = Normal batches).
    { unfold createBatches.
      assert (E : (batchSizeOf options =? 0) = false) by (now apply Z.eqb_neq).
      rewrite E. eexists. reflexivity. }
    destruct Hbatches as [batches Hbatches].
    destruct (collectBatchResults_run env batches job (Options.weights options) w)
      as [results [w' [Hcollect [Hlen Hord]]]].
    exists batches, results, w'.
    split; [exact Hbatches|].
    split; [exact Hcollect|]. split; [exact Hlen|]. split; [exact Hord|].
    split.
    { intros k e idx Hk. destruct (Hord _ _ Hk) as [b [_ Hout]].
      eapply outcomeOf_failure_index; eauto. }
    intros Hnone.
    pose proof (scoreCandidates_run env job pool options w w' batches results
                  Hpool Hbatches Hcollect) as Hrun.
    rewrite Hnone in Hrun.
    split; [exact Hrun|]. split.
    + intros k e idx Hk Hbefore.
      destruct (errorsOf_first_failure results k e idx Hk Hbefore) as [rest Hrest].
      now rewrite Hrest in Hrun.
    + intros Hall. apply errorsOf_nil in Hall. now rewrite Hall in Hrun.
Qed.

(** The theorem at a pool whose only batch fails on an unknown id. *)
Lemma total_failure_surfaces_first_error_witness :
  exists w' : World,
    scoreCandidates strangerEnv "Senior engineer" twoCandidates noOptions start
    = (Normal (Failure (UNKNOWN_ERROR "Candidate with ID zz not found")), w').
Proof.
  destruct (total_failure_surfaces_first_error strangerEnv "Senior engineer"
              twoCandidates noOptions start) as [_ Hfail].
  - discriminate.
  - destruct Hfail as [batches [results [w' [Hbatches [Hcollect [_ [_ [_ Hnone]]]]]]]].
    + discriminate.
    + vm_compute in Hbatches. inversion Hbatches; subst batches. clear Hbatches.
      vm_compute in Hcollect. inversion Hcollect; subst results w'. clear Hcollect.
      destruct (Hnone eq_refl) as [Hrun _].
      eexists. exact Hrun.
Defined.

(** ** The validator of free-text responses *)

Lemma invalid_descriptive (msg : string) :
  Js.str_truthy msg = true ->
  isValid (invalid msg) = false
  /\ parsed (invalid msg) = None
  /\ exists m, Prompts.error (invalid msg) = Some m /\ Js.str_truthy m = true.
Proof. intros H. repeat split. now exists msg. Qed.

Lemma falsy_or_not_string (v : option Js.value) :
  negb (Js.truthy_opt v) || negb (Js.isString v) = negb (nonEmptyString v).
Proof.
  destruct v as [[|b|n|s|items|props]|]; simpl;
    try reflexivity; try apply orb_true_r.
  now rewrite orb_false_r.
Qed.

Lemma falsy_or_not_array (v : option Js.value) :
  negb (Js.truthy_opt v) || negb (Js.isArray v) = negb (Js.isArray v).
Proof.
  destruct v as [[|b|n|s|items|props]|]; simpl;
    try reflexivity; apply orb_true_r.
Qed.

Lemma not_number_or_out_of_range (v : option Js.value) :
  match v with
  | Some (Js.Number n) =>
      Js.num_ltb n (Js.of_Z 0) || Js.num_ltb (Js.of_Z 100) n
  | _ => true
  end = negb (inRange v).
Proof.
  destruct v as [[|b|n|s|items|props]|]; simpl; try reflexivity.
  unfold Js.num_leb. now rewrite negb_andb, !negb_involutive.
Qed.

(** One item: the loop body falls through exactly on a well-shaped item,
    and otherwise returns an invalid result or throws. *)
Lemma checkCandidate_spec (item : Js.value) :
  if wellShapedItem item then checkCandidate item = Normal None
  else (exists e, checkCandidate item = Abrupt e)
       \/ (exists msg, checkCandidate item = Normal (Some (invalid msg))
                       /\ Js.str_truthy msg = true).
Proof.
  destruct item as [|b|n|s|items|props]; simpl;
    try (right; eexists; split; reflexivity);
    try (left; eexists; reflexivity).
  unfold checkCandidate. simpl Js.get. unfold Js.bind.
  rewrite !falsy_or_not_string, not_number_or_out_of_range.
  destruct (nonEmptyString (Js.lookup "id" props)); simpl;
    [|right; eexists; split; reflexivity].
  destruct (inRange (Js.lookup "score" props)); simpl;
    [|right; eexists; split; reflexivity].
  destruct (Js.isArray (Js.lookup "highlights" props)); simpl;
    [|right; eexists; split; reflexivity].
  destruct (nonEmptyString (Js.lookup "reasoning" props)); simpl;
    [|right; eexists; split; reflexivity].
  destruct (Js.isArray (Js.lookup "matchedSkills" props)); simpl;
    [|right; eexists; split; reflexivity].
  reflexivity.
Qed.

Lemma checkCandidates_spec (items : list Js.value) (v : Js.value) :
  if forallb wellShapedItem items
  then checkCandidates items v = Normal (mkValidationResult true None (Some v))
  else (exists e, checkCandidates items v = Abrupt e)
       \/ (exists msg, checkCandidates items v = Normal (invalid msg)
                       /\ Js.str_truthy msg = true).
Proof.
  induction items as [|item items IH]; simpl; [reflexivity|].
  pose proof (checkCandidate_spec item) as Hitem.
  destruct (wellShapedItem item); simpl.
  - rewrite Hitem. simpl. exact IH.
  - destruct Hitem as [[e He]|[msg [Hm Ht]]].
    + left. exists e. now rewrite He.
    + right. exists msg. rewrite Hm. simpl. now split.
Qed.

Lemma validateParsed_spec (v : Js.value) :
  if wellShaped v
  then validateParsed v = Normal (mkValidationResult true None (Some v))
  else (exists e, validateParsed v = Abrupt e)
       \/ (exists msg, validateParsed v = Normal (invalid msg)
                       /\ Js.str_truthy msg = true).
Proof.
  destruct v as [|b|n|s|items|props]; simpl;
    try (right; eexists; split; reflexivity);
    try (left; eexists; reflexivity).
  unfold validateParsed. simpl Js.get. unfold Js.bind.
  rewrite falsy_or_not_array.
  destruct (Js.lookup "candidates" props) as [[|?|?|?|items|?]|]; simpl;
    try (right; eexists; split; reflexivity).
  apply checkCandidates_spec.
Qed.

(** What is thrown inside the validator is caught: the text [null] and an
    item [null] give invalid results, not exceptions. *)
Example null_is_invalid :
  validatePromptResponse (fun _ => Normal Js.Null) "null"
  = invalid "Invalid JSON: TypeError: Cannot read properties of null (reading 'candidates')"
  /\ validatePromptResponse
       (fun _ => Normal (Js.Object [("candidates", Js.Array [Js.Null])]))
       "a list with a null item"
     = invalid "Invalid JSON: TypeError: Cannot read properties of null (reading 'id')"
  /\ validatePromptResponse readsScores "scores"
     = mkValidationResult true None
         (Some (Js.Object
                  [("candidates", Js.Array [itemValue "a" 80; itemValue "b" 90])])).
Proof. repeat split. Qed.

(** C8 (amended).  For every text and whatever [JSON.parse] does with it,
    [validatePromptResponse] returns a result (what is thrown inside it is
    caught).  The result is valid exactly when the text parses to an object
    with a [candidates] array all of whose items are objects with a
    non-empty string [id], a number [score] in 0..100, an array
    [highlights], a non-empty string [reasoning] and an array
    [matchedSkills]; it then carries the parsed value itself and no error.
    Otherwise it is invalid, carries no parsed value, and carries a
    non-empty error message. *)
Theorem validatePromptResponse_exact :
  forall (JSON_parse : string -> completion Js.value) (response : string),
    let r := validatePromptResponse JSON_parse response in
    (isValid r = true
     <-> exists v, JSON_parse response = Normal v /\ wellShaped v = true)
    /\ (forall v, JSON_parse response = Normal v -> wellShaped v = true ->
                  r = mkValidationResult true None (Some v))
    /\ (isValid r = false ->
        parsed r = None
        /\ exists msg, Prompts.error r = Some msg /\ Js.str_truthy msg = true).
Proof.
  intros JSON_parse response r. subst r. unfold validatePromptResponse.
  destruct (JSON_parse response) as [v|e]; simpl.
  - pose proof (validateParsed_spec v) as Hv.
    destruct (wellShaped v) eqn:Hshape.
    + rewrite Hv. simpl. split; [|split].
      * split; [intros _; now exists v|reflexivity].
      * intros v' Hv' _. now inversion Hv'.
      * discriminate.
    + assert (Hno : forall v', Normal v = Normal v' -> wellShaped v' = true -> False).
      { intros v' Hv' Hw. inversion Hv'; subst. congruence. }
      destruct Hv as [[e He]|[msg [Hm Ht]]].
      * rewrite He. simpl. split; [|split].
        -- split; [discriminate|]. intros [v' [Hv' Hw]]. now elim (Hno v').
        -- intros v' Hv' Hw. now elim (Hno v').
        -- intros _. split; [reflexivity|]. eexists. split; reflexivity.
      * rewrite Hm. simpl. split; [|split].
        -- split; [discriminate|]. intros [v' [Hv' Hw]]. now elim (Hno v').
        -- intros v' Hv' Hw. now elim (Hno v').
        -- intros _. split; [reflexivity|]. now exists msg.
  - split; [|split].
    + split; [discriminate|]. intros [v [Hv _]]. discriminate.
    + intros v Hv. discriminate.
    + intros _. split; [reflexivity|]. eexists. split; reflexivity.
Qed.

(** C8 as stated fails: a response whose only item has a string [id]
    (the empty one), a score of 50, arrays of highlights and skills and a
    string reasoning has none of the listed defects, and is rejected. *)
Lemma empty_id_is_rejected_counterexample :
  readsAnonymous "r" = Normal anonymousResponse
  /\ specShaped anonymousResponse = true
  /\ validatePromptResponse readsAnonymous "r"
     = invalid "Each candidate must have valid 'id' string".
Proof. repeat split. Qed.

(** What the validator accepts has the typed view that the fallback
    strategy reads its items through. *)
Lemma wellShapedItem_typed (item : Js.value) :
  wellShapedItem item = true -> exists c, asAICandidateResponse item = Some c.
Proof.
  destruct item as [|b|n|s|items|props]; simpl; try discriminate.
  unfold nonEmptyString, inRange, Js.isArray.
  destruct (Js.lookup "id" props) as [[|?|?|sid|?|?]|]; simpl; try discriminate.
  destruct (Js.lookup "score" props) as [[|?|sc|?|?|?]|]; simpl;
    try (rewrite ?andb_false_r; discriminate).
  destruct (Js.lookup "highlights" props) as [[|?|?|?|hl|?]|]; simpl;
    try (rewrite ?andb_false_r; discriminate).
  destruct (Js.lookup "reasoning" props) as [[|?|?|sr|?|?]|]; simpl;
    try (rewrite ?andb_false_r; discriminate).
  destruct (Js.lookup "matchedSkills" props) as [[|?|?|?|ms|?]|]; simpl;
    try (rewrite ?andb_false_r; discriminate).
  intros _. eexists. reflexivity.
Qed.

Lemma validated_items_typed (JSON_parse : string -> completion Js.value)
    (text : string) :
  isValid (validatePromptResponse JSON_parse text) = true ->
  Forall (fun item => exists c, asAICandidateResponse item = Some c)
         (parsedCandidates (validatePromptResponse JSON_parse text)).
Proof.
  intros Hvalid. unfold validatePromptResponse in *.
  destruct (JSON_parse text) as [v|e]; simpl in *; [|discriminate].
  pose proof (validateParsed_spec v) as Hv.
  destruct (wellShaped v) eqn:Hshape.
  - rewrite Hv. unfold parsedCandidates. simpl.
    destruct v as [|b|n|s|items|props]; simpl in Hshape; try discriminate.
    destruct (Js.lookup "candidates" props) as [[|?|?|?|items|?]|];
      try discriminate.
    apply Forall_forall. intros item Hin. apply wellShapedItem_typed.
    rewrite forallb_forall in Hshape. now apply Hshape.
  - destruct Hv as [[e He]|[msg [Hm _]]].
    + rewrite He in Hvalid. discriminate.
    + rewrite Hm in Hvalid. discriminate.
Qed.

(** ** Weights at the request boundary *)

Import Schemas Route.

Lemma fraction_inUnit (path : list string) (n : Js.number) :
  fraction path (Some (Js.Number n))
  = if inUnit n then Valid n else Invalid path.
Proof. reflexivity. Qed.

Lemma optionalFraction_inUnit (path : list string) (n : Js.number) :
  optionalFraction path (Some (Js.Number n))
  = if inUnit n then Valid (Some n) else Invalid path.
Proof.
  unfold optionalFraction. rewrite fraction_inUnit.
  now destruct (inUnit n).
Qed.




(* ================================================================== *)
(** * Further properties *)
(* ================================================================== *)

(** ** Backoff *)

(** X1.  The delay [calculateDelay] computes lies between the base
    delay (1 s) and the cap (10 s) for every attempt number, never decreases
    from one attempt to a later one, doubles from 1 s over the attempts 0..3
    and is the cap from attempt 4 on. *)
Theorem calculateDelay_bounds :
  forall k : nat,
    1000 <= calculateDelay k <= 10000
    /\ (forall j, (k <= j)%nat -> calculateDelay k <= calculateDelay j)
    /\ ((k < 4)%nat -> calculateDelay k = 1000 * 2 ^ Z.of_nat k)
    /\ ((4 <= k)%nat -> calculateDelay k = 10000).
Proof.
  intros k. unfold calculateDelay. simpl baseDelay. simpl maxDelay.
  assert (Hpos : forall n : nat, 1 <= 2 ^ Z.of_nat n).
  { intros n. pose proof (Z.pow_pos_nonneg 2 (Z.of_nat n) ltac:(lia) ltac:(lia)). lia. }
  assert (Hmono : forall a b : nat, (a <= b)%nat -> 2 ^ Z.of_nat a <= 2 ^ Z.of_nat b).
  { intros a b Hab. apply Z.pow_le_mono_r; lia. }
  split; [|split; [|split]].
  - pose proof (Hpos k). lia.
  - intros j Hj. pose proof (Hmono k j Hj). lia.
  - intros Hk. pose proof (Hmono k 3%nat ltac:(lia)) as H3.
    change (2 ^ Z.of_nat 3) with 8 in H3. lia.
  - intros Hk. pose proof (Hmono 4%nat k Hk) as H4.
    change (2 ^ Z.of_nat 4) with 16 in H4. lia.
Qed.

Section RetryClock.
Context {T : Type} (op : GatewayOp) (reply : nat -> completion T) (lat : nat -> Z).
Context (maxRetries : nat).

Lemma retryLoop_clock :
  forall (remaining attempt : nat) (lastError : Js.thrown) (w : World),
    (attempt + remaining = S maxRetries)%nat ->
    (0 < remaining)%nat ->
    let w' := snd (retryLoop (gatewayCall op reply lat) maxRetries remaining
                             attempt lastError w) in
    let n := (calls w' - calls w)%nat in
    now w' = now w + latencies lat (calls w) n + pauses attempt n.
Proof.
  induction remaining as [|r IH]; intros attempt lastError w Hsum Hpos; [lia|].
  cbv zeta. rewrite retryLoop_step. cbv zeta.
  destruct (reply (calls w)) as [v|e] eqn:Hreply.
  - cbn [snd calls now].
    replace (S (calls w) - calls w)%nat with 1%nat by lia.
    cbn [latencies pauses]. lia.
  - destruct r as [|r'].
    + assert (Hlt : (attempt <? maxRetries)%nat = false) by (apply Nat.ltb_ge; lia).
      rewrite Hlt. cbn [retryLoop throw snd calls now].
      replace (S (calls w) - calls w)%nat with 1%nat by lia.
      cbn [latencies pauses]. lia.
    + assert (Hlt : (attempt <? maxRetries)%nat = true) by (apply Nat.ltb_lt; lia).
      rewrite Hlt. set (w2 := mkWorld _ _ _).
      pose proof (IH (S attempt) e w2 ltac:(lia) ltac:(lia)) as Hclock.
      cbv zeta in Hclock. rewrite Hclock.
      destruct (retryLoop_run op reply lat maxRetries (S r') (S attempt) e w2
                  ltac:(lia) ltac:(lia)) as [m [Hm [_ [_ [Hcalls2 _]]]]].
      rewrite Hcalls2. subst w2. cbn [calls now].
      replace (S (calls w) + m - S (calls w))%nat with m by lia.
      replace (S (calls w) + m - calls w)%nat with (S m) by lia.
      destruct m as [|m']; [lia|].
      cbn [latencies pauses]. lia.
Qed.
End RetryClock.

Lemma pauses_bound (n : nat) :
  (n <= 4)%nat -> 0 <= pauses 0 n <= 7000 /\ (n = 4%nat -> pauses 0 n = 7000).
Proof.
  intros Hn.
  destruct n as [|[|[|[|[|n]]]]]; try lia; vm_compute; split; try discriminate;
    try (split; discriminate); try reflexivity; intros; try reflexivity; try lia.
Qed.

(** X2.  The clock of a run of [retryWithBackoff] with the default
    configuration: the run makes [n] calls, 1 <= n <= 4, and ends
    after the latencies of those calls plus the pauses between them; the
    pauses total at most 7 s (1 + 2 + 4), exactly 7 s when the run is
    rejected, and nothing is awaited when the first call succeeds. *)
Theorem retryWithBackoff_elapsed :
  forall (T : Type) (op : GatewayOp) (reply : nat -> completion T)
         (lat : nat -> Z) (w : World),
    let run := retryWithBackoff (gatewayCall op reply lat)
                                (maxRetries DEFAULT_CONFIG) w in
    let n := (calls (snd run) - calls w)%nat in
    (1 <= n <= 4)%nat
    /\ now (snd run) = now w + latencies lat (calls w) n + pauses 0 n
    /\ 0 <= pauses 0 n <= 7000
    /\ (forall e, fst run = Abrupt e -> pauses 0 n = 7000)
    /\ (forall v, reply (calls w) = Normal v ->
                  now (snd run) = now w + lat (calls w)).
Proof.
  intros T op reply lat w run n.
  destruct (retryLoop_run op reply lat 3 4 0 Js.ThrownUndefined w
              ltac:(lia) ltac:(lia))
    as [m [Hm [Hres [_ [Hcalls [Hfail Hstop]]]]]].
  pose proof (retryLoop_clock op reply lat 3 4 0 Js.ThrownUndefined w
                ltac:(lia) ltac:(lia)) as Hclock.
  cbv zeta in Hclock.
  assert (Hn : n = m).
  { subst n run. unfold retryWithBackoff. simpl maxRetries. rewrite Hcalls. lia. }
  subst run. unfold retryWithBackoff in *. simpl maxRetries in *.
  fold n in Hclock. rewrite Hn in *.
  split; [lia|]. split; [exact Hclock|].
  split; [apply pauses_bound; lia|]. split.
  - intros e He. apply pauses_bound; [lia|].
    destruct (Nat.eq_dec m 4) as [E|NE]; [exact E|].
    destruct (Hstop ltac:(lia)) as [v Hv]. congruence.
  - intros v Hv.
    assert (m = 1%nat).
    { destruct (Nat.eq_dec m 1) as [E|NE]; [exact E|].
      destruct (Hfail 0%nat ltac:(lia)) as [e He].
      rewrite Nat.add_0_r in He. congruence. }
    rewrite Hclock, H. cbn [latencies pauses]. lia.
Qed.

(** ** Provider configuration and gateway calls *)

Lemma llmCalls_app (t1 t2 : list Event) :
  llmCalls (t1 ++ t2) = (llmCalls t1 + llmCalls t2)%nat.
Proof. unfold llmCalls. now rewrite filter_app, length_app. Qed.

Lemma llmCalls_retrySchedule (op : GatewayOp) (attempt n : nat) :
  llmCalls (retrySchedule op attempt n) = n.
Proof.
  revert attempt. induction n as [|n IH]; intros attempt; [reflexivity|].
  destruct n as [|n']; [reflexivity|].
  change (retrySchedule op attempt (S (S n')))
    with (Call op :: SetTimeout (calculateDelay attempt)
            :: retrySchedule op (S attempt) (S n')).
  change (llmCalls (Call op :: SetTimeout (calculateDelay attempt)
                      :: retrySchedule op (S attempt) (S n')))
    with (S (llmCalls (retrySchedule op (S attempt) (S n')))).
  now rewrite IH.
Qed.

(** The effects of one batch task: between one and eight gateway calls
    with a supported provider, none at all otherwise. *)
Lemma processBatch_calls (env : Env) (gw : Gateway) (batch : list Candidate)
    (batchIndex : Z) (job : JobDescription)
    (weights : option PartialScoringWeights.t) (w : World) :
  exists t : list Event,
    trace (snd (processBatch env gw batch batchIndex job weights w)) = trace w ++ t
    /\ (llmCalls t <= 8)%nat
    /\ (providerSupported env = true -> (1 <= llmCalls t)%nat)
    /\ (providerSupported env = false -> t = []).
Proof.
  rewrite processBatch_run. unfold providerSupported.
  destruct (getAIModel (getLLMProvider env)) as [model|err] eqn:Hmodel.
  - rewrite (structured_run env gw job batch weights model w Hmodel). cbv zeta.
    destruct (retry_trace (GenerateObject model (createScoringPrompt job batch weights))
                (generateObject_reply gw) (latency gw) w) as [n1 [Hn1 Ht1]].
    fold (generateObject gw model (createScoringPrompt job batch weights)) in Ht1.
    set (run1 := retryWithBackoff _ _ w) in *.
    destruct (isParseFailure _).
    + rewrite (fallback_run env gw job batch weights model (snd run1) Hmodel).
      cbv zeta.
      destruct (retry_trace (GenerateText model (createConstrainedPrompt job batch))
                  (generateText_reply gw) (latency gw) (snd run1)) as [n2 [Hn2 Ht2]].
      fold (generateText gw model (createConstrainedPrompt job batch)) in Ht2.
      set (run2 := retryWithBackoff _ _ (snd run1)) in *.
      cbn [snd]. rewrite Ht2, Ht1, <- app_assoc.
      eexists. split; [reflexivity|].
      rewrite llmCalls_app, !llmCalls_retrySchedule.
      split; [lia|]. split; [intros _; lia|discriminate].
    + cbn [snd]. rewrite Ht1. eexists. split; [reflexivity|].
      rewrite llmCalls_retrySchedule.
      split; [lia|]. split; [intros _; lia|discriminate].
  - rewrite (strategy_unsupported_provider env gw job batch structured weights
               err w Hmodel).
    cbn [snd]. exists []. rewrite app_nil_r.
    split; [reflexivity|]. split; [unfold llmCalls; simpl; lia|].
    split; [discriminate|reflexivity].
Qed.

Lemma llmCalls_concat_bounds (lo hi : nat) (ts : list (list Event)) :
  (forall t, In t ts -> (lo <= llmCalls t <= hi)%nat) ->
  (lo * List.length ts <= llmCalls (List.concat ts) <= hi * List.length ts)%nat.
Proof.
  induction ts as [|t ts IH]; intros H.
  - simpl. unfold llmCalls. simpl. lia.
  - simpl List.concat. rewrite llmCalls_app. simpl List.length.
    pose proof (H t (or_introl eq_refl)).
    assert (forall t', In t' ts -> (lo <= llmCalls t' <= hi)%nat)
      by (intros t' Hin; apply H; now right).
    specialize (IH H1). lia.
Qed.

Section WaveCalls.
Context (env : Env) (batches : list (list Candidate)) (job : JobDescription)
        (weights : option PartialScoringWeights.t).
Context (lo hi : nat).
Hypothesis task_calls :
  forall (k : Z) (batch : list Candidate) (t0 : Z),
    (lo <= llmCalls (trace (snd (processBatch env (gateway env k) batch k job
                                   weights (mkWorld t0 0 [])))) <= hi)%nat.

(** One wave adds the calls of its (at most three) tasks and, when more
    batches remain, one pause; pauses are not calls. *)
Lemma waves_step_calls (fuel i : nat) (results : list BatchResult) (w : World) :
  (i < List.length batches)%nat ->
  exists (results' : list BatchResult) (w1 : World) (added : nat),
    waves (S fuel) env batches job weights (Z.of_nat i) results w
    = waves fuel env batches job weights (Z.of_nat (i + 3)) results' w1
    /\ llmCalls (trace w1) = (llmCalls (trace w) + added)%nat
    /\ (lo * Nat.min 3 (List.length batches - i) <= added
        <= hi * Nat.min 3 (List.length batches - i))%nat.
Proof.
  intros Hi. simpl waves.
  assert (E : (Z.of_nat i <? Z.of_nat (List.length batches)) = true)
    by (apply Z.ltb_lt; lia).
  rewrite E.
  assert (Hgroup : Js.slice batches (Z.of_nat i) (Z.of_nat i + 3)
                   = firstn 3 (skipn i batches)).
  { rewrite slice_nonneg by lia. rewrite Nat2Z.id. f_equal. lia. }
  rewrite Hgroup.
  set (group := firstn 3 (skipn i batches)).
  set (tasks := mapi _ group).
  unfold bind at 1. unfold allSettled at 1.
  set (runs := map (fun task => task (mkWorld (now w) 0 [])) tasks).
  set (ts := map (fun r => trace (snd r)) runs).
  set (w1 := mkWorld _ _ _).
  unfold bind at 1, Date_now at 1.
  set (processed := mapi _ (map fst runs)).
  replace (Z.of_nat i + 3) with (Z.of_nat (i + 3)) by lia.
  assert (Hlen : List.length ts = Nat.min 3 (List.length batches - i)).
  { unfold ts, runs, tasks, group.
    now rewrite !length_map, length_mapi, length_firstn, length_skipn. }
  assert (Hts : forall t, In t ts -> (lo <= llmCalls t <= hi)%nat).
  { intros t Hin. unfold ts, runs in Hin. rewrite map_map in Hin.
    apply in_map_iff in Hin. destruct Hin as [task [<- Htask]].
    unfold tasks, mapi in Htask. apply in_map_iff in Htask.
    destruct Htask as [[g b] [<- _]]. apply task_calls. }
  pose proof (llmCalls_concat_bounds lo hi ts Hts) as Hbound.
  rewrite Hlen in Hbound.
  assert (Hw1 : llmCalls (trace w1) = (llmCalls (trace w) + llmCalls (List.concat ts))%nat).
  { unfold w1. cbn [trace]. now rewrite llmCalls_app. }
  destruct (Z.of_nat (i + 3) <? Z.of_nat (List.length batches)).
  - unfold bind, delay. eexists (_ ++ processed), _, (llmCalls (List.concat ts)).
    split; [reflexivity|]. split; [|exact Hbound].
    cbn [trace]. rewrite llmCalls_app, Hw1. unfold llmCalls at 3. simpl. lia.
  - unfold bind, ret. eexists (_ ++ processed), _, (llmCalls (List.concat ts)).
    split; [reflexivity|]. split; [exact Hw1|exact Hbound].
Qed.

Lemma waves_calls :
  forall (fuel i : nat) (results : list BatchResult) (w : World),
    (List.length batches <= 3 * fuel + i)%nat ->
    exists added : nat,
      llmCalls (trace (snd (waves fuel env batches job weights (Z.of_nat i)
                                  results w)))
      = (llmCalls (trace w) + added)%nat
      /\ (lo * (List.length batches - i) <= added
          <= hi * (List.length batches - i))%nat.
Proof.
  induction fuel as [|fuel IH]; intros i results w Hfuel.
  - exists 0%nat. simpl. replace (List.length batches - i)%nat with 0%nat by lia.
    lia.
  - destruct (Nat.lt_ge_cases i (List.length batches)) as [Hi|Hi].
    + destruct (waves_step_calls fuel i results w Hi)
        as [results' [w1 [a1 [Hstep [Hw1 Ha1]]]]].
      rewrite Hstep.
      destruct (IH (i + 3)%nat results' w1 ltac:(lia)) as [a2 [Hw2 Ha2]].
      exists (a1 + a2)%nat. rewrite Hw2, Hw1. split; [lia|].
      destruct (Nat.le_ge_cases 3 (List.length batches - i)) as [H3|H3].
      * rewrite Nat.min_l in Ha1 by exact H3.
        replace (List.length batches - i)%nat
          with (3 + (List.length batches - (i + 3)))%nat by lia.
        lia.
      * rewrite Nat.min_r in Ha1 by exact H3.
        replace (List.length batches - (i + 3))%nat with 0%nat in Ha2 by lia.
        lia.
    + exists 0%nat. simpl.
      assert (E : (Z.of_nat i <? Z.of_nat (List.length batches)) = false)
        by (apply Z.ltb_ge; lia).
      rewrite E. simpl.
      replace (List.length batches - i)%nat with 0%nat by lia. lia.
Qed.

End WaveCalls.

Lemma providerSupported_false (env : Env) :
  providerSupported env = false ->
  exists p,
    LLM_PROVIDER env = Some p
    /\ p <> EmptyString /\ p <> "openai" /\ p <> "anthropic"
    /\ getAIModel (getLLMProvider env)
       = Abrupt (Js.Error ("Unsupported LLM provider: " +++ p)).
Proof.
  unfold providerSupported, getAIModel, getLLMProvider, orDefault.
  cbn [LLMProvider.name LLMProvider.model].
  destruct (LLM_PROVIDER env) as [p|]; [|discriminate].
  destruct p as [|c p]; [discriminate|]. cbn [Js.str_truthy].
  destruct (String.eqb (String c p) "openai") eqn:E1; [discriminate|].
  destruct (String.eqb (String c p) "anthropic") eqn:E2; [discriminate|].
  intros _. exists (String c p).
  apply String.eqb_neq in E1. apply String.eqb_neq in E2.
  repeat split; try assumption. discriminate.
Qed.

Lemma providerSupported_true (env : Env) :
  providerSupported env = true <->
  (LLM_PROVIDER env = None \/ LLM_PROVIDER env = Some EmptyString
   \/ LLM_PROVIDER env = Some "openai" \/ LLM_PROVIDER env = Some "anthropic").
Proof.
  split.
  - intros H. destruct (LLM_PROVIDER env) as [p|] eqn:Hp; [|now left].
    destruct (string_dec p EmptyString) as [->|N0]; [right; now left|].
    destruct (string_dec p "openai") as [->|N1]; [right; right; now left|].
    destruct (string_dec p "anthropic") as [->|N2]; [right; right; now right|].
    exfalso. revert H.
    unfold providerSupported, getAIModel, getLLMProvider, orDefault.
    cbn [LLMProvider.name LLMProvider.model]. rewrite Hp.
    destruct p as [|c p]; [congruence|]. cbn [Js.str_truthy].
    apply String.eqb_neq in N1. apply String.eqb_neq in N2.
    rewrite N1, N2. discriminate.
  - unfold providerSupported, getAIModel, getLLMProvider, orDefault.
    intros [H|[H|[H|H]]]; rewrite H; reflexivity.
Qed.

(** X3.  The provider is supported exactly when LLM_PROVIDER is
    unset, empty, "openai" or "anthropic".  With a supported provider a
    strategy and a batch task always return a result; with any other value
    both are rejected with [Error("Unsupported LLM provider: <value>")]
    before any effect: the world is left as it was. *)
Theorem batch_rejects_iff_provider_unsupported :
  forall (env : Env) (gw : Gateway) (batch : list Candidate) (batchIndex : Z)
         (job : JobDescription) (strategy : ScoringStrategy)
         (weights : option PartialScoringWeights.t) (w : World),
    (providerSupported env = true <->
     (LLM_PROVIDER env = None \/ LLM_PROVIDER env = Some EmptyString
      \/ LLM_PROVIDER env = Some "openai" \/ LLM_PROVIDER env = Some "anthropic"))
    /\ (providerSupported env = true ->
        (exists r w', scoreBatchWithStrategy env gw job batch strategy weights w
                      = (Normal r, w'))
        /\ (exists r w', processBatch env gw batch batchIndex job weights w
                         = (Normal r, w')))
    /\ (providerSupported env = false ->
        exists p,
          LLM_PROVIDER env = Some p
          /\ scoreBatchWithStrategy env gw job batch strategy weights w
             = (Abrupt (Js.Error ("Unsupported LLM provider: " +++ p)), w)
          /\ processBatch env gw batch batchIndex job weights w
             = (Abrupt (Js.Error ("Unsupported LLM provider: " +++ p)), w)).
Proof.
  intros env gw batch batchIndex job strategy weights w.
  split; [apply providerSupported_true|]. split.
  - unfold providerSupported.
    destruct (getAIModel (getLLMProvider env)) as [model|err] eqn:Hmodel;
      [intros _|discriminate].
    assert (Hany : forall st w0, exists r w',
               scoreBatchWithStrategy env gw job batch st weights w0 = (Normal r, w')).
    { intros st w0. destruct st.
      - rewrite (structured_run env gw job batch weights model w0 Hmodel).
        eexists. eexists. reflexivity.
      - rewrite (fallback_run env gw job batch weights model w0 Hmodel).
        eexists. eexists. reflexivity. }
    split; [apply Hany|].
    rewrite processBatch_run.
    destruct (Hany structured w) as [r1 [w1 H1]]. rewrite H1.
    destruct (isParseFailure r1).
    + destruct (Hany fallback w1) as [r2 [w2 H2]]. rewrite H2.
      eexists. eexists. reflexivity.
    + eexists. eexists. reflexivity.
  - intros Hno. destruct (providerSupported_false env Hno) as [p [Hp [_ [_ [_ Hmodel]]]]].
    exists p. split; [exact Hp|].
    assert (Hany : forall st, scoreBatchWithStrategy env gw job batch st weights w
                              = (Abrupt (Js.Error ("Unsupported LLM provider: " +++ p)), w))
      by (intros st; now apply strategy_unsupported_provider).
    split; [apply Hany|].
    rewrite processBatch_run, (Hany structured). reflexivity.
Qed.

Lemma createBatches_Normal {T : Type} (items : list T) (B : Z) :
  B <> 0 ->
  exists batches, createBatches items B = Normal batches.
Proof.
  intros HB. unfold createBatches.
  assert (E : (B =? 0) = false) by (now apply Z.eqb_neq).
  rewrite E. eexists. reflexivity.
Qed.

Lemma createBatches_nonpositive {T : Type} (items : list T) (B : Z) :
  B < 0 -> createBatches items B = Normal [].
Proof.
  intros HB. unfold createBatches.
  assert (E : (B =? 0) = false) by (apply Z.eqb_neq; lia).
  rewrite E. unfold Array_from.
  assert (Hc : ceilDiv (Z.of_nat (List.length items)) B <= 0).
  { unfold ceilDiv.
    assert (0 <= - Z.of_nat (List.length items) / B).
    { pose proof (Z.div_mod (- Z.of_nat (List.length items)) B ltac:(lia)).
      pose proof (Z.mod_neg_bound (- Z.of_nat (List.length items)) B HB).
      nia. }
    lia. }
  replace (Z.to_nat (ceilDiv (Z.of_nat (List.length items)) B)) with 0%nat by lia.
  reflexivity.
Qed.

(** The world a run of [scoreCandidates] on a non-empty pool leaves. *)
Lemma scoreCandidates_world (env : Env) (job : JobDescription)
    (pool : list Candidate) (options : Options.t) (w : World)
    (batches : list (list Candidate)) :
  pool <> [] ->
  createBatches pool (batchSizeOf options) = Normal batches ->
  exists r,
    scoreCandidates env job pool options w
    = (Normal r,
       snd (waves (List.length batches) env batches job (Options.weights options)
                  0 [] w)).
Proof.
  intros Hpool Hb.
  destruct (collectBatchResults_run env batches job (Options.weights options) w)
    as [results [w' [Hcollect _]]].
  rewrite (scoreCandidates_run env job pool options w w' batches results
             Hpool Hb Hcollect).
  unfold collectBatchResults in Hcollect. rewrite Hcollect.
  eexists. reflexivity.
Qed.

(** [scoreCandidates] settles with a result, whatever happens inside. *)
Lemma scoreCandidates_returns (env : Env) (job : JobDescription)
    (pool : list Candidate) (options : Options.t) (w : World) :
  exists (r : ScoringResult) (w' : World),
    scoreCandidates env job pool options w = (Normal r, w').
Proof.
  destruct pool as [|c pool].
  - eexists. eexists. reflexivity.
  - destruct (Z.eq_dec (batchSizeOf options) 0) as [E|NE].
    + unfold scoreCandidates.
      simpl (List.length (c :: pool) =? 0)%nat. cbv iota.
      unfold batchSizeOf in E. unfold tryCatch, bind at 1, lift. rewrite E.
      eexists. eexists. reflexivity.
    + destruct (createBatches_Normal (c :: pool) _ NE) as [batches Hb].
      destruct (scoreCandidates_world env job (c :: pool) options w batches
                  ltac:(discriminate) Hb) as [r Hr].
      rewrite Hr. eexists. eexists. reflexivity.
Qed.

(** X4.  With a positive batch size, a run of [scoreCandidates]
    makes at most eight gateway calls per batch (four attempts of each
    strategy); with a supported provider it makes at least one call per
    batch, and with an unsupported one it makes none. *)
Theorem scoreCandidates_call_budget :
  forall (env : Env) (job : JobDescription) (pool : list Candidate)
         (options : Options.t) (w : World),
    0 < batchSizeOf options ->
    exists (batches : list (list Candidate)),
      createBatches pool (batchSizeOf options) = Normal batches
      /\ let w' := snd (scoreCandidates env job pool options w) in
         (llmCalls (trace w') <= llmCalls (trace w) + 8 * List.length batches)%nat
         /\ (providerSupported env = true ->
             (llmCalls (trace w) + List.length batches <= llmCalls (trace w'))%nat)
         /\ (providerSupported env = false ->
             llmCalls (trace w') = llmCalls (trace w)).
Proof.
  intros env job pool options w HB.
  destruct (createBatches_Normal pool (batchSizeOf options) ltac:(lia))
    as [batches Hb].
  exists batches. split; [exact Hb|]. cbv zeta.
  destruct pool as [|c pool].
  - assert (batches = []).
    { unfold createBatches in Hb.
      assert (E : (batchSizeOf options =? 0) = false) by (apply Z.eqb_neq; lia).
      rewrite E in Hb. injection Hb as <-. reflexivity. }
    subst batches. simpl. lia.
  - destruct (scoreCandidates_world env job (c :: pool) options w batches
                ltac:(discriminate) Hb) as [r Hr].
    rewrite Hr. cbn [snd].
    assert (Hgen : forall lo hi,
      (forall k batch t0,
         (lo <= llmCalls (trace (snd (processBatch env (gateway env k) batch k job
                                        (Options.weights options) (mkWorld t0 0 []))))
          <= hi)%nat) ->
      exists added,
        llmCalls (trace (snd (waves (List.length batches) env batches job
                                    (Options.weights options) 0 [] w)))
        = (llmCalls (trace w) + added)%nat
        /\ (lo * List.length batches <= added <= hi * List.length batches)%nat).
    { intros lo hi Htask.
      destruct (waves_calls env batches job (Options.weights options) lo hi Htask
                  (List.length batches) 0 [] w ltac:(lia)) as [added [Ha Hb']].
      exists added. rewrite Nat.sub_0_r in Hb'. split; assumption. }
    assert (Htask : forall k batch t0,
      exists t, trace (snd (processBatch env (gateway env k) batch k job
                              (Options.weights options) (mkWorld t0 0 []))) = t
                /\ (llmCalls t <= 8)%nat
                /\ (providerSupported env = true -> (1 <= llmCalls t)%nat)
                /\ (providerSupported env = false -> t = [])).
    { intros k batch t0.
      destruct (processBatch_calls env (gateway env k) batch k job
                  (Options.weights options) (mkWorld t0 0 [])) as [t [Ht H]].
      exists t. split; [exact Ht|exact H]. }
    split; [|split].
    + destruct (Hgen 0%nat 8%nat) as [added [Ha Hb']].
      { intros k batch t0. destruct (Htask k batch t0) as [t [-> [H8 _]]]. lia. }
      rewrite Ha. lia.
    + intros Hs. destruct (Hgen 1%nat 8%nat) as [added [Ha Hb']].
      { intros k batch t0. destruct (Htask k batch t0) as [t [-> [H8 [H1 _]]]].
        specialize (H1 Hs). lia. }
      rewrite Ha. lia.
    + intros Hs. destruct (Hgen 0%nat 0%nat) as [added [Ha Hb']].
      { intros k batch t0. destruct (Htask k batch t0) as [t [-> [_ [_ H0]]]].
        rewrite (H0 Hs). unfold llmCalls. simpl. lia. }
      rewrite Ha. lia.
Qed.

(** The theorem at the two sample candidates: one batch, one call. *)
Lemma scoreCandidates_call_budget_witness :
  (1 <= llmCalls (trace (snd (scoreCandidates scoringEnv "Senior engineer"
                                twoCandidates noOptions start))) <= 8)%nat.
Proof.
  destruct (scoreCandidates_call_budget scoringEnv "Senior engineer"
              twoCandidates noOptions start ltac:(reflexivity))
    as [batches [Hb H]].
  vm_compute in Hb. injection Hb as <-. cbv zeta in H.
  destruct H as [Hhi [Hlo _]]. specialize (Hlo eq_refl).
  change (llmCalls (trace start)) with 0%nat in Hhi, Hlo.
  simpl List.length in Hhi, Hlo. lia.
Defined.

Lemma slice_incl {A : Type} (l : list A) (s e : Z) (x : A) :
  In x (Js.slice l s e) -> In x l.
Proof.
  unfold Js.slice. intros H.
  set (n := Z.to_nat _) in H. set (from := Z.to_nat _) in H.
  rewrite <- (firstn_skipn from l). apply in_or_app. right.
  rewrite <- (firstn_skipn n (skipn from l)). apply in_or_app. now left.
Qed.

Lemma createBatches_incl {T : Type} (items : list T) (B : Z)
    (batches : list (list T)) (b : list T) (x : T) :
  createBatches items B = Normal batches -> In b batches -> In x b -> In x items.
Proof.
  unfold createBatches. destruct (B =? 0).
  - destruct (Z.of_nat (List.length items) =? 0); [|discriminate].
    intros H. injection H as <-. intros [].
  - intros H. injection H as <-. unfold Array_from.
    intros Hb Hx. apply in_map_iff in Hb. destruct Hb as [i [<- _]].
    eapply slice_incl; eauto.
Qed.

Lemma createBatches_count {T : Type} (items : list T) (B : Z)
    (batches : list (list T)) :
  0 < B ->
  createBatches items B = Normal batches ->
  (forall b, In b batches -> b <> [])
  /\ (List.length batches <= List.length items)%nat
  /\ (items <> [] -> (1 <= List.length batches)%nat).
Proof.
  intros HB Hb. rewrite createBatches_chunks in Hb by exact HB.
  injection Hb as <-.
  pose proof (ceilDiv_spec (Z.of_nat (List.length items)) B HB) as Hceil.
  set (N := List.length items) in *.
  set (k := Z.to_nat (ceilDiv (Z.of_nat N) B)) in *.
  assert (Hk : Z.of_nat k = ceilDiv (Z.of_nat N) B).
  { unfold k. apply Z2Nat.id.
    destruct (Z_lt_le_dec (ceilDiv (Z.of_nat N) B) 0) as [Hneg|Hpos];
      [|assumption].
    pose proof (Z.mul_le_mono_nonneg_l (ceilDiv (Z.of_nat N) B) (-1) B
                  ltac:(lia) ltac:(lia)).
    lia. }
  rewrite <- Hk in Hceil.
  split; [|split].
  - intros b Hin. apply in_map_iff in Hin. destruct Hin as [i [<- Hi]].
    apply in_seq in Hi.
    assert (Hlt : (i * Z.to_nat B < N)%nat) by nia.
    intros Hnil. apply (f_equal (@List.length T)) in Hnil.
    rewrite length_firstn, length_skipn in Hnil. simpl in Hnil.
    fold N in Hnil. lia.
  - rewrite length_map, length_seq. nia.
  - intros Hne. rewrite length_map, length_seq.
    assert (0 < N)%nat.
    { unfold N. destruct items; [congruence|simpl; lia]. }
    nia.
Qed.

(** X5.  [createBatches] outside the ordinary case: a batch size
    of zero gives no batch for an empty list and a RangeError otherwise; a
    negative batch size gives no batch at all, whatever the list; for a
    positive batch size no batch is empty, there are no more batches than
    items, and there is no batch exactly when there is no item. *)
Theorem createBatches_edge_cases :
  forall (T : Type) (items : list T) (B : Z),
    (B = 0 -> items = [] -> createBatches items B = Normal [])
    /\ (B = 0 -> items <> [] ->
        createBatches items B = Abrupt (Js.RangeError "Invalid array length"))
    /\ (B < 0 -> createBatches items B = Normal [])
    /\ (0 < B ->
        exists batches,
          createBatches items B = Normal batches
          /\ (forall b, In b batches -> b <> [])
          /\ (List.length batches <= List.length items)%nat
          /\ (batches = [] <-> items = [])).
Proof.
  intros T items B. split; [|split; [|split]].
  - intros -> ->. reflexivity.
  - intros -> Hne. destruct items; [congruence|reflexivity].
  - apply createBatches_nonpositive.
  - intros HB.
    destruct (createBatches_Normal items B ltac:(lia)) as [batches Hb].
    destruct (createBatches_count items B batches HB Hb) as [Hne [Hlen Hone]].
    exists batches. split; [exact Hb|]. split; [exact Hne|]. split; [exact Hlen|].
    split.
    + intros ->. destruct items as [|x items]; [reflexivity|].
      specialize (Hone ltac:(discriminate)). simpl in Hone. lia.
    + intros ->. destruct batches; [reflexivity|simpl in Hlen; lia].
Qed.

Lemma all_failures (results : list BatchResult) (e : ScoringError) :
  (forall k r, nth_error results k = Some r -> exists idx, r = BatchFailure e idx) ->
  scoredOf results = []
  /\ (results <> [] -> exists rest, errorsOf results = e :: rest).
Proof.
  induction results as [|r results IH]; intros H.
  - split; [reflexivity|congruence].
  - destruct (H 0%nat r eq_refl) as [idx ->].
    destruct IH as [IH1 _].
    { intros k r Hk. apply (H (S k)). exact Hk. }
    split.
    + change (scoredOf (BatchFailure e idx :: results)) with (scoredOf results).
      exact IH1.
    + intros _. eexists.
      change (errorsOf (BatchFailure e idx :: results))
        with (e :: errorsOf results).
      reflexivity.
Qed.

(** X6.  With an unsupported provider, every run of
    [scoreCandidates] on a non-empty pool with a positive batch size returns
    the failure UNKNOWN_ERROR "Unsupported LLM provider: <value>", the error
    of the first batch, without a single gateway call. *)
Theorem unsupported_provider_fails_every_run :
  forall (env : Env) (job : JobDescription) (pool : list Candidate)
         (options : Options.t) (w : World),
    providerSupported env = false ->
    pool <> [] ->
    0 < batchSizeOf options ->
    exists (p : string) (w' : World),
      LLM_PROVIDER env = Some p
      /\ scoreCandidates env job pool options w
         = (Normal (Failure (UNKNOWN_ERROR ("Unsupported LLM provider: " +++ p))), w')
      /\ llmCalls (trace w') = llmCalls (trace w).
Proof.
  intros env job pool options w Hno Hpool HB.
  destruct (providerSupported_false env Hno) as [p [Hp [Hp0 [_ [_ Hmodel]]]]].
  destruct (createBatches_Normal pool (batchSizeOf options) ltac:(lia))
    as [batches Hb].
  destruct (createBatches_count pool _ batches HB Hb) as [_ [_ Hone]].
  specialize (Hone Hpool).
  destruct (collectBatchResults_run env batches job (Options.weights options) w)
    as [results [w' [Hcollect [Hlen Hord]]]].
  exists p, w'. split; [exact Hp|].
  assert (Hall : forall k r, nth_error results k = Some r ->
            exists idx,
              r = BatchFailure (UNKNOWN_ERROR ("Unsupported LLM provider: " +++ p)) idx).
  { intros k r Hk. destruct (Hord k r Hk) as [b [_ [t0 [t1 Hr]]]].
    rewrite processBatch_run in Hr.
    rewrite (strategy_unsupported_provider env _ job b structured _ _ _ Hmodel) in Hr.
    cbn [fst settled] in Hr.
    rewrite mapError_plain_Error in Hr by reflexivity.
    eexists. exact Hr. }
  destruct (all_failures results _ Hall) as [Hnone Hfirst].
  destruct Hfirst as [rest Hrest].
  { intros ->. simpl in Hlen. lia. }
  split.
  - rewrite (scoreCandidates_run env job pool options w w' batches results
               Hpool Hb Hcollect).
    rewrite Hnone, Hrest. reflexivity.
  - assert (Htask : forall k batch t0,
      (0 <= llmCalls (trace (snd (processBatch env (gateway env k) batch k job
                                     (Options.weights options) (mkWorld t0 0 []))))
       <= 0)%nat).
    { intros k batch t0.
      destruct (processBatch_calls env (gateway env k) batch k job
                  (Options.weights options) (mkWorld t0 0 []))
        as [t [Ht [_ [_ H0]]]].
      rewrite Ht, (H0 Hno). unfold llmCalls. simpl. lia. }
    destruct (waves_calls env batches job (Options.weights options) 0%nat 0%nat
                Htask (List.length batches) 0 [] w ltac:(lia)) as [added [Ha Hb']].
    unfold collectBatchResults in Hcollect.
    change (Z.of_nat 0) with 0 in Ha. rewrite Hcollect in Ha. cbn [snd] in Ha.
    lia.
Qed.

(** The theorem at a provider called local. *)
Lemma unsupported_provider_fails_every_run_witness :
  exists w' : World,
    scoreCandidates localEnv "Senior engineer" twoCandidates noOptions start
    = (Normal (Failure (UNKNOWN_ERROR "Unsupported LLM provider: local")), w').
Proof.
  destruct (unsupported_provider_fails_every_run localEnv "Senior engineer"
              twoCandidates noOptions start eq_refl ltac:(discriminate)
              ltac:(reflexivity)) as [p [w' [Hp [Hrun _]]]].
  injection Hp as <-. exists w'. exact Hrun.
Defined.

Lemma scoredAt_wellScored (t : Z) (batch : list Candidate)
    (item : AICandidateResponse.t) (sc : ScoredCandidate) :
  scoredAt t batch item = Normal sc -> wellScored batch sc.
Proof.
  unfold scoredAt, wellScored.
  destruct (findById (AICandidateResponse.id item) batch) as [c|] eqn:Hfind;
    [|discriminate].
  apply findById_Some in Hfind. destruct Hfind as [Hin _].
  unfold createCandidateScore.
  destruct (Js.num_ltb (AICandidateResponse.score item) (Js.of_Z 0)) eqn:Hlo;
    [discriminate|].
  destruct (Js.num_ltb (Js.of_Z 100) (AICandidateResponse.score item)) eqn:Hhi;
    [discriminate|].
  simpl. intros H. injection H as <-. cbn [candidate score reasoning].
  unfold Js.num_leb. rewrite Hlo, Hhi.
  repeat split; try assumption.
  destruct (Js.str_truthy (AICandidateResponse.reasoning item)) eqn:Hr;
    [exact Hr|reflexivity].
Qed.

Lemma mapC_Forall {A B : Type} (f : A -> completion B) (P : B -> Prop)
    (l : list A) (ys : list B) :
  (forall x y, f x = Normal y -> P y) ->
  mapC f l = Normal ys -> Forall P ys.
Proof.
  intros Hf H. apply mapC_Normal in H.
  induction H as [|x y l ys Hxy _ IH]; constructor; eauto.
Qed.

Lemma strategy_success_wellScored (env : Env) (gw : Gateway)
    (job : JobDescription) (batch : list Candidate) (strategy : ScoringStrategy)
    (weights : option PartialScoringWeights.t) (w w' : World)
    (data : list ScoredCandidate) :
  scoreBatchWithStrategy env gw job batch strategy weights w
  = (Normal (Success data), w') ->
  Forall (wellScored batch) data.
Proof.
  destruct (getAIModel (getLLMProvider env)) as [model|err] eqn:Hmodel.
  - destruct strategy.
    + rewrite (structured_run env gw job batch weights model w Hmodel). cbv zeta.
      intros H. injection H as H _. revert H.
      unfold structuredOutcome.
      destruct (fst _) as [object|e]; [|discriminate].
      destruct (mapC _ _) as [ys|e] eqn:Hmap; [|discriminate].
      intros H. injection H as <-.
      eapply mapC_Forall; [|exact Hmap].
      intros x y. apply scoredAt_wellScored.
    + rewrite (fallback_run env gw job batch weights model w Hmodel). cbv zeta.
      intros H. injection H as H _. revert H.
      unfold fallbackOutcome.
      destruct (fst _) as [text|e]; [|discriminate].
      cbv zeta. destruct (negb _); [discriminate|].
      destruct (mapC _ _) as [ys|e] eqn:Hmap; [|discriminate].
      intros H. injection H as <-.
      eapply mapC_Forall; [|exact Hmap].
      intros x y. unfold scoredItemAt.
      destruct (asAICandidateResponse x); [|discriminate].
      apply scoredAt_wellScored.
  - rewrite (strategy_unsupported_provider env gw job batch strategy weights err w
               Hmodel).
    discriminate.
Qed.

Lemma processBatch_success_wellScored (env : Env) (gw : Gateway)
    (batch : list Candidate) (batchIndex : Z) (job : JobDescription)
    (weights : option PartialScoringWeights.t) (w : World)
    (data : list ScoredCandidate) :
  fst (processBatch env gw batch batchIndex job weights w)
  = Normal (BatchSuccess data) ->
  Forall (wellScored batch) data.
Proof.
  rewrite processBatch_run.
  destruct (scoreBatchWithStrategy env gw job batch structured weights w)
    as [[r1|e1] w1] eqn:H1; [|discriminate].
  destruct (isParseFailure r1).
  - destruct (scoreBatchWithStrategy env gw job batch fallback weights w1)
      as [[r2|e2] w2] eqn:H2; [|discriminate].
    destruct r2 as [d|e]; [|discriminate].
    simpl. intros H. injection H as <-.
    eapply strategy_success_wellScored; eauto.
  - destruct r1 as [d|e]; [|discriminate].
    simpl. intros H. injection H as <-.
    eapply strategy_success_wellScored; eauto.
Qed.

Lemma wellScored_incl (batch pool : list Candidate) (sc : ScoredCandidate) :
  (forall c, In c batch -> In c pool) -> wellScored batch sc -> wellScored pool sc.
Proof.
  intros Hincl [Hin H]. split; [now apply Hincl|exact H].
Qed.

Lemma scoredOf_In (results : list BatchResult) (sc : ScoredCandidate) :
  In sc (scoredOf results) ->
  exists k data, nth_error results k = Some (BatchSuccess data) /\ In sc data.
Proof.
  unfold scoredOf. intros H. apply in_flat_map in H.
  destruct H as [r [Hr Hsc]]. apply filter_In in Hr. destruct Hr as [Hr _].
  destruct r as [data|e idx]; [|destruct Hsc].
  apply In_nth_error in Hr. destruct Hr as [k Hk].
  exists k, data. split; assumption.
Qed.

(** Success data is the ranking of a non-empty list of well-scored
    candidates, or empty for the empty pool. *)
Lemma scoreCandidates_success_shape (env : Env) (job : JobDescription)
    (pool : list Candidate) (options : Options.t) (w w' : World)
    (data : list ScoredCandidate) :
  scoreCandidates env job pool options w = (Normal (Success data), w') ->
  (pool = [] /\ data = [])
  \/ (pool <> []
      /\ exists scored,
           scored <> []
           /\ Forall (wellScored pool) scored
           /\ data = sortAndLimitCandidates scored (maxResultsOf options)).
Proof.
  intros Hrun.
  destruct pool as [|c pool].
  - left. injection Hrun as <- _. split; reflexivity.
  - right. split; [discriminate|].
    destruct (Z.eq_dec (batchSizeOf options) 0) as [E|NE].
    + exfalso. revert Hrun. unfold scoreCandidates.
      simpl (List.length (c :: pool) =? 0)%nat. cbv iota.
      unfold batchSizeOf in E. unfold tryCatch, bind at 1, lift. rewrite E.
      discriminate.
    + destruct (createBatches_Normal (c :: pool) _ NE) as [batches Hb].
      destruct (collectBatchResults_run env batches job (Options.weights options) w)
        as [results [w1 [Hcollect [Hlen Hord]]]].
      rewrite (scoreCandidates_run env job (c :: pool) options w w1 batches results
                 ltac:(discriminate) Hb Hcollect) in Hrun.
      destruct (scoredOf results) as [|s0 rest] eqn:Hscored; [discriminate|].
      injection Hrun as <- _. rewrite <- Hscored.
      exists (scoredOf results). split; [rewrite Hscored; discriminate|].
      split; [|reflexivity].
      apply Forall_forall. intros sc Hsc.
      apply scoredOf_In in Hsc. destruct Hsc as [k [d [Hk Hin]]].
      destruct (Hord k _ Hk) as [b [Hbk [t0 [t1 Hout]]]].
      apply nth_error_In in Hbk.
      apply wellScored_incl with b.
      { intros x Hx. eapply createBatches_incl; eauto. }
      assert (Hd : Forall (wellScored b) d).
      { apply (processBatch_success_wellScored env
                 (gateway env (Z.of_nat k)) b (Z.of_nat k) job
                 (Options.weights options) (mkWorld t0 0 [])).
        destruct (fst (processBatch _ _ _ _ _ _ _)) as [v|e];
          simpl in Hout; [now subst v|discriminate]. }
      rewrite Forall_forall in Hd. now apply Hd.
Qed.

(** What the ranking keeps of a property, and how many candidates. *)
Lemma sortAndLimitCandidates_keeps (P : ScoredCandidate -> Prop)
    (scored : list ScoredCandidate) (maxResults : Z) :
  (Forall P scored -> Forall P (sortAndLimitCandidates scored maxResults))
  /\ (scored <> [] -> 0 < maxResults ->
      sortAndLimitCandidates scored maxResults <> [])
  /\ (0 <= maxResults ->
      Z.of_nat (List.length (sortAndLimitCandidates scored maxResults))
      <= maxResults).
Proof.
  unfold sortAndLimitCandidates.
  pose proof (sort_Permutation byScoreDescending scored) as Hperm.
  split; [|split].
  - intros Hall. rewrite Forall_forall in *. intros sc Hsc.
    apply Hall. apply slice_incl in Hsc. now apply (Permutation_in _ Hperm).
  - intros Hne Hmax Hnil.
    apply (f_equal (@List.length ScoredCandidate)) in Hnil.
    rewrite slice_nonneg in Hnil by lia.
    rewrite length_firstn in Hnil. simpl skipn in Hnil.
    rewrite (Permutation_length Hperm) in Hnil.
    destruct scored; [congruence|simpl in Hnil; lia].
  - intros Hmax. rewrite slice_nonneg by lia.
    rewrite length_firstn. lia.
Qed.

(** X7.  Whenever [scoreCandidates] returns success, every
    scored candidate extends a candidate of the pool, has a score within
    0..100 and a non-empty reasoning; the data is not empty when the pool is
    not and [maxResults] is positive, and holds at most [maxResults]
    candidates when [maxResults] is not negative. *)
Theorem successful_data_is_well_scored :
  forall (env : Env) (job : JobDescription) (pool : list Candidate)
         (options : Options.t) (w w' : World) (data : list ScoredCandidate),
    scoreCandidates env job pool options w = (Normal (Success data), w') ->
    Forall (wellScored pool) data
    /\ (pool <> [] -> 0 < maxResultsOf options -> data <> [])
    /\ (0 <= maxResultsOf options ->
        Z.of_nat (List.length data) <= maxResultsOf options).
Proof.
  intros env job pool options w w' data Hrun.
  destruct (scoreCandidates_success_shape env job pool options w w' data Hrun)
    as [[-> ->]|[Hpool [scored [Hne [Hwell ->]]]]].
  - split; [constructor|]. split; [congruence|]. simpl. lia.
  - destruct (sortAndLimitCandidates_keeps (wellScored pool) scored
                (maxResultsOf options)) as [Hkeep [Hsome Hlen]].
    split; [now apply Hkeep|]. split; [|exact Hlen].
    intros _. now apply Hsome.
Qed.

(** The theorem at the pool of two candidates the sample gateway scores. *)
Lemma successful_data_is_well_scored_witness :
  exists (data : list ScoredCandidate) (w' : World),
    scoreCandidates scoringEnv "Senior engineer" twoCandidates noOptions start
    = (Normal (Success data), w')
    /\ Forall (wellScored twoCandidates) data
    /\ List.length data = 2%nat.
Proof.
  eexists. eexists. split; [vm_compute; reflexivity|].
  split; [|reflexivity].
  refine (proj1 (successful_data_is_well_scored scoringEnv "Senior engineer"
                   twoCandidates noOptions start _ _ _)).
  vm_compute. reflexivity.
Defined.

Lemma StronglySorted_app_cross {A : Type} (R : A -> A -> Prop) (l1 l2 : list A) :
  StronglySorted R (l1 ++ l2) ->
  StronglySorted R l1 /\ (forall a b, In a l1 -> In b l2 -> R a b).
Proof.
  induction l1 as [|x l1 IH]; simpl; intros H.
  - split; [constructor|intros a b []].
  - inversion H as [|x' l' Hs Hall]; subst.
    destruct (IH Hs) as [IH1 IH2]. split.
    + constructor; [exact IH1|].
      rewrite Forall_forall in *. intros y Hy. apply Hall.
      apply in_or_app. now left.
    + intros a b [<-|Ha] Hb.
      * rewrite Forall_forall in Hall. apply Hall. apply in_or_app. now right.
      * now apply IH2.
Qed.

Lemma sort_of_sorted {A : Type} (cmp : A -> A -> comparison) (l : list A) :
  StronglySorted (fun a b => cmp a b <> Gt) l -> Js.sort cmp l = l.
Proof.
  induction 1 as [|x l Hs IH Hall]; [reflexivity|].
  change (Js.sort cmp (x :: l)) with (Js.insert cmp x (Js.sort cmp l)).
  rewrite IH.
  destruct l as [|y l]; [reflexivity|].
  simpl. inversion Hall as [|y' l' Hxy _]; subst.
  destruct (cmp x y); try reflexivity. congruence.
Qed.

(** X8.  For a non-negative [maxResults],
    [sortAndLimitCandidates] splits its input into the candidates it keeps
    and the ones it drops: every kept candidate scores at least as high as
    every dropped one, it keeps [min maxResults (length candidates)]
    candidates, and running it again on its result changes nothing. *)
Theorem sortAndLimitCandidates_keeps_the_best :
  forall (candidates : list ScoredCandidate) (maxResults : Z),
    0 <= maxResults ->
    let kept := sortAndLimitCandidates candidates maxResults in
    exists dropped : list ScoredCandidate,
      Permutation (kept ++ dropped) candidates
      /\ (forall a b, In a kept -> In b dropped ->
                      Js.num_leb (score b) (score a) = true)
      /\ List.length kept = Nat.min (Z.to_nat maxResults) (List.length candidates)
      /\ sortAndLimitCandidates kept maxResults = kept.
Proof.
  intros candidates maxResults Hmax kept. subst kept.
  unfold sortAndLimitCandidates.
  set (sorted := Js.sort byScoreDescending candidates).
  assert (Hsorted : StronglySorted (fun a b => byScoreDescending a b <> Gt) sorted)
    by apply (sort_sorted byScoreDescending byScoreDescending_trans
                          byScoreDescending_flip).
  assert (Hslice : forall l : list ScoredCandidate,
            Js.slice l 0 maxResults = firstn (Z.to_nat maxResults) l).
  { intros l. rewrite slice_nonneg by lia. simpl. now rewrite Nat.sub_0_r. }
  rewrite !Hslice.
  set (n := Z.to_nat maxResults).
  rewrite <- (firstn_skipn n sorted) in Hsorted.
  apply StronglySorted_app_cross in Hsorted. destruct Hsorted as [Hkept Hcross].
  exists (skipn n sorted). split; [|split; [|split]].
  - rewrite firstn_skipn. apply sort_Permutation.
  - intros a b Ha Hb. apply byScoreDescending_le. now apply Hcross.
  - rewrite length_firstn. unfold sorted.
    now rewrite (Permutation_length (sort_Permutation byScoreDescending candidates)).
  - rewrite (sort_of_sorted byScoreDescending _ Hkept).
    rewrite firstn_firstn. f_equal. lia.
Qed.

Lemma sortAndLimitCandidates_keeps_the_best_witness :
  exists dropped : list ScoredCandidate,
    Permutation
      (sortAndLimitCandidates [scoredSample "a" 70; scoredSample "b" 90] 1
       ++ dropped)
      [scoredSample "a" 70; scoredSample "b" 90].
Proof.
  destruct (sortAndLimitCandidates_keeps_the_best
              [scoredSample "a" 70; scoredSample "b" 90] 1 ltac:(lia))
    as [dropped [H _]].
  exists dropped. exact H.
Defined.

Lemma jobDescriptionField_Valid (v : option Js.value) (s : string) :
  jobDescriptionField v = Valid s ->
  v = Some (Js.Str s) /\ (10 <= String.length s <= 200)%nat.
Proof.
  unfold jobDescriptionField.
  destruct v as [[|b|n|s'|items|props]|]; try discriminate.
  destruct (String.length s' <? 10)%nat eqn:Hlo; [discriminate|].
  destruct (200 <? String.length s')%nat eqn:Hhi; [discriminate|].
  intros H. injection H as <-.
  apply Nat.ltb_ge in Hlo. apply Nat.ltb_ge in Hhi. split; [reflexivity|lia].
Qed.

Lemma maxResultsField_Valid (v : option Js.value) (m : Z) :
  maxResultsField v = Valid m ->
  1 <= m <= 100 /\ (v = None -> m = 30).
Proof.
  unfold maxResultsField.
  destruct v as [[|b|n|s'|items|props]|]; try discriminate.
  - destruct (asInteger n) as [z|]; [|discriminate].
    destruct ((1 <=? z) && (z <=? 100)) eqn:Hr; [|discriminate].
    intros H. injection H as <-.
    apply andb_prop in Hr. destruct Hr as [H1 H2].
    apply Z.leb_le in H1. apply Z.leb_le in H2. split; [lia|discriminate].
  - intros H. injection H as <-. split; [lia|reflexivity].
Qed.

Lemma optionalFraction_Valid (path : list string) (v : option Js.value)
    (o : option Js.number) :
  optionalFraction path v = Valid o -> optInUnit o = true.
Proof.
  destruct v as [[|b|n|s'|items|props]|]; try discriminate.
  - rewrite optionalFraction_inUnit.
    destruct (inUnit n) eqn:Hn; [|discriminate].
    intros H. injection H as <-. exact Hn.
  - intros H. injection H as <-. reflexivity.
Qed.

Lemma weightsField_Valid (v : option Js.value)
    (o : option PartialScoringWeights.t) :
  weightsField v = Valid o ->
  match o with
  | Some weights => fractionsInUnit weights = true
  | None => v = None
  end.
Proof.
  unfold weightsField.
  destruct v as [[|b|n|s'|items|props]|]; try discriminate.
  - unfold andThen.
    destruct (optionalFraction _ (Js.lookup "skillsMatch" props)) as [a'|] eqn:Ha;
      [|discriminate].
    destruct (optionalFraction _ (Js.lookup "experienceLevel" props)) as [b'|] eqn:Hb;
      [|discriminate].
    destruct (optionalFraction _ (Js.lookup "education" props)) as [c'|] eqn:Hc;
      [|discriminate].
    destruct (optionalFraction _ (Js.lookup "portfolio" props)) as [d'|] eqn:Hd;
      [|discriminate].
    destruct (optionalFraction _ (Js.lookup "availability" props)) as [e'|] eqn:He;
      [|discriminate].
    intros H. injection H as <-. unfold fractionsInUnit. simpl.
    rewrite (optionalFraction_Valid _ _ _ Ha), (optionalFraction_Valid _ _ _ Hb),
            (optionalFraction_Valid _ _ _ Hc), (optionalFraction_Valid _ _ _ Hd),
            (optionalFraction_Valid _ _ _ He).
    reflexivity.
  - intros H. injection H as <-. reflexivity.
Qed.

Lemma validateRequestBody_Valid (body : Js.value) (data : ScoreRequestBody) :
  validateRequestBody body = RequestValid data ->
  (10 <= String.length (jobDescription data) <= 200)%nat
  /\ 1 <= maxResults data <= 100
  /\ match weights data with
     | Some weights => fractionsInUnit weights = true
     | None => True
     end.
Proof.
  unfold validateRequestBody, ScoreRequestBodySchema.
  destruct body as [|b|n|s|items|props]; try discriminate.
  unfold andThen.
  destruct (jobDescriptionField _) as [job|] eqn:Hjob; [|discriminate].
  destruct (maxResultsField _) as [m|] eqn:Hm; [|discriminate].
  destruct (weightsField _) as [ws|] eqn:Hw; [|discriminate].
  intros H. injection H as <-. cbn [jobDescription maxResults weights].
  apply jobDescriptionField_Valid in Hjob. apply maxResultsField_Valid in Hm.
  apply weightsField_Valid in Hw.
  split; [tauto|]. split; [tauto|]. destruct ws; [exact Hw|exact I].
Qed.

(** X9.  What [validateRequestBody] accepts is an object whose
    job description is the string supplied, of 10 to 200 characters; its
    [maxResults] is an integer within 1..100, 30 when none was supplied; its
    weights are absent exactly when none were supplied, and every fraction
    present lies in [0, 1].  What it rejects, it rejects with a non-empty
    error text. *)
Theorem validateRequestBody_bounds_what_it_accepts :
  forall body : Js.value,
    match validateRequestBody body with
    | RequestValid data =>
        (exists props, body = Js.Object props
           /\ Js.lookup "jobDescription" props = Some (Js.Str (jobDescription data))
           /\ (Js.lookup "maxResults" props = None -> maxResults data = 30)
           /\ (Js.lookup "weights" props = None <-> weights data = None))
        /\ (10 <= String.length (jobDescription data) <= 200)%nat
        /\ 1 <= maxResults data <= 100
        /\ (forall weights, Route.weights data = Some weights ->
                            fractionsInUnit weights = true)
    | RequestInvalid error => Js.str_truthy error = true
    end.
Proof.
  intros body.
  destruct (validateRequestBody body) as [data|error] eqn:Hv.
  - destruct (validateRequestBody_Valid body data Hv) as [Hjob [Hmax Hws]].
    split; [|split; [exact Hjob|split; [exact Hmax|]]].
    + revert Hv. unfold validateRequestBody, ScoreRequestBodySchema.
      destruct body as [|b|n|s|items|props]; try discriminate.
      unfold andThen.
      destruct (jobDescriptionField _) as [job|] eqn:Hj; [|discriminate].
      destruct (maxResultsField _) as [m|] eqn:Hm; [|discriminate].
      destruct (weightsField _) as [ws|] eqn:Hw; [|discriminate].
      intros H. injection H as <-. cbn [jobDescription maxResults weights].
      exists props. split; [reflexivity|].
      apply jobDescriptionField_Valid in Hj. apply maxResultsField_Valid in Hm.
      split; [tauto|]. split; [tauto|].
      split.
      * intros Hnone. rewrite Hnone in Hw. simpl in Hw. now injection Hw as <-.
      * intros ->. now apply weightsField_Valid in Hw.
    + intros ws Hsome. now rewrite Hsome in Hws.
  - revert Hv. unfold validateRequestBody.
    destruct (ScoreRequestBodySchema body) as [data|path]; [discriminate|].
    intros H. injection H as <-.
    destruct (Js.str_truthy (joinPath path)) eqn:E; [exact E|reflexivity].
Qed.

(** [POST] once the request has been accepted and a non-empty store
    loaded: the response is made of the result of [scoreCandidates]. *)
Lemma POST_scores (env : Env) (body : Js.value) (data : ScoreRequestBody)
    (pool : list Candidate) (w : World) :
  validateRequestBody body = RequestValid data ->
  pool <> [] ->
  exists (result : ScoringResult) (w' : World),
    scoreCandidates env (jobDescription data) pool (scoringOptions data) w
    = (Normal result, w')
    /\ POST env (Normal body) (Normal pool) w
       = (Normal
            match result with
            | Failure error => createErrorResponse error
            | Success scored =>
                ScoreResponse scored (Z.of_nat (List.length pool)) (now w' - now w)
                  (orDefault (LLM_MODEL env) "unknown")
            end,
          w').
Proof.
  intros Hv Hpool.
  destruct (scoreCandidates_returns env (jobDescription data) pool
              (scoringOptions data) w) as [result [w' Hrun]].
  exists result, w'. split; [exact Hrun|].
  unfold POST. unfold bind at 1, Date_now, tryCatch. rewrite Hv.
  destruct pool as [|c pool]; [congruence|].
  simpl (List.length (c :: pool) =? 0)%nat. cbv iota.
  unfold createJobDescription. unfold bind at 1. rewrite Hrun.
  destruct result; reflexivity.
Qed.

(** The ways [POST] answers: an error before scoring, the empty response
    for an empty store, or the scoring of a non-empty store. *)
Lemma POST_answers_early_shape (env : Env) (request_json : completion Js.value)
    (getCandidates : completion (list Candidate)) (w : World) :
  ((exists error status,
       POST env request_json getCandidates w
       = (Normal (ErrorResponse error status), w))
   \/ (exists body data,
         request_json = Normal body
         /\ validateRequestBody body = RequestValid data
         /\ getCandidates = Normal []
         /\ POST env request_json getCandidates w
            = (Normal (ScoreResponse [] 0 0 (orDefault (LLM_MODEL env) "unknown")),
               w)))
  \/ (exists body data pool,
        request_json = Normal body
        /\ validateRequestBody body = RequestValid data
        /\ getCandidates = Normal pool
        /\ pool <> []).
Proof.
  destruct request_json as [body|e];
    [|left; left; eexists; eexists; reflexivity].
  destruct (validateRequestBody body) as [data|error] eqn:Hv.
  - destruct getCandidates as [[|c pool]|e].
    + left. right. exists body, data.
      split; [reflexivity|]. split; [exact Hv|]. split; [reflexivity|].
      unfold POST, bind at 1, Date_now, tryCatch. rewrite Hv.
      simpl. now rewrite Z.sub_diag.
    + right. exists body, data, (c :: pool).
      split; [reflexivity|]. split; [exact Hv|]. split; [reflexivity|discriminate].
    + left. left. unfold POST, bind at 1, Date_now, tryCatch. rewrite Hv.
      eexists. eexists. reflexivity.
  - left. left. unfold POST, bind at 1, Date_now, tryCatch. rewrite Hv.
    eexists. eexists. reflexivity.
Qed.

(** X10.  Neither [scoreCandidates] nor the [POST] handler is ever
    rejected: whatever the environment, the gateway replies, the request and
    the state of the candidate store, each settles with a value. *)
Theorem entry_points_never_reject :
  forall (env : Env) (job : JobDescription) (pool : list Candidate)
         (options : Options.t) (request_json : completion Js.value)
         (getCandidates : completion (list Candidate)) (w : World),
    (exists (r : ScoringResult) (w' : World),
        scoreCandidates env job pool options w = (Normal r, w'))
    /\ (exists (response : Response) (w' : World),
           POST env request_json getCandidates w = (Normal response, w')).
Proof.
  intros env job pool options request_json getCandidates w.
  split; [apply scoreCandidates_returns|].
  destruct request_json as [body|e]; [|eexists; eexists; reflexivity].
  destruct (validateRequestBody body) as [data|error] eqn:Hv.
  - destruct getCandidates as [store|e].
    + destruct store as [|c store].
      * unfold POST, bind at 1, Date_now, tryCatch. rewrite Hv.
        eexists. eexists. reflexivity.
      * destruct (POST_scores env body data (c :: store) w Hv ltac:(discriminate))
          as [result [w' [_ Hpost]]].
        rewrite Hpost. eexists. eexists. reflexivity.
    + unfold POST, bind at 1, Date_now, tryCatch. rewrite Hv.
      eexists. eexists. reflexivity.
  - unfold POST, bind at 1, Date_now, tryCatch. rewrite Hv.
    eexists. eexists. reflexivity.
Qed.


(** X12.  A score response of [POST] comes from a valid request
    and a loaded store: [totalProcessed] is the size of the store,
    [processingTime] the time elapsed since the handler started, [modelUsed]
    the configured model or "unknown"; every candidate returned is a
    well-scored candidate of the store, there are at most [maxResults] (at
    most 100) of them, and none exactly when the store is empty. *)
Theorem POST_success_response :
  forall (env : Env) (request_json : completion Js.value)
         (getCandidates : completion (list Candidate)) (w w' : World)
         (scored : list ScoredCandidate) (totalProcessed processingTime : Z)
         (modelUsed : string),
    POST env request_json getCandidates w
    = (Normal (ScoreResponse scored totalProcessed processingTime modelUsed), w') ->
    exists body data pool,
      request_json = Normal body
      /\ validateRequestBody body = RequestValid data
      /\ getCandidates = Normal pool
      /\ totalProcessed = Z.of_nat (List.length pool)
      /\ processingTime = now w' - now w
      /\ modelUsed = orDefault (LLM_MODEL env) "unknown"
      /\ Forall (wellScored pool) scored
      /\ Z.of_nat (List.length scored) <= maxResults data <= 100
      /\ (scored = [] <-> pool = []).
Proof.
  intros env request_json getCandidates w w' scored totalProcessed processingTime
         modelUsed Hpost.
  destruct (POST_answers_early_shape env request_json getCandidates w)
    as [Hearly|[body [data [pool [-> [Hv [-> Hpool]]]]]]].
  - destruct Hearly as [[err [st Herr]]|Hempty].
    + rewrite Herr in Hpost. discriminate.
    + destruct Hempty as [body [data [-> [Hv [-> Hempty]]]]].
      rewrite Hempty in Hpost. injection Hpost as <- <- <- <- <-.
      exists body, data, []. rewrite Z.sub_diag.
      destruct (validateRequestBody_Valid body data Hv) as [_ [Hmax _]].
      split; [reflexivity|]. split; [exact Hv|]. split; [reflexivity|].
      split; [reflexivity|]. split; [reflexivity|]. split; [reflexivity|].
      split; [constructor|]. split; [simpl; lia|]. tauto.
  - destruct (POST_scores env body data pool w Hv Hpool)
      as [result [w1 [Hrun Hscore]]].
    rewrite Hscore in Hpost.
    destruct result as [d|e]; [|discriminate].
    injection Hpost as <- <- <- <- <-.
    destruct (validateRequestBody_Valid body data Hv) as [_ [Hmax _]].
    destruct (scoreCandidates_success_shape env _ pool _ w w1 d Hrun)
      as [[-> _]|[_ [scored [Hsome [Hall ->]]]]]; [congruence|].
    destruct (sortAndLimitCandidates_keeps (wellScored pool) scored
                (maxResultsOf (scoringOptions data))) as [Hkeep [Hne' Hlen]].
    pose proof (Hkeep Hall) as Hwell.
    assert (Hne : pool <> [] -> 0 < maxResultsOf (scoringOptions data) ->
                  sortAndLimitCandidates scored (maxResultsOf (scoringOptions data))
                  <> [])
      by (intros _; now apply Hne').
    change (maxResultsOf (scoringOptions data)) with (maxResults data) in *.
    exists body, data, pool.
    split; [reflexivity|]. split; [exact Hv|]. split; [reflexivity|].
    split; [reflexivity|]. split; [reflexivity|]. split; [reflexivity|].
    split; [exact Hwell|].
    split; [split; [apply Hlen|]; lia|].
    split; [intros Hnil; exfalso; apply (Hne Hpool); [lia|exact Hnil]|].
    intros ->. congruence.
Qed.

(** The theorem at a request for the two sample candidates. *)
Lemma POST_success_response_witness :
  exists (scored : list ScoredCandidate) (w' : World),
    POST scoringEnv (Normal lightRequest) (Normal twoCandidates) start
    = (Normal (ScoreResponse scored 2 300 "unknown"), w')
    /\ Forall (wellScored twoCandidates) scored
    /\ Z.of_nat (List.length scored) <= 100.
Proof.
  eexists. eexists. split; [vm_compute; reflexivity|].
  destruct (POST_success_response scoringEnv (Normal lightRequest)
              (Normal twoCandidates) start _ _ 2 300 "unknown" eq_refl)
    as [body [data [pool [_ [_ [Hpool [_ [_ [_ [Hwell [Hlen _]]]]]]]]]]].
  injection Hpool as <-. split; [exact Hwell|].
  eapply Z.le_trans; [apply Hlen|lia].
Defined.

Lemma wellShapedItem_scored (raw : Js.value) :
  wellShapedItem raw = true ->
  exists item,
    asAICandidateResponse raw = Some item
    /\ createCandidateScore (AICandidateResponse.score item)
       = Normal (AICandidateResponse.score item).
Proof.
  destruct raw as [|b|n|s|items|props]; simpl; try discriminate.
  unfold nonEmptyString, inRange, Js.isArray.
  destruct (Js.lookup "id" props) as [[|?|?|sid|?|?]|]; simpl; try discriminate.
  destruct (Js.lookup "score" props) as [[|?|sc|?|?|?]|]; simpl;
    try (rewrite ?andb_false_r; discriminate).
  destruct (Js.lookup "highlights" props) as [[|?|?|?|hl|?]|]; simpl;
    try (rewrite ?andb_false_r; discriminate).
  destruct (Js.lookup "reasoning" props) as [[|?|?|sr|?|?]|]; simpl;
    try (rewrite ?andb_false_r; discriminate).
  destruct (Js.lookup "matchedSkills" props) as [[|?|?|?|ms|?]|]; simpl;
    try (rewrite ?andb_false_r; discriminate).
  intros H. eexists. split; [reflexivity|].
  cbn [AICandidateResponse.score]. unfold createCandidateScore.
  destruct (Js.str_truthy sid); [|discriminate]. simpl in H.
  destruct (Js.num_leb (Js.of_Z 0) sc) eqn:Hlo; [|discriminate].
  destruct (Js.num_leb sc (Js.of_Z 100)) eqn:Hhi; [|discriminate].
  unfold Js.num_leb in Hlo, Hhi.
  apply negb_true_iff in Hlo. apply negb_true_iff in Hhi.
  now rewrite Hlo, Hhi.
Qed.

Lemma validated_items_wellShaped (JSON_parse : string -> completion Js.value)
    (text : string) :
  isValid (validatePromptResponse JSON_parse text) = true ->
  Forall (fun raw => wellShapedItem raw = true)
         (parsedCandidates (validatePromptResponse JSON_parse text)).
Proof.
  intros Hvalid. unfold validatePromptResponse in *.
  destruct (JSON_parse text) as [v|e]; simpl in *; [|discriminate].
  pose proof (validateParsed_spec v) as Hv.
  destruct (wellShaped v) eqn:Hshape.
  - rewrite Hv. unfold parsedCandidates. simpl.
    destruct v as [|b|n|s|items|props]; simpl in Hshape; try discriminate.
    destruct (Js.lookup "candidates" props) as [[|?|?|?|items|?]|];
      try discriminate.
    apply Forall_forall. intros item Hin.
    rewrite forallb_forall in Hshape. now apply Hshape.
  - destruct Hv as [[e He]|[msg [Hm _]]].
    + rewrite He in Hvalid. discriminate.
    + rewrite Hm in Hvalid. discriminate.
Qed.

Lemma mapC_all_Normal {A B : Type} (f : A -> completion B) (l : list A) :
  Forall (fun x => exists y, f x = Normal y) l ->
  exists ys, mapC f l = Normal ys /\ List.length ys = List.length l.
Proof.
  induction 1 as [|x l [y Hy] _ [ys [IH Hlen]]].
  - exists []. split; reflexivity.
  - exists (y :: ys). simpl. rewrite Hy, IH. simpl. split; [reflexivity|lia].
Qed.

(** X13.  In the fallback strategy, once the text the gateway
    returned has passed [validatePromptResponse], the mapping of its items
    can fail in one way only: the strategy returns success, with one scored
    candidate per item, if every item names a candidate of the batch, and
    otherwise the failure UNKNOWN_ERROR "Candidate with ID <id> not found"
    for an item whose id is unknown.  The score check of
    [createCandidateScore] never fires on a validated item. *)
Theorem validated_fallback_fails_only_on_unknown_ids :
  forall (env : Env) (gw : Gateway) (job : JobDescription)
         (batch : list Candidate) (weights : option PartialScoringWeights.t)
         (model : AIModel) (w : World) (text : string),
    getAIModel (getLLMProvider env) = Normal model ->
    fst (retryWithBackoff
           (generateText gw model (createConstrainedPrompt job batch))
           (maxRetries DEFAULT_CONFIG) w) = Normal text ->
    isValid (validatePromptResponse (JSON_parse env) text) = true ->
    let items := parsedCandidates (validatePromptResponse (JSON_parse env) text) in
    let outcome :=
      fst (scoreBatchWithStrategy env gw job batch fallback weights w) in
    (Forall (namesCandidateOf batch) items ->
     exists data, outcome = Normal (Success data)
                  /\ List.length data = List.length items)
    /\ (~ Forall (namesCandidateOf batch) items ->
        exists raw item,
          In raw items
          /\ asAICandidateResponse raw = Some item
          /\ (forall c, In c batch -> id c <> AICandidateResponse.id item)
          /\ outcome
             = Normal (Failure (UNKNOWN_ERROR
                 ("Candidate with ID " +++ AICandidateResponse.id item
                  +++ " not found")))).
Proof.
  intros env gw job batch weights model w text Hmodel Htext Hvalid items outcome.
  subst outcome.
  rewrite (fallback_run env gw job batch weights model w Hmodel). cbv zeta.
  cbn [fst]. rewrite Htext. unfold fallbackOutcome. rewrite Hvalid.
  cbn [negb]. cbv iota. fold items.
  set (t := now _).
  pose proof (validated_items_wellShaped (JSON_parse env) text Hvalid) as Hshape.
  fold items in Hshape.
  assert (Hitem : forall raw, In raw items ->
            exists item, asAICandidateResponse raw = Some item
              /\ scoredItemAt t batch raw = scoredAt t batch item
              /\ ((exists c, In c batch /\ id c = AICandidateResponse.id item) ->
                  exists sc, scoredAt t batch item = Normal sc)
              /\ ((forall c, In c batch -> id c <> AICandidateResponse.id item) ->
                  scoredAt t batch item
                  = Abrupt (Js.Error
                      ("Candidate with ID " +++ AICandidateResponse.id item
                       +++ " not found")))).
  { intros raw Hin. rewrite Forall_forall in Hshape.
    destruct (wellShapedItem_scored raw (Hshape raw Hin)) as [item [Has Hscore]].
    exists item. split; [exact Has|]. split.
    - unfold scoredItemAt. now rewrite Has.
    - split.
      + intros [c [Hc Hid]]. unfold scoredAt.
        destruct (findById (AICandidateResponse.id item) batch) as [c'|] eqn:Hfind.
        * rewrite Hscore. simpl. eexists. reflexivity.
        * exfalso. apply (proj1 (findById_None _ _) Hfind c Hc Hid).
      + intros Hunknown. unfold scoredAt.
        now rewrite (proj2 (findById_None _ _) Hunknown). }
  split.
  - intros Hall.
    destruct (mapC_all_Normal (scoredItemAt t batch) items) as [ys [Hys Hlen]].
    { apply Forall_forall. intros raw Hin.
      rewrite Forall_forall in Hall.
      destruct (Hall raw Hin) as [item [c [Has [Hc Hid]]]].
      destruct (Hitem raw Hin) as [item' [Has' [Heq [Hok _]]]].
      rewrite Has in Has'. injection Has' as <-.
      rewrite Heq. apply Hok. now exists c. }
    rewrite Hys. exists ys. split; [reflexivity|exact Hlen].
  - intros Hnot.
    destruct (mapC (scoredItemAt t batch) items) as [ys|e] eqn:Hmap.
    + exfalso. apply Hnot. apply Forall_forall. intros raw Hin.
      apply mapC_Normal in Hmap.
      destruct (Hitem raw Hin) as [item [Has [Heq [_ Hbad]]]].
      exists item.
      destruct (findById (AICandidateResponse.id item) batch) as [c|] eqn:Hfind.
      * apply findById_Some in Hfind. exists c. tauto.
      * exfalso. specialize (Hbad (proj1 (findById_None _ _) Hfind)).
        assert (Hex : exists y, scoredItemAt t batch raw = Normal y).
        { clear - Hmap Hin. induction Hmap as [|x y l ys Hxy _ IH];
            [destruct Hin|].
          destruct Hin as [<-|Hin]; [now exists y|now apply IH]. }
        destruct Hex as [y Hy]. rewrite Heq, Hbad in Hy. discriminate.
    + apply mapC_Abrupt_from in Hmap. destruct Hmap as [raw [Hin Hraw]].
      destruct (Hitem raw Hin) as [item [Has [Heq [Hok Hbad]]]].
      exists raw, item. split; [exact Hin|]. split; [exact Has|].
      assert (Hunknown : forall c, In c batch -> id c <> AICandidateResponse.id item).
      { intros c Hc Hid. destruct Hok as [sc Hsc]; [now exists c|].
        rewrite Heq, Hsc in Hraw. discriminate. }
      split; [exact Hunknown|].
      rewrite Heq, (Hbad Hunknown) in Hraw. injection Hraw as <-.
      now rewrite mapError_plain_Error.
Qed.

(** The theorem at the text the sample parser reads two scores from. *)
Lemma validated_fallback_fails_only_on_unknown_ids_witness :
  exists data : list ScoredCandidate,
    fst (scoreBatchWithStrategy garbledEnv garbledGateway "Senior engineer"
           twoCandidates fallback None start)
    = Normal (Success data)
    /\ List.length data = 2%nat.
Proof.
  destruct (validated_fallback_fails_only_on_unknown_ids garbledEnv garbledGateway
              "Senior engineer" twoCandidates None (openai "gpt-4.1-mini") start
              "scores" eq_refl eq_refl eq_refl) as [Hall _].
  destruct Hall as [data [Hdata Hlen]].
  - repeat constructor.
    + eexists. exists (sampleCandidate "a"). repeat split. now left.
    + eexists. exists (sampleCandidate "b"). repeat split. right. now left.
  - exists data. split; [exact Hdata|exact Hlen].
Defined.

Import DataProcessor.

(** X14.  After [getCandidates] has returned a list, the store
    holds that list with a load time less than five minutes old; any call
    made while less than [CACHE_DURATION] has passed since that load time
    returns the same list and leaves the store alone, whatever the file now
    holds; a later call, and any call after [invalidateCandidatesCache],
    goes back to the loader, and a failed load leaves the store as it
    was. *)
Theorem getCandidates_serves_what_it_loaded :
  forall (load : completion (list Candidate)) (now : Z) (store store' : Store)
         (loaded : list Candidate),
    getCandidates load now store = (Normal loaded, store') ->
    candidatesCache store' = Some loaded
    /\ now - lastLoadTime store' < CACHE_DURATION
    /\ (forall (load' : completion (list Candidate)) (now' : Z),
          now' - lastLoadTime store' < CACHE_DURATION ->
          getCandidates load' now' store' = (Normal loaded, store'))
    /\ (forall (load' : completion (list Candidate)) (now' : Z),
          CACHE_DURATION <= now' - lastLoadTime store' ->
          getCandidates load' now' store'
          = match load' with
            | Normal fresh => (Normal fresh, mkStore (Some fresh) now')
            | Abrupt reason => (Abrupt reason, store')
            end)
    /\ (forall (load' : completion (list Candidate)) (now' : Z),
          getCandidates load' now' (invalidateCandidatesCache store')
          = match load' with
            | Normal fresh => (Normal fresh, mkStore (Some fresh) now')
            | Abrupt reason => (Abrupt reason, initialStore)
            end).
Proof.
  intros load now store store' loaded Hrun.
  assert (Hstate : candidatesCache store' = Some loaded
                   /\ now - lastLoadTime store' < CACHE_DURATION).
  { revert Hrun. unfold getCandidates.
    destruct (candidatesCache store) as [cached|] eqn:Hc.
    - destruct (now - lastLoadTime store <? CACHE_DURATION) eqn:Hfresh.
      + intros H. injection H as <- <-. apply Z.ltb_lt in Hfresh.
        split; assumption.
      + destruct load as [l|e]; [|discriminate].
        intros H. injection H as <- <-. simpl. unfold CACHE_DURATION.
        split; [reflexivity|lia].
    - destruct load as [l|e]; [|discriminate].
      intros H. injection H as <- <-. simpl. unfold CACHE_DURATION.
      split; [reflexivity|lia]. }
  destruct Hstate as [Hcache Hfresh].
  split; [exact Hcache|]. split; [exact Hfresh|]. split; [|split].
  - intros load' now' Hnow. unfold getCandidates. rewrite Hcache.
    apply Z.ltb_lt in Hnow. now rewrite Hnow.
  - intros load' now' Hnow. unfold getCandidates. rewrite Hcache.
    apply Z.ltb_ge in Hnow. now rewrite Hnow.
  - intros load' now'. reflexivity.
Qed.

Lemma getCandidates_serves_what_it_loaded_witness :
  getCandidates (Abrupt Js.ThrownNull) 200000
    (mkStore (Some twoCandidates) 1000)
  = (Normal twoCandidates, mkStore (Some twoCandidates) 1000).
Proof.
  apply (getCandidates_serves_what_it_loaded (Normal twoCandidates) 1000
           initialStore (mkStore (Some twoCandidates) 1000) twoCandidates
           eq_refl).
  reflexivity.
Defined.

(** The loop of [getCandidateBatches] at a multiple of a positive batch
    size: the batches pushed so far are the chunks before that index. *)
Lemma batchLoop_chunks (candidates : list Candidate) (B : Z) :
  0 < B ->
  forall (fuel j : nat),
    let chunk := fun i => firstn (Z.to_nat B) (skipn (i * Z.to_nat B) candidates) in
    let k := Z.to_nat (ceilDiv (Z.of_nat (List.length candidates)) B) in
    (j <= k)%nat ->
    batchLoop fuel candidates B (Z.of_nat j * B) (map chunk (seq 0 j))
    = if (k - j <? fuel)%nat then Some (map chunk (seq 0 k)) else None.
Proof.
  intros HB fuel. cbv zeta.
  pose proof (ceilDiv_spec (Z.of_nat (List.length candidates)) B HB) as Hceil.
  set (N := List.length candidates) in *.
  set (k := Z.to_nat (ceilDiv (Z.of_nat N) B)) in *.
  assert (Hk : Z.of_nat k = ceilDiv (Z.of_nat N) B).
  { unfold k. apply Z2Nat.id.
    destruct (Z_lt_le_dec (ceilDiv (Z.of_nat N) B) 0) as [Hneg|Hpos];
      [|assumption].
    pose proof (Z.mul_le_mono_nonneg_l (ceilDiv (Z.of_nat N) B) (-1) B
                  ltac:(lia) ltac:(lia)).
    lia. }
  rewrite <- Hk in Hceil.
  induction fuel as [|fuel IH]; intros j Hj.
  - reflexivity.
  - cbn [batchLoop]. fold N.
    destruct (Nat.eq_dec j k) as [->|Hne].
    + assert (E : (Z.of_nat k * B <? Z.of_nat N) = false)
        by (apply Z.ltb_ge; lia).
      rewrite E.
      assert (E' : (k - k <? S fuel)%nat = true) by (apply Nat.ltb_lt; lia).
      now rewrite E'.
    + assert (E : (Z.of_nat j * B <? Z.of_nat N) = true)
        by (apply Z.ltb_lt; nia).
      rewrite E. rewrite slice_nonneg by nia.
      replace (Z.to_nat (Z.of_nat j * B + B) - Z.to_nat (Z.of_nat j * B))%nat
        with (Z.to_nat B) by nia.
      replace (Z.to_nat (Z.of_nat j * B)) with (j * Z.to_nat B)%nat by nia.
      replace (Z.of_nat j * B + B) with (Z.of_nat (S j) * B) by lia.
      specialize (IH (S j) ltac:(lia)).
      rewrite seq_S, map_app in IH. simpl (map _ [_]) in IH. rewrite IH.
      destruct (k - S j <? fuel)%nat eqn:E1, (k - j <? S fuel)%nat eqn:E2;
        try reflexivity;
        [apply Nat.ltb_lt in E1; apply Nat.ltb_ge in E2; lia
        |apply Nat.ltb_ge in E1; apply Nat.ltb_lt in E2; lia].
Qed.

Lemma batchLoop_diverges (candidates : list Candidate) (B : Z) :
  B <= 0 -> candidates <> [] ->
  forall (fuel : nat) (i : Z) (batches : list (list Candidate)),
    i <= 0 -> batchLoop fuel candidates B i batches = None.
Proof.
  intros HB Hne. induction fuel as [|fuel IH]; intros i batches Hi.
  - reflexivity.
  - cbn [batchLoop].
    assert (E : (i <? Z.of_nat (List.length candidates)) = true).
    { apply Z.ltb_lt. destruct candidates; [congruence|simpl; lia]. }
    rewrite E. apply IH. lia.
Qed.

(** X15.  For a positive batch size the loop of
    [getCandidateBatches] ends and builds the very batches [createBatches]
    builds, after one iteration per batch.  For a batch size of zero or
    less and a non-empty store the loop never ends: the index never passes
    the length.  On an empty store it returns no batch at once. *)
Theorem getCandidateBatches_against_createBatches :
  forall (candidates : list Candidate) (B : Z),
    (0 < B ->
     exists batches,
       createBatches candidates B = Normal batches
       /\ (forall fuel,
             getCandidateBatches fuel candidates B
             = if (List.length batches <? fuel)%nat then Some batches else None)
       /\ getCandidateBatches (S (List.length candidates)) candidates B
          = Some batches)
    /\ (B <= 0 -> candidates <> [] ->
        forall fuel, getCandidateBatches fuel candidates B = None)
    /\ (candidates = [] ->
        forall fuel, getCandidateBatches (S fuel) candidates B = Some []).
Proof.
  intros candidates B. split; [|split].
  - intros HB.
    destruct (createBatches_Normal candidates B ltac:(lia)) as [batches Hb].
    destruct (createBatches_count candidates B batches HB Hb) as [_ [Hlen _]].
    exists batches. split; [exact Hb|].
    rewrite createBatches_chunks in Hb by exact HB. injection Hb as Hb.
    assert (Hfuel : forall fuel,
              getCandidateBatches fuel candidates B
              = if (List.length batches <? fuel)%nat then Some batches else None).
    { intros fuel. unfold getCandidateBatches.
      pose proof (batchLoop_chunks candidates B HB fuel 0 ltac:(lia)) as H.
      cbv zeta in H. simpl (Z.of_nat 0 * B) in H. simpl (map _ (seq 0 0)) in H.
      rewrite H, Hb. rewrite <- Hb at 2. rewrite length_map, length_seq.
      now rewrite Nat.sub_0_r. }
    split; [exact Hfuel|].
    rewrite Hfuel.
    assert (E : (List.length batches <? S (List.length candidates))%nat = true)
      by (apply Nat.ltb_lt; lia).
    now rewrite E.
  - intros HB Hne fuel. unfold getCandidateBatches.
    apply batchLoop_diverges; [exact HB|exact Hne|lia].
  - intros -> fuel. reflexivity.
Qed.

Lemma length_append (a b : string) :
  String.length (a +++ b) = (String.length a + String.length b)%nat.
Proof. induction a as [|c a IH]; simpl; [reflexivity|now rewrite IH]. Qed.

Lemma join_first_length (sep first : string) (rest : list string) :
  (String.length first <= String.length (join sep (first :: rest)))%nat.
Proof.
  destruct rest as [|p rest]; simpl; [lia|].
  rewrite length_append. lia.
Qed.

(** X16.  The bio [createBioFromData] builds always has at least
    20 characters, the minimum [CandidateSchema] demands; it is the stock
    sentence about software development when the record has no headline,
    summary, job title or skills; and it starts with the headline whenever
    the headline alone has 20 characters, so that it is no shorter than the
    headline. *)
Theorem createBioFromData_length :
  forall candidateData : RawCandidateData,
    (20 <= String.length (createBioFromData candidateData))%nat
    /\ (truthyString (headline candidateData) = None ->
        truthyString (summary candidateData) = None ->
        truthyString (jobTitle candidateData) = None ->
        skills candidateData = None ->
        createBioFromData candidateData
        = "Professional with experience in software development"
          +++ ". Skilled in various technologies and committed to delivering quality work.")
    /\ (forall h, headline candidateData = Some h ->
                  (20 <= String.length h)%nat ->
                  String.prefix h (createBioFromData candidateData) = true
                  /\ (String.length h
                      <= String.length (createBioFromData candidateData))%nat).
Proof.
  intros candidateData. split; [|split].
  - unfold createBioFromData. cbv zeta.
    match goal with
    | |- context [(20 <=? String.length ?bio)%nat] =>
        destruct (20 <=? String.length bio)%nat eqn:Hlen
    end.
    + now apply Nat.leb_le in Hlen.
    + rewrite length_append. simpl. lia.
  - intros Hh Hs Hj Hk. unfold createBioFromData. rewrite Hh, Hs, Hj, Hk.
    reflexivity.
  - intros h Hh Hlen. unfold createBioFromData. cbv zeta. rewrite Hh.
    assert (Ht : truthyString (Some h) = Some h).
    { destruct h; [simpl in Hlen; lia|reflexivity]. }
    rewrite Ht. simpl ([] ++ [h]).
    match goal with
    | |- context [join ". " ?parts] =>
        assert (Hparts : exists rest, parts = h :: rest)
    end.
    { destruct (truthyString (summary candidateData));
        destruct (truthyString (jobTitle candidateData));
        destruct (skills candidateData) as [[sk|items]|];
        try destruct (Js.str_truthy sk);
        try destruct (Js.str_truthy (join ", " _));
        eexists; reflexivity. }
    destruct Hparts as [rest Hparts]. rewrite Hparts.
    pose proof (join_first_length ". " h rest) as Hjoin.
    assert (E : (20 <=? String.length (join ". " (h :: rest)))%nat = true)
      by (apply Nat.leb_le; lia).
    rewrite E. split; [|exact Hjoin].
    destruct rest as [|p rest]; simpl.
    + clear. induction h as [|c h IH]; simpl; [reflexivity|].
      destruct (ascii_dec c c); [exact IH|congruence].
    + clear. induction h as [|c h IH]; simpl; [reflexivity|].
      destruct (ascii_dec c c); [exact IH|congruence].
Qed.

Section Deduplication.
Variable normalizeText : string -> string.

Let key := keyOf normalizeText.
Let loop := deduplicateLoop normalizeText.

Lemma seen_spec (k : string) (seen : list string) :
  existsb (String.eqb k) seen = true <-> In k seen.
Proof.
  rewrite existsb_exists. split.
  - intros [x [Hin Heq]]. apply String.eqb_eq in Heq. now subst.
  - intros Hin. exists k. split; [exact Hin|apply String.eqb_refl].
Qed.

Lemma deduplicateLoop_acc (l : list Candidate) :
  forall seen acc, loop l seen acc = acc ++ loop l seen [].
Proof.
  induction l as [|c l IH]; intros seen acc; simpl.
  - now rewrite app_nil_r.
  - unfold loop in *. simpl. fold key.
    destruct (negb (existsb (String.eqb (key c)) seen)).
    + rewrite (IH _ (acc ++ [c])), (IH _ ([] ++ [c])).
      now rewrite <- app_assoc.
    + apply IH.
Qed.

Lemma deduplicateLoop_step (c : Candidate) (l : list Candidate)
    (seen : list string) :
  loop (c :: l) seen []
  = if existsb (String.eqb (key c)) seen then loop l seen []
    else c :: loop l (seen ++ [key c]) [].
Proof.
  unfold loop. simpl. fold key. fold loop.
  destruct (existsb (String.eqb (key c)) seen); simpl; [reflexivity|].
  now rewrite deduplicateLoop_acc.
Qed.

Lemma deduplicateLoop_In (l : list Candidate) :
  forall seen c, In c (loop l seen []) -> In c l /\ ~ In (key c) seen.
Proof.
  induction l as [|x l IH]; intros seen c Hin.
  - destruct Hin.
  - rewrite deduplicateLoop_step in Hin.
    destruct (existsb (String.eqb (key x)) seen) eqn:Hseen.
    + destruct (IH seen c Hin) as [H1 H2]. split; [now right|exact H2].
    + destruct Hin as [<-|Hin].
      * split; [now left|]. intros H. apply seen_spec in H. congruence.
      * destruct (IH _ c Hin) as [H1 H2]. split; [now right|].
        intros H. apply H2. apply in_or_app. now left.
Qed.

Lemma deduplicateLoop_NoDup (l : list Candidate) :
  forall seen, NoDup (map key (loop l seen [])).
Proof.
  induction l as [|x l IH]; intros seen.
  - constructor.
  - rewrite deduplicateLoop_step.
    destruct (existsb (String.eqb (key x)) seen); [apply IH|].
    simpl. constructor; [|apply IH].
    intros Hin. apply in_map_iff in Hin. destruct Hin as [c [Hk Hc]].
    apply deduplicateLoop_In in Hc. destruct Hc as [_ Hc].
    apply Hc. apply in_or_app. right. left. now symmetry.
Qed.

Lemma deduplicateLoop_first (l1 : list Candidate) :
  forall seen c l2,
    ~ In (key c) seen -> ~ In (key c) (map key l1) ->
    In c (loop (l1 ++ c :: l2) seen []).
Proof.
  induction l1 as [|x l1 IH]; intros seen c l2 Hseen Hbefore.
  - simpl app. rewrite deduplicateLoop_step.
    destruct (existsb (String.eqb (key c)) seen) eqn:E; [|now left].
    apply seen_spec in E. contradiction.
  - simpl app. rewrite deduplicateLoop_step.
    simpl in Hbefore.
    destruct (existsb (String.eqb (key x)) seen).
    + apply IH; [exact Hseen|tauto].
    + right. apply IH; [|tauto].
      intros H. apply in_app_or in H. destruct H as [H|[H|[]]]; [tauto|].
      apply Hbefore. now left.
Qed.

Lemma deduplicateLoop_fixed (l : list Candidate) :
  forall seen,
    NoDup (map key l) -> (forall c, In c l -> ~ In (key c) seen) ->
    loop l seen [] = l.
Proof.
  induction l as [|x l IH]; intros seen Hnd Hfresh.
  - reflexivity.
  - rewrite deduplicateLoop_step.
    destruct (existsb (String.eqb (key x)) seen) eqn:E.
    + apply seen_spec in E. exfalso. apply (Hfresh x); [now left|exact E].
    + simpl in Hnd. inversion Hnd as [|k ks Hx Hnd']; subst.
      f_equal. apply IH; [exact Hnd'|].
      intros c Hc H. apply in_app_or in H. destruct H as [H|[H|[]]].
      * apply (Hfresh c); [now right|exact H].
      * apply Hx. rewrite H. now apply in_map.
Qed.

(** X17.  [deduplicateCandidates], for any [normalizeText]: the
    kept candidates have pairwise distinct keys and come from the input; the
    first candidate of every key is kept, so every input candidate has a
    kept one with its key; nothing is added; a list without duplicate keys
    is returned as it is, and deduplicating twice is deduplicating once. *)
Theorem deduplicateCandidates_keeps_first_of_each_key :
  forall candidates : list Candidate,
    let kept := deduplicateCandidates normalizeText candidates in
    NoDup (map (keyOf normalizeText) kept)
    /\ (forall c, In c kept -> In c candidates)
    /\ (forall before c after,
          candidates = before ++ c :: after ->
          ~ In (keyOf normalizeText c) (map (keyOf normalizeText) before) ->
          In c kept)
    /\ (forall c, In c candidates ->
          exists c', In c' kept /\ keyOf normalizeText c' = keyOf normalizeText c)
    /\ (List.length kept <= List.length candidates)%nat
    /\ (NoDup (map (keyOf normalizeText) candidates) -> kept = candidates)
    /\ deduplicateCandidates normalizeText kept = kept.
Proof.
  intros candidates kept. subst kept. unfold deduplicateCandidates.
  fold loop. fold key.
  assert (Hfirst : forall before c after,
            candidates = before ++ c :: after ->
            ~ In (key c) (map key before) ->
            In c (loop candidates [] [])).
  { intros before c after -> Hb. apply deduplicateLoop_first; [intros []|exact Hb]. }
  split; [apply deduplicateLoop_NoDup|].
  split; [intros c Hc; now apply deduplicateLoop_In in Hc|].
  split; [exact Hfirst|]. split; [|split; [|split]].
  - intros c Hc.
    assert (Hk : In (key c) (map key candidates)) by now apply in_map.
    clear Hc. revert Hfirst Hk. generalize (loop candidates [] []) as kept.
    intros kept Hfirst.
    induction candidates as [|x l IH] using rev_ind; [intros []|].
    intros Hk. rewrite map_app in Hk. apply in_app_or in Hk.
    destruct (in_dec string_dec (key c) (map key l)) as [Hin|Hnot].
    + apply IH; [|exact Hin].
      intros before c0 after Heq Hb.
      apply (Hfirst before c0 (after ++ [x])); [|exact Hb].
      rewrite Heq, <- app_assoc. reflexivity.
    + destruct Hk as [Hk|[Hk|[]]]; [contradiction|].
      exists x. split; [|exact Hk].
      apply (Hfirst l x []); [reflexivity|]. now rewrite Hk.
  - assert (Hlen : forall l seen, (List.length (loop l seen []) <= List.length l)%nat).
    { induction l as [|x l IH]; intros seen; [simpl; lia|].
      rewrite deduplicateLoop_step.
      destruct (existsb _ seen); simpl; [specialize (IH seen)|specialize (IH (seen ++ [key x]))];
        lia. }
    apply Hlen.
  - intros Hnd. apply deduplicateLoop_fixed; [exact Hnd|intros c _ []].
  - apply deduplicateLoop_fixed; [apply deduplicateLoop_NoDup|intros c _ []].
Qed.

Lemma deduplicateLoop_map (f : Candidate -> Candidate) (l : list Candidate) :
  (forall c, key (f c) = key c) ->
  forall seen, loop (map f l) seen [] = map f (loop l seen []).
Proof.
  intros Hf. induction l as [|c l IH]; intros seen; [reflexivity|].
  change (map f (c :: l)) with (f c :: map f l).
  rewrite !deduplicateLoop_step, Hf.
  destruct (existsb (String.eqb (key c)) seen); [apply IH|].
  rewrite IH. reflexivity.
Qed.

(** X18.  [preprocessCandidates] keeps the number, the order and
    the ids of the candidates and leaves every candidate with a [skills]
    array; because it does not touch names and emails, deduplicating the
    preprocessed candidates gives the preprocessed deduplicated candidates;
    and it is idempotent whenever [normalizeText] is. *)
Theorem preprocessCandidates_commutes_with_deduplication :
  forall candidates : list Candidate,
    deduplicateCandidates normalizeText
      (preprocessCandidates normalizeText candidates)
    = preprocessCandidates normalizeText
        (deduplicateCandidates normalizeText candidates)
    /\ List.length (preprocessCandidates normalizeText candidates)
       = List.length candidates
    /\ map id (preprocessCandidates normalizeText candidates) = map id candidates
    /\ (forall c, In c (preprocessCandidates normalizeText candidates) ->
          exists items, Types.skills c = Some items)
    /\ ((forall s, normalizeText (normalizeText s) = normalizeText s) ->
        preprocessCandidates normalizeText
          (preprocessCandidates normalizeText candidates)
        = preprocessCandidates normalizeText candidates).
Proof.
  intros candidates. unfold deduplicateCandidates, preprocessCandidates.
  fold loop. split; [|split; [|split; [|split]]].
  - apply deduplicateLoop_map. intros c. reflexivity.
  - apply length_map.
  - rewrite map_map. reflexivity.
  - intros c Hc. apply in_map_iff in Hc. destruct Hc as [c0 [<- _]].
    eexists. reflexivity.
  - intros Hidem. rewrite map_map. apply map_ext. intros c. simpl.
    rewrite !Hidem. f_equal. f_equal.
    destruct (Types.skills c) as [items|]; [|reflexivity].
    rewrite map_map. apply map_ext. intros s. apply Hidem.
Qed.

End Deduplication.

Lemma getCount_setCount (k key : string) (v : Z) (m : Counts) :
  getCount key (setCount k v m)
  = if String.eqb k key then Some v else getCount key m.
Proof.
  induction m as [|[k0 n] m IH]; simpl.
  - reflexivity.
  - destruct (String.eqb k0 k) eqn:E0; simpl.
    + apply String.eqb_eq in E0. subst k0.
      destruct (String.eqb k key); reflexivity.
    + destruct (String.eqb k0 key) eqn:E1.
      * apply String.eqb_eq in E1. subst k0.
        rewrite String.eqb_sym in E0. now rewrite E0.
      * exact IH.
Qed.

Lemma totalOf_setCount (k : string) (v : Z) (m : Counts) :
  totalOf (setCount k v m) = totalOf m - countOf m k + v.
Proof.
  unfold countOf. induction m as [|[k0 n] m IH]; simpl.
  - lia.
  - destruct (String.eqb k0 k); simpl; [lia|]. rewrite IH. lia.
Qed.

Lemma keys_setCount_In (k : string) (v : Z) (m : Counts) (x : string) :
  In x (map fst (setCount k v m)) -> x = k \/ In x (map fst m).
Proof.
  induction m as [|[k0 n] m IH]; simpl.
  - intros [<-|[]]. now left.
  - destruct (String.eqb k0 k); simpl.
    + intros [<-|H]; right; [now left|now right].
    + intros [<-|H]; [right; now left|].
      destruct (IH H); [now left|right; now right].
Qed.

Lemma keys_setCount (k : string) (v : Z) (m : Counts) :
  NoDup (map fst m) -> NoDup (map fst (setCount k v m)).
Proof.
  induction m as [|[k0 n] m IH]; simpl; intros Hnd.
  - constructor; [intros []|constructor].
  - inversion Hnd as [|y ys Hy Hnd']; subst.
    destruct (String.eqb k0 k) eqn:E; simpl.
    + constructor; assumption.
    + constructor; [|now apply IH].
      intros Hin. destruct (keys_setCount_In k v m k0 Hin) as [->|H];
        [|contradiction].
      rewrite String.eqb_refl in E. discriminate.
Qed.

Lemma countOf_increment (k key : string) (m : Counts) :
  countOf (increment k m) key
  = countOf m key + (if String.eqb k key then 1 else 0).
Proof.
  unfold countOf at 1, increment. rewrite getCount_setCount.
  destruct (String.eqb k key) eqn:E.
  - apply String.eqb_eq in E. subst key. unfold countOf.
    destruct (getCount k m) as [n|]; [|reflexivity].
    destruct (n =? 0) eqn:En; [apply Z.eqb_eq in En; lia|reflexivity].
  - unfold countOf. lia.
Qed.

Lemma totalOf_increment (k : string) (m : Counts) :
  totalOf (increment k m) = totalOf m + 1.
Proof.
  unfold increment. rewrite totalOf_setCount. unfold countOf.
  destruct (getCount k m) as [n|]; [|lia].
  destruct (n =? 0) eqn:En; [apply Z.eqb_eq in En|]; lia.
Qed.

(** A tally built by one [increment] per candidate. *)
Lemma tally_spec (keyOf : Candidate -> string) (candidates : list Candidate) :
  forall m : Counts,
    let tally := fold_left (fun acc c => increment (keyOf c) acc) candidates m in
    totalOf tally = totalOf m + Z.of_nat (List.length candidates)
    /\ (NoDup (map fst m) -> NoDup (map fst tally))
    /\ (forall key, countOf tally key
                    = countOf m key + occurrences keyOf key candidates).
Proof.
  unfold occurrences.
  induction candidates as [|c l IH]; intros m; cbv zeta.
  - simpl. split; [lia|]. split; [tauto|]. intros key. lia.
  - simpl fold_left.
    destruct (IH (increment (keyOf c) m)) as [Htot [Hnd Hcount]].
    split; [|split].
    + rewrite Htot, totalOf_increment. simpl List.length. lia.
    + intros H. apply Hnd. now apply keys_setCount.
    + intros key. rewrite Hcount, countOf_increment. simpl filter.
      destruct (String.eqb (keyOf c) key); simpl List.length; lia.
Qed.

Lemma addToSet_spec (item : string) (set : list string) :
  (NoDup set -> NoDup (addToSet item set))
  /\ (forall x, In x (addToSet item set) <-> x = item \/ In x set).
Proof.
  unfold addToSet.
  destruct (existsb (String.eqb item) set) eqn:E.
  - split; [tauto|]. intros x. split; [now right|].
    intros [->|H]; [|exact H].
    apply existsb_exists in E. destruct E as [y [Hy Heq]].
    apply String.eqb_eq in Heq. now subst.
  - split.
    + intros Hnd. apply NoDup_app; [exact Hnd|constructor; [intros []|constructor]|].
      intros x Hx [<-|[]].
      assert (existsb (String.eqb item) set = true); [|congruence].
      apply existsb_exists. exists item. split; [exact Hx|apply String.eqb_refl].
    + intros x. rewrite in_app_iff. simpl. split; intros H.
      * destruct H as [H|[<-|[]]]; [now right|now left].
      * destruct H as [->|H]; [right; now left|now left].
Qed.

Lemma addAll_spec (items : list string) :
  forall set,
    let set' := fold_left (fun s skill => addToSet skill s) items set in
    (NoDup set -> NoDup set')
    /\ (forall x, In x set' <-> In x items \/ In x set).
Proof.
  induction items as [|i items IH]; intros set; cbv zeta; simpl.
  - split; [tauto|]. intros x. tauto.
  - destruct (IH (addToSet i set)) as [Hnd Hin].
    destruct (addToSet_spec i set) as [Hnd1 Hin1].
    split; [tauto|]. intros x. rewrite Hin, Hin1.
    split; intros H; intuition (subst; auto).
Qed.

(** The state the [forEach] reaches. *)
Lemma visit_fold (candidates : list Candidate) :
  forall skills locs total,
    exists skills' total',
      fold_left visit candidates (skills, locs, total)
      = (skills',
         fold_left (fun acc c => increment (location c) acc) candidates locs,
         total')
      /\ (NoDup skills -> NoDup skills')
      /\ (forall x, In x skills' ->
            In x skills
            \/ exists c items, In c candidates
                               /\ Types.skills c = Some items /\ In x items)
      /\ (candidates = [] -> total' = total).
Proof.
  induction candidates as [|c l IH]; intros sk locs total.
  - exists sk, total. simpl. repeat split; auto.
  - change (fold_left visit (c :: l) (sk, locs, total))
      with (fold_left visit l (visit (sk, locs, total) c)).
    change (fold_left (fun acc c0 => increment (location c0) acc) (c :: l) locs)
      with (fold_left (fun acc c0 => increment (location c0) acc) l
                      (increment (location c) locs)).
    remember (visit (sk, locs, total) c) as st eqn:Hst.
    unfold visit in Hst. cbv beta iota zeta in Hst. subst st.
    set (sk1 := match Types.skills c with
                | Some items => fold_left (fun set skill => addToSet skill set) items sk
                | None => sk
                end).
    destruct (IH sk1 (increment (location c) locs) (total + experience c))
      as [sk' [total' [Hfold [Hnd [Hin _]]]]].
    exists sk', total'. split; [exact Hfold|].
    assert (H1 : (NoDup sk -> NoDup sk1)
                 /\ (forall x, In x sk1 ->
                       In x sk \/ exists items, Types.skills c = Some items
                                                /\ In x items)).
    { unfold sk1. destruct (Types.skills c) as [items|].
      - destruct (addAll_spec items sk) as [Hn Hi]. split; [exact Hn|].
        intros x Hx. apply Hi in Hx. destruct Hx as [Hx|Hx]; [|now left].
        right. exists items. split; [reflexivity|exact Hx].
      - split; [tauto|]. intros x Hx. now left. }
    destruct H1 as [Hnd1 Hin1].
    split; [tauto|]. split; [|discriminate].
    intros x Hx. destruct (Hin x Hx) as [H|[c' [items [Hc [Hs Hi]]]]].
    + destruct (Hin1 x H) as [H'|[items [Hs Hi]]]; [now left|].
      right. exists c, items. split; [now left|]. split; assumption.
    + right. exists c', items. split; [now right|]. split; assumption.
Qed.

(** X19.  In the statistics of [getCandidateStats] every
    candidate is counted once under its location and once under its
    availability ("not-available" when it has none): the counts of either
    tally add up to [totalCandidates], no key appears twice, and the count of
    a key is the number of candidates with that key.  [topSkills] holds at
    most 20 skills, no more than [uniqueSkills], without repetition, each
    one a skill of some candidate.  [averageExperience] is NaN for an empty
    store and a number otherwise. *)
Theorem getCandidateStats_counts_every_candidate_once :
  forall candidates : list Candidate,
    let stats := getCandidateStats candidates in
    totalCandidates stats = Z.of_nat (List.length candidates)
    /\ totalOf (locations stats) = totalCandidates stats
    /\ totalOf (availabilityDistribution stats) = totalCandidates stats
    /\ NoDup (map fst (locations stats))
    /\ NoDup (map fst (availabilityDistribution stats))
    /\ (forall key, countOf (locations stats) key
                    = occurrences location key candidates)
    /\ (forall key, countOf (availabilityDistribution stats) key
                    = occurrences availabilityKey key candidates)
    /\ (List.length (topSkills stats) <= 20)%nat
    /\ Z.of_nat (List.length (topSkills stats)) <= uniqueSkills stats
    /\ NoDup (topSkills stats)
    /\ (forall skill, In skill (topSkills stats) ->
          exists c items, In c candidates
                          /\ Types.skills c = Some items /\ In skill items)
    /\ (candidates = [] -> averageExperience stats = NaN)
    /\ (candidates <> [] -> exists n, averageExperience stats = Num n).
Proof.
  intros candidates stats. subst stats. unfold getCandidateStats.
  destruct (visit_fold candidates [] [] 0)
    as [sk [total [Hfold [Hnd [Hin Hempty]]]]].
  match type of Hfold with
  | ?run = _ =>
      match goal with
      | |- context [fold_left visit candidates ?init] =>
          change (fold_left visit candidates init) with run
      end
  end.
  rewrite Hfold.
  cbn [totalCandidates locations availabilityDistribution topSkills uniqueSkills
       averageExperience].
  destruct (tally_spec location candidates []) as [Ht1 [Hn1 Hc1]].
  destruct (tally_spec availabilityKey candidates []) as [Ht2 [Hn2 Hc2]].
  cbv zeta in *. simpl totalOf in Ht1, Ht2.
  specialize (Hnd (NoDup_nil _)).
  assert (Hslice : Js.slice sk 0 20 = firstn 20 sk).
  { rewrite slice_nonneg by lia. reflexivity. }
  split; [reflexivity|]. split; [exact Ht1|]. split; [exact Ht2|].
  split; [apply Hn1; constructor|]. split; [apply Hn2; constructor|].
  split; [intros key; rewrite Hc1; reflexivity|].
  split; [intros key; rewrite Hc2; reflexivity|].
  rewrite Hslice.
  split; [rewrite length_firstn; lia|].
  split; [rewrite length_firstn; lia|].
  split.
  { rewrite <- (firstn_skipn 20 sk) in Hnd. now apply NoDup_app_remove_r in Hnd. }
  split.
  { intros skill Hskill.
    assert (Hsk : In skill sk).
    { rewrite <- (firstn_skipn 20 sk). apply in_or_app. now left. }
    destruct (Hin skill Hsk) as [[]|H]. exact H. }
  split.
  - intros ->. rewrite (Hempty eq_refl). reflexivity.
  - intros Hne. unfold divide.
    assert (E : (Z.of_nat (List.length candidates) =? 0) = false).
    { apply Z.eqb_neq. destruct candidates; [congruence|simpl; lia]. }
    rewrite E. eexists. reflexivity.
Qed.

Lemma fold_max_ge (base : Z) (l : list Z) : base <= fold_right Z.max base l.
Proof. induction l as [|x l IH]; simpl; lia. Qed.

Section WaveClock.
Context (env : Env) (batches : list (list Candidate)) (job : JobDescription)
        (weights : option PartialScoringWeights.t).

(** A wave ends no earlier than it started, and one second later when
    more batches remain. *)
Lemma waves_step_clock (fuel i : nat) (results : list BatchResult) (w : World) :
  (i < List.length batches)%nat ->
  exists (results' : list BatchResult) (w1 : World),
    waves (S fuel) env batches job weights (Z.of_nat i) results w
    = waves fuel env batches job weights (Z.of_nat (i + 3)) results' w1
    /\ now w + (if (i + 3 <? List.length batches)%nat then 1000 else 0) <= now w1.
Proof.
  intros Hi. simpl waves.
  assert (E : (Z.of_nat i <? Z.of_nat (List.length batches)) = true)
    by (apply Z.ltb_lt; lia).
  rewrite E.
  set (tasks := mapi _ _).
  unfold bind at 1. unfold allSettled at 1.
  set (runs := map (fun task => task (mkWorld (now w) 0 [])) tasks).
  set (w1 := mkWorld _ _ _).
  unfold bind at 1, Date_now at 1.
  set (processed := mapi _ (map fst runs)).
  replace (Z.of_nat i + 3) with (Z.of_nat (i + 3)) by lia.
  assert (Hw1 : now w <= now w1) by (unfold w1; cbn [now]; apply fold_max_ge).
  destruct (Z.of_nat (i + 3) <? Z.of_nat (List.length batches)) eqn:Hmore.
  - apply Z.ltb_lt in Hmore.
    assert (E3 : (i + 3 <? List.length batches)%nat = true)
      by (apply Nat.ltb_lt; lia).
    rewrite E3. unfold bind, delay. eexists (_ ++ processed), _.
    split; [reflexivity|]. cbn [now]. lia.
  - apply Z.ltb_ge in Hmore.
    assert (E3 : (i + 3 <? List.length batches)%nat = false)
      by (apply Nat.ltb_ge; lia).
    rewrite E3. unfold bind, ret. eexists (_ ++ processed), _.
    split; [reflexivity|]. lia.
Qed.

Lemma waves_clock :
  forall (fuel i : nat) (results : list BatchResult) (w : World),
    (List.length batches <= 3 * fuel + i)%nat ->
    (i < List.length batches)%nat ->
    now w + 1000 * ((Z.of_nat (List.length batches) - Z.of_nat i - 1) / 3)
    <= now (snd (waves fuel env batches job weights (Z.of_nat i) results w)).
Proof.
  induction fuel as [|fuel IH]; intros i results w Hfuel Hi; [lia|].
  destruct (waves_step_clock fuel i results w Hi) as [results' [w1 [Hstep Hw1]]].
  rewrite Hstep.
  destruct (i + 3 <? List.length batches)%nat eqn:Hmore.
  - apply Nat.ltb_lt in Hmore.
    specialize (IH (i + 3)%nat results' w1 ltac:(lia) Hmore).
    eapply Z.le_trans; [|exact IH].
    replace (Z.of_nat (List.length batches) - Z.of_nat i - 1)
      with ((Z.of_nat (List.length batches) - Z.of_nat (i + 3) - 1) + 1 * 3)
      by lia.
    rewrite Z.div_add by lia. lia.
  - apply Nat.ltb_ge in Hmore.
    assert (Hlast : (Z.of_nat (List.length batches) - Z.of_nat i - 1) / 3 = 0).
    { apply Z.div_small. lia. }
    rewrite Hlast.
    destruct fuel as [|fuel'].
    + simpl. lia.
    + simpl waves.
      assert (E : (Z.of_nat (i + 3) <? Z.of_nat (List.length batches)) = false)
        by (apply Z.ltb_ge; lia).
      rewrite E. simpl. lia.
Qed.

End WaveClock.

(** X20.  [processParallelBatches] runs the batches three at a
    time and waits one second between two waves: a run of [scoreCandidates]
    over [k >= 1] batches ends no earlier than [1000 * ((k - 1) / 3)]
    milliseconds after it started, whatever the latencies. *)
Theorem waves_are_a_second_apart :
  forall (env : Env) (job : JobDescription) (pool : list Candidate)
         (options : Options.t) (w : World),
    pool <> [] ->
    0 < batchSizeOf options ->
    exists batches : list (list Candidate),
      createBatches pool (batchSizeOf options) = Normal batches
      /\ now w + 1000 * ((Z.of_nat (List.length batches) - 1) / 3)
         <= now (snd (scoreCandidates env job pool options w)).
Proof.
  intros env job pool options w Hpool HB.
  destruct (createBatches_Normal pool (batchSizeOf options) ltac:(lia))
    as [batches Hb].
  destruct (createBatches_count pool _ batches HB Hb) as [_ [_ Hone]].
  specialize (Hone Hpool).
  exists batches. split; [exact Hb|].
  destruct (scoreCandidates_world env job pool options w batches Hpool Hb)
    as [r Hr].
  rewrite Hr. cbn [snd].
  pose proof (waves_clock env batches job (Options.weights options)
                (List.length batches) 0 [] w ltac:(lia) ltac:(lia)) as H.
  simpl (Z.of_nat 0) in H. rewrite Z.sub_0_r in H. exact H.
Qed.

(** The theorem at five batches of one candidate: two waves. *)
Lemma waves_are_a_second_apart_witness :
  1000 <= now (snd (scoreCandidates patchyEnv "Senior engineer" fiveCandidates
                      (Options.mk None (Some 1) None) start)).
Proof.
  destruct (waves_are_a_second_apart patchyEnv "Senior engineer" fiveCandidates
              (Options.mk None (Some 1) None) start
              ltac:(discriminate) ltac:(reflexivity)) as [batches [Hb H]].
  vm_compute in Hb. injection Hb as <-. exact H.
Defined.

Lemma prefix_append (a b : string) : String.prefix a (a +++ b) = true.
Proof.
  induction a as [|c a IH]; simpl; [now destruct b|].
  destruct (ascii_dec c c); [exact IH|congruence].
Qed.

(** X21.  What [mapErrorToScoringError] can return: a RATE_LIMIT
    only for status 429, with a non-zero [retryAfter]; a QUOTA_EXCEEDED that
    resets 24 hours after the current instant; a NETWORK_ERROR only with one
    of the codes ECONNREFUSED, ENOTFOUND and TIMEOUT, its message starting
    with "Network error: "; a VALIDATION_ERROR on "response"; a PARSE_ERROR
    whose details mention JSON and whose raw response is never the empty
    string; an UNKNOWN_ERROR with a non-empty message.  A thrown value that
    is not an object is always an UNKNOWN_ERROR. *)
Theorem mapErrorToScoringError_shape :
  forall (t : Z) (error : Js.thrown),
    match mapErrorToScoringError t error with
    | RATE_LIMIT retryAfter message =>
        retryAfter <> 0 /\ message = "API rate limit exceeded"
        /\ exists e, isAPIError error = Some e /\ statusIs e 429 = true
    | QUOTA_EXCEEDED resetTime message =>
        resetTime = t + 86400000 /\ message = "API quota exceeded"
    | NETWORK_ERROR message code =>
        (code = Some "ECONNREFUSED" \/ code = Some "ENOTFOUND"
         \/ code = Some "TIMEOUT")
        /\ String.prefix "Network error: " message = true
    | VALIDATION_ERROR field message =>
        field = "response" /\ message = "Invalid response format from AI model"
    | PARSE_ERROR details rawResponse =>
        Js.includes "JSON" details = true /\ rawResponse <> Some EmptyString
    | UNKNOWN_ERROR message => Js.str_truthy message = true
    end
    /\ (isAPIError error = None ->
        type (mapErrorToScoringError t error) = T_UNKNOWN_ERROR).
Proof.
  intros t error. split.
  - unfold mapErrorToScoringError.
    destruct (isAPIError error) as [e|] eqn:Herr.
    + destruct (statusIs e 429) eqn:H429.
      { split; [|split; [reflexivity|now exists e]].
        destruct (Js.retryAfter e) as [r|]; [|discriminate].
        destruct (r =? 0) eqn:Hr; [discriminate|now apply Z.eqb_neq in Hr]. }
      destruct (statusIs e 402 || optIs (Js.code e) "insufficient_quota").
      { split; [lia|reflexivity]. }
      destruct (optIs (Js.code e) "ECONNREFUSED" || optIs (Js.code e) "ENOTFOUND"
                || optIs (Js.code e) "TIMEOUT") eqn:Hnet.
      { split; [|apply prefix_append].
        unfold optIs in Hnet. destruct (Js.code e) as [c|]; [|discriminate].
        apply orb_prop in Hnet. destruct Hnet as [Hnet|Hnet];
          [apply orb_prop in Hnet; destruct Hnet as [Hnet|Hnet]|];
          apply String.eqb_eq in Hnet; subst c; tauto. }
      destruct (optIs (Js.name e) "ZodError"
                || match Js.issues e with Some _ => true | None => false end).
      { split; reflexivity. }
      destruct (optIs (Js.name e) "SyntaxError"
                && match Js.message e with
                   | Some m => Js.includes "JSON" m
                   | None => false
                   end) eqn:Hsyn.
      { apply andb_prop in Hsyn. destruct Hsyn as [_ Hmsg].
        destruct (Js.message e) as [m|]; [|discriminate].
        split; [exact Hmsg|].
        destruct (Js.rawResponse e) as [raw|]; [|discriminate].
        destruct raw; simpl; discriminate. }
      destruct (Js.message e) as [m|]; [|reflexivity].
      destruct (Js.str_truthy m) eqn:Hm; [exact Hm|reflexivity].
    + destruct (Js.thrown_truthy error) eqn:Htruthy; [|reflexivity].
      destruct error as [| |b|s|e]; simpl in *; try discriminate.
      * now subst b.
      * exact Htruthy.
  - intros Hnone. unfold mapErrorToScoringError. now rewrite Hnone.
Qed.
